(** * memo-app: persistence, search and autosave

    A shallow embedding of the memo application's core:
    - [utils/textUtils.ts]  ([searchInText], [extractTitle],
                             [generatePreview], [sanitizeString], [isEmpty]),
    - [utils/idUtils.ts]    ([isValidId], [shortenId]),
    - [utils/dateUtils.ts]  ([formatRelativeTime]),
    - [utils/storage.ts]    (class [MemoStorage] over [localStorage]),
    - [hooks/useMemos.ts]   ([filteredMemos], [exportMemos], the cache and
                             its operations, the debounced search query),
    - [hooks/useAutoSave.ts] (the debounce / retry scheduler),
    - [app/page.tsx]        (the props of [useAutoSave], the status shown).

    Conventions.  A JavaScript string is kept as a [string], the sequence
    of the bytes of its UTF-8 form.  Where the code counts, cuts, trims,
    searches or maps the case of a string it works on UTF-16 code units:
    these functions are given on [list N], the code units, which
    [CodeUnits.units] computes from the UTF-8 form; the Unicode case
    mapping is the host's.  A number that is a length or an index may be
    any number of the language ([Number.t]): NaN, an infinity or a finite
    value.  A thrown exception is the left summand of
    [result].  The host's [Date] text codec and locale are a [Host]
    record.  The code runs in the browser ([window] and [localStorage] are
    defined). *)

From Stdlib Require Import String Ascii List ZArith NArith Bool Lia.
From Stdlib Require Import Permutation Sorted DecimalString DecimalZ.
From Stdlib Require Import QArith_base Qround.
Import ListNotations.
Close Scope Q_scope.
Set Warnings "-register-all".
Open Scope list_scope.
Open Scope string_scope.

(* ================================================================== *)
(** ** Host string primitives *)

Module Str.

(** [!s] for a string: only the empty string is falsy. *)
Definition falsy (s : string) : bool :=
  match s with
  | EmptyString => true
  | String _ _ => false
  end.

(** The white space of the ASCII range: TAB, LF, VT, FF, CR and SPACE. *)
Definition isWhiteSpace (c : ascii) : bool :=
  let n := nat_of_ascii c in
  (((9 <=? n) && (n <=? 13)) || (n =? 32))%nat.

(** The case mapping of the ASCII range. *)
Definition toLowerChar (c : ascii) : ascii :=
  let n := nat_of_ascii c in
  if ((65 <=? n) && (n <=? 90))%nat then ascii_of_nat (n + 32) else c.

Fixpoint toLowerCase (s : string) : string :=
  match s with
  | EmptyString => EmptyString
  | String c r => String (toLowerChar c) (toLowerCase r)
  end.

Fixpoint startsWith (s q : string) {struct q} : bool :=
  match q, s with
  | EmptyString, _ => true
  | String _ _, EmptyString => false
  | String b q', String a s' => Ascii.eqb a b && startsWith s' q'
  end.

(** [s.includes(q)]: [q] occurs in [s] at some position. *)
Fixpoint includes (s q : string) : bool :=
  startsWith s q ||
  match s with
  | EmptyString => false
  | String _ r => includes r q
  end.

(** Every byte of [s] is ASCII white space (the empty string included). *)
Fixpoint whitespaceOnly (s : string) : bool :=
  match s with
  | EmptyString => true
  | String c r => isWhiteSpace c && whitespaceOnly r
  end.

(** [s.split('\n')[0]]: the text before the first line feed. *)
Fixpoint firstLine (s : string) : string :=
  match s with
  | EmptyString => EmptyString
  | String c r => if Ascii.eqb c "010"%char then EmptyString else String c (firstLine r)
  end.

(** [parts.join(sep)]. *)
Fixpoint join (sep : string) (parts : list string) : string :=
  match parts with
  | [] => EmptyString
  | [p] => p
  | p :: rest => p ++ sep ++ join sep rest
  end.

End Str.

(* ================================================================== *)
(** ** JavaScript strings as UTF-16 code units *)

Module CodeUnits.

(** The code units of a code point: itself, or a surrogate pair. *)
Definition encode (cp : N) : list N :=
  if (cp <? 65536)%N then [cp]
  else [(55296 + (cp - 65536) / 1024)%N; (56320 + (cp - 65536) mod 1024)%N].

(** The code units of a UTF-8 text.  [pending] continuation bytes are
    still to come for the code point whose leading bits are [acc]. *)
Fixpoint decode (pending : nat) (acc : N) (s : string) : list N :=
  match s with
  | EmptyString => []
  | String c r =>
      let b := N_of_ascii c in
      match pending with
      | O =>
          if (b <? 128)%N then b :: decode 0 0 r
          else if (b <? 224)%N then decode 1 (b mod 32) r
          else if (b <? 240)%N then decode 2 (b mod 16) r
          else decode 3 (b mod 8) r
      | S O => (encode (acc * 64 + b mod 64) ++ decode 0 0 r)%list
      | S p => decode p (acc * 64 + b mod 64) r
      end
  end.

Definition units (s : string) : list N := decode 0 0 s.

(** [!s]: only the empty string is falsy. *)
Definition falsy (s : list N) : bool :=
  match s with
  | [] => true
  | _ :: _ => false
  end.

(** [a === b] *)
Fixpoint eqb (a b : list N) : bool :=
  match a, b with
  | [], [] => true
  | x :: a', y :: b' => (x =? y)%N && eqb a' b'
  | _, _ => false
  end.

(** WhiteSpace and LineTerminator of ECMAScript, which [trim] strips and
    [\s] matches: TAB, LF, VT, FF, CR, SPACE, U+00A0, U+1680,
    U+2000 to U+200A, U+2028, U+2029, U+202F, U+205F, U+3000, U+FEFF. *)
Definition isWhiteSpace (c : N) : bool :=
  ((9 <=? c) && (c <=? 13) || (c =? 32) || (c =? 160) || (c =? 5760) ||
   (8192 <=? c) && (c <=? 8202) || (c =? 8232) || (c =? 8233) ||
   (c =? 8239) || (c =? 8287) || (c =? 12288) || (c =? 65279))%N.

Fixpoint trimStart (s : list N) : list N :=
  match s with
  | [] => []
  | c :: r => if isWhiteSpace c then trimStart r else s
  end.

Fixpoint trimEnd (s : list N) : list N :=
  match s with
  | [] => []
  | c :: r =>
      match trimEnd r with
      | [] => if isWhiteSpace c then [] else [c]
      | r' => c :: r'
      end
  end.

Definition trim (s : list N) : list N := trimEnd (trimStart s).

(** Every code unit of [s] is white space (the empty string included). *)
Fixpoint whitespaceOnly (s : list N) : bool :=
  match s with
  | [] => true
  | c :: r => isWhiteSpace c && whitespaceOnly r
  end.

Fixpoint startsWith (s q : list N) {struct q} : bool :=
  match q, s with
  | [], _ => true
  | _ :: _, [] => false
  | b :: q', a :: s' => (a =? b)%N && startsWith s' q'
  end.

(** [s.includes(q)]: [q] occurs in [s] at some position. *)
Fixpoint includes (s q : list N) : bool :=
  startsWith s q ||
  match s with
  | [] => false
  | _ :: r => includes r q
  end.

(** [s.split('\n')[0]]: the code units before the first line feed. *)
Fixpoint firstLine (s : list N) : list N :=
  match s with
  | [] => []
  | c :: r => if (c =? 10)%N then [] else c :: firstLine r
  end.

(** [s.substring(start, finish)] for integers: both are brought into
    [0 .. s.length] and put in order. *)
Definition substring (start finish : Z) (s : list N) : list N :=
  let clamp := fun i => Z.to_nat (Z.min (Z.max i 0) (Z.of_nat (List.length s))) in
  let from := Nat.min (clamp start) (clamp finish) in
  let to := Nat.max (clamp start) (clamp finish) in
  firstn (to - from) (skipn from s).

(** [s.replace(/\s+/g, ' ')]: every maximal run of white space becomes one
    space.  [inRun]: the code unit before was white space. *)
Fixpoint collapse (inRun : bool) (s : list N) : list N :=
  match s with
  | [] => []
  | c :: r =>
      if isWhiteSpace c
      then if inRun then collapse true r else 32%N :: collapse true r
      else c :: collapse false r
  end.

Definition collapseWhiteSpace (s : list N) : list N := collapse false s.

End CodeUnits.

(* ================================================================== *)
(** ** utils/textUtils.ts *)

Section TextUtils.

(** [String.prototype.toLowerCase] on code units: the host's Unicode case
    mapping. *)
Variable toLowerCase : list N -> list N.

Definition searchInText (text query : list N) (caseSensitive : bool) : bool :=
  if CodeUnits.falsy query || CodeUnits.eqb (CodeUnits.trim query) [] then true
  else if CodeUnits.falsy text then false
  else
    let searchText := if caseSensitive then text else toLowerCase text in
    let searchQuery := if caseSensitive then query else toLowerCase query in
    CodeUnits.includes searchText searchQuery.

End TextUtils.
(* ================================================================== *)
(** ** types/memo.ts *)

(** A [Date] object: a time value in milliseconds, or Invalid Date (whose
    time value is NaN). *)
Inductive Date :=
| ValidDate (ms : Z)
| InvalidDate.

(** [d.getTime()]; [None] is NaN. *)
Definition getTime (d : Date) : option Z :=
  match d with
  | ValidDate ms => Some ms
  | InvalidDate => None
  end.

Record Memo := mkMemo {
  id : string;
  content : string;
  createdAt : Date;
  updatedAt : Date;
}.

Inductive StorageErrorType := QUOTA_EXCEEDED | PARSE_ERROR | NOT_FOUND | UNKNOWN.

(** What the code throws and catches: the host's error objects, and the
    [StorageError] objects [{type, message, originalError}] that
    [createStorageError] builds. *)
Inductive exn :=
| SyntaxError (message : string)
| Error (message : string)
| DOMException (name : string)
| StorageError (type : StorageErrorType) (message : string)
               (originalError : option exn).

(** Result of a call that may throw. *)
Definition result (A : Type) : Type := (exn + A)%type.
Definition Ok {A : Type} (a : A) : result A := inr a.
Definition Throw {A : Type} (e : exn) : result A := inl e.

(** What the host supplies and the repository does not define: the [Date]
    text codec and the locale's date format. *)
Record Host := mkHost {
  Date_parse : string -> Date;               (* new Date(text) *)
  Date_toISOString : Z -> string;            (* of a valid time value *)
  Date_toLocaleDateString : Date -> string;
}.

(* ================================================================== *)
(** ** utils/constants.ts *)

Definition STORAGE_KEY : string := "memo-app-data".
Definition DEBOUNCE_DELAY : Z := 3000.
Definition SEARCH_DEBOUNCE_DELAY : Z := 300.
Definition STORAGE_QUOTA_LIMIT : N := 5 * 1024 * 1024.
Definition DEFAULT_MEMO_TITLE : string := "新しいメモ".

Module ERROR_MESSAGES.
Definition STORAGE_QUOTA_EXCEEDED : string :=
  "ストレージ容量が不足しています。古いメモを削除してください。".
Definition STORAGE_PARSE_ERROR : string := "データの読み込みに失敗しました。".
Definition MEMO_NOT_FOUND : string := "メモが見つかりません。".
Definition SAVE_FAILED : string := "メモの保存に失敗しました。".
Definition DELETE_FAILED : string := "メモの削除に失敗しました。".
Definition UNKNOWN_ERROR : string := "予期しないエラーが発生しました。".
End ERROR_MESSAGES.

(* ================================================================== *)
(** ** utils/idUtils.ts *)

(** The atoms of
    [/^[0-9a-f]{8}-[0-9a-f]{4}-4[0-9a-f]{3}-[89ab][0-9a-f]{3}-[0-9a-f]{12}$/i]. *)
Inductive CharClass :=
| Hex                (* [0-9a-f], case-insensitive *)
| Lit (c : ascii)    (* a literal character *)
| Variant.           (* [89ab], case-insensitive *)

Definition between (lo hi : nat) (c : ascii) : bool :=
  (Nat.leb lo (nat_of_ascii c) && Nat.leb (nat_of_ascii c) hi)%bool.

Definition isHexDigit (c : ascii) : bool :=
  between 48 57 c || between 97 102 c || between 65 70 c.

Definition isVariantDigit (c : ascii) : bool :=
  between 56 57 c || between 97 98 c || between 65 66 c.

Definition matchesClass (cls : CharClass) (c : ascii) : bool :=
  match cls with
  | Hex => isHexDigit c
  | Lit d => Ascii.eqb c d
  | Variant => isVariantDigit c
  end.

Definition uuidRegex : list CharClass :=
  repeat Hex 8 ++ [Lit "-"] ++ repeat Hex 4 ++ [Lit "-"; Lit "4"] ++
  repeat Hex 3 ++ [Lit "-"; Variant] ++ repeat Hex 3 ++ [Lit "-"] ++
  repeat Hex 12.

(** [regex.test(s)] for an anchored sequence of single-character atoms. *)
Fixpoint test (regex : list CharClass) (s : string) : bool :=
  match regex, s with
  | [], EmptyString => true
  | cls :: regex', String c s' => matchesClass cls c && test regex' s'
  | _, _ => false
  end.

Definition isValidId (id : string) : bool := test uuidRegex id.

(* ================================================================== *)
(** ** JSON values and [JSON.stringify] *)

Inductive json :=
| JNull
| JBool (b : bool)
| JNum (n : Z)
| JStr (s : string)
| JArr (items : list json)
| JObj (fields : list (string * json)).

Module JSON.

Definition hexDigit (n : nat) : ascii :=
  if Nat.ltb n 10 then ascii_of_nat (48 + n) else ascii_of_nat (87 + n).

(** The escape of one code unit inside a JSON string. *)
Definition escapeChar (c : ascii) : string :=
  let n := nat_of_ascii c in
  if Nat.eqb n 34 then String "\" (String c EmptyString)
  else if Nat.eqb n 92 then "\\"
  else if Nat.eqb n 8 then "\b"
  else if Nat.eqb n 9 then "\t"
  else if Nat.eqb n 10 then "\n"
  else if Nat.eqb n 12 then "\f"
  else if Nat.eqb n 13 then "\r"
  else if Nat.ltb n 32 then
    "\u00" ++ String (hexDigit (n / 16)) (String (hexDigit (n mod 16)) EmptyString)
  else String c EmptyString.

Fixpoint escape (s : string) : string :=
  match s with
  | EmptyString => EmptyString
  | String c r => escapeChar c ++ escape r
  end.

Definition quote (s : string) : string :=
  String "034" (escape s ++ String "034" EmptyString).

Definition numberToString (n : Z) : string :=
  DecimalString.NilZero.string_of_int (Z.to_int n).

(** [JSON.stringify(value)] without indentation. *)
Fixpoint stringify (j : json) : string :=
  match j with
  | JNull => "null"
  | JBool true => "true"
  | JBool false => "false"
  | JNum n => numberToString n
  | JStr s => quote s
  | JArr items => "[" ++ Str.join "," (map stringify items) ++ "]"
  | JObj fields =>
      "{" ++
      Str.join ","
        (map (fun kv => match kv with
                        | (k, v) => quote k ++ ":" ++ stringify v
                        end) fields) ++
      "}"
  end.

(** [JSON.stringify(value, null, 2)]: [indent] is the current indentation. *)
Fixpoint stringifyIndent (indent : string) (j : json) : string :=
  let inner := indent ++ "  " in
  let nl := String "010" EmptyString in
  match j with
  | JArr [] => "[]"
  | JObj [] => "{}"
  | JArr items =>
      "[" ++ nl ++ inner ++
      Str.join ("," ++ nl ++ inner) (map (stringifyIndent inner) items) ++
      nl ++ indent ++ "]"
  | JObj fields =>
      "{" ++ nl ++ inner ++
      Str.join ("," ++ nl ++ inner)
        (map (fun kv => match kv with
                        | (k, v) => quote k ++ ": " ++ stringifyIndent inner v
                        end) fields) ++
      nl ++ indent ++ "}"
  | _ => stringify j
  end.

(** Property access on a parsed object: [None] when the key is absent. *)
Fixpoint lookup (key : string) (fields : list (string * json)) : option json :=
  match fields with
  | [] => None
  | (k, v) :: rest => if String.eqb k key then Some v else lookup key rest
  end.

(** [value !== null && typeof value === 'object'] *)
Definition isObject (j : json) : bool :=
  match j with
  | JArr _ | JObj _ => true
  | _ => false
  end.

(** [key in value] *)
Definition hasKey (key : string) (j : json) : bool :=
  match j with
  | JObj fields => match lookup key fields with Some _ => true | None => false end
  | _ => false
  end.

(** [value[key]] *)
Definition get (key : string) (j : json) : option json :=
  match j with
  | JObj fields => lookup key fields
  | _ => None
  end.

(** [typeof value[key] === 'string'] *)
Definition isStringAt (key : string) (j : json) : bool :=
  match get key j with
  | Some (JStr _) => true
  | _ => false
  end.

(** [value[key] as string] *)
Definition stringAt (key : string) (j : json) : string :=
  match get key j with
  | Some (JStr s) => s
  | _ => EmptyString
  end.

End JSON.

(** [new Blob([data]).size]: the number of bytes of the text. *)
Fixpoint blobSize (data : string) : N :=
  match data with
  | EmptyString => 0%N
  | String _ r => N.succ (blobSize r)
  end.

(* ================================================================== *)
(** ** [localStorage] *)

(** A stored text is kept by what [JSON.parse] makes of it: [Malformed s]
    is a text [s] that [JSON.parse] rejects with a [SyntaxError] (the empty
    text is one), [Wellformed j] is the text of the JSON value [j]. *)
Inductive Text :=
| Malformed (s : string)
| Wellformed (j : json).

Definition textOf (t : Text) : string :=
  match t with
  | Malformed s => s
  | Wellformed j => JSON.stringify j
  end.

Definition JSON_parse (t : Text) : result json :=
  match t with
  | Malformed s => Throw (SyntaxError s)
  | Wellformed j => Ok j
  end.

(** The origin's storage area: its items, and the space the host grants
    ([None]: unbounded); [setItem] throws a [QuotaExceededError] beyond it. *)
Record Storage := mkStorage {
  items : list (string * Text);
  hostQuota : option N;
}.

Fixpoint assoc (key : string) (l : list (string * Text)) : option Text :=
  match l with
  | [] => None
  | (k, v) :: rest => if String.eqb k key then Some v else assoc key rest
  end.

Fixpoint remove (key : string) (l : list (string * Text)) : list (string * Text) :=
  match l with
  | [] => []
  | (k, v) :: rest =>
      if String.eqb k key then remove key rest else (k, v) :: remove key rest
  end.

Definition getItem (key : string) (st : Storage) : option Text :=
  assoc key (items st).

Definition hostAccepts (st : Storage) (data : string) : bool :=
  match hostQuota st with
  | None => true
  | Some q => N.leb (blobSize data) q
  end.

Definition setItem (key : string) (value : Text) (st : Storage)
  : result unit * Storage :=
  if hostAccepts st (textOf value)
  then (Ok tt, mkStorage ((key, value) :: remove key (items st)) (hostQuota st))
  else (Throw (DOMException "QuotaExceededError"), st).

Definition removeItem (key : string) (st : Storage) : Storage :=
  mkStorage (remove key (items st)) (hostQuota st).

(* ================================================================== *)
(** ** [Array.prototype] helpers *)

Section ArrayOps.
Context {A : Type}.

(** [arr.findIndex(p)], [-1] when no element satisfies [p]. *)
Fixpoint findIndex (p : A -> bool) (arr : list A) : Z :=
  match arr with
  | [] => -1
  | x :: rest =>
      if p x then 0
      else let i := findIndex p rest in if (i <? 0)%Z then -1 else (i + 1)%Z
  end.

(** [arr[i] = v] for an index inside the array. *)
Fixpoint assign (i : nat) (v : A) (arr : list A) : list A :=
  match arr, i with
  | [], _ => []
  | _ :: rest, O => v :: rest
  | x :: rest, S i' => x :: assign i' v rest
  end.

(** [arr.sort(comparefn)].  A comparison that yields NaN ([None]) counts
    as +0, and the sort is stable: an insertion sort that moves an element
    past those it must follow.  (For a comparator that is not consistent
    ECMAScript leaves the order to the engine.) *)
Variable comparefn : A -> A -> option Z.

Definition compared (a b : A) : Z :=
  match comparefn a b with
  | Some v => v
  | None => 0
  end.

Fixpoint insertSorted (x : A) (arr : list A) : list A :=
  match arr with
  | [] => [x]
  | y :: rest =>
      if (0 <? compared x y)%Z then y :: insertSorted x rest else x :: arr
  end.

Definition sort (arr : list A) : list A := fold_right insertSorted [] arr.

End ArrayOps.
(* ================================================================== *)
(** ** utils/storage.ts: class [MemoStorage] *)

Module MemoStorage.

(** A method body: it reads and writes [localStorage] and may throw. *)
Definition M (A : Type) : Type := Storage -> result A * Storage.

Definition ret {A : Type} (a : A) : M A := fun st => (Ok a, st).
Definition throw {A : Type} (e : exn) : M A := fun st => (Throw e, st).
Definition bind {A B : Type} (m : M A) (k : A -> M B) : M B :=
  fun st =>
    match m st with
    | (inl e, st') => (inl e, st')
    | (inr a, st') => k a st'
    end.
(** [try { body } catch (error) { handler }] *)
Definition tryCatch {A : Type} (body : M A) (handler : exn -> M A) : M A :=
  fun st =>
    match body st with
    | (inl e, st') => handler e st'
    | (inr a, st') => (inr a, st')
    end.
Definition lift {A : Type} (r : result A) : M A := fun st => (r, st).

Notation "x <- m ;; k" := (bind m (fun x => k))
  (at level 61, m at next level, right associativity).
Notation "m ;;; k" := (bind m (fun _ => k))
  (at level 61, right associativity).

Definition createStorageError (type : StorageErrorType) (message : string)
  (originalError : option exn) : exn :=
  StorageError type message originalError.

(** [error && typeof error === 'object' && 'type' in error && 'message' in error] *)
Definition isStorageError (e : exn) : bool :=
  match e with
  | StorageError _ _ _ => true
  | _ => false
  end.

Definition isSyntaxError (e : exn) : bool :=
  match e with
  | SyntaxError _ => true
  | _ => false
  end.

Definition isQuotaDOMException (e : exn) : bool :=
  match e with
  | DOMException name => String.eqb name "QuotaExceededError"
  | _ => false
  end.

Definition isValidMemoData (data : json) : bool :=
  JSON.isObject data &&
  JSON.hasKey "id" data &&
  JSON.hasKey "content" data &&
  JSON.hasKey "createdAt" data &&
  JSON.hasKey "updatedAt" data &&
  JSON.isStringAt "id" data &&
  JSON.isStringAt "content" data &&
  JSON.isStringAt "createdAt" data &&
  JSON.isStringAt "updatedAt" data &&
  isValidId (JSON.stringAt "id" data).

(** [(a, b) => b.updatedAt.getTime() - a.updatedAt.getTime()] *)
Definition byUpdatedAtDesc (a b : Memo) : option Z :=
  match getTime (updatedAt b), getTime (updatedAt a) with
  | Some tb, Some ta => Some (tb - ta)%Z
  | _, _ => None
  end.

(** The value [JSON.stringify] serializes for a [Date].  ECMAScript's
    SerializeJSONProperty calls the value's [toJSON] before the replacer
    function, so the replacer of [saveMemos] receives a string or [null],
    never a [Date]; [Date.prototype.toJSON] returns [null] when the time
    value is not finite (Invalid Date) and [toISOString()] otherwise. *)
Definition dateToJson (h : Host) (d : Date) : json :=
  match d with
  | ValidDate ms => JStr (Date_toISOString h ms)
  | InvalidDate => JNull
  end.

Definition memoToJson (h : Host) (m : Memo) : json :=
  JObj [("id", JStr (id m));
        ("content", JStr (content m));
        ("createdAt", dateToJson h (createdAt m));
        ("updatedAt", dateToJson h (updatedAt m))].

Section Methods.
Variable h : Host.

(** The callback of [parsed.map] in [getMemos]. *)
Definition toMemo (item : json) : result Memo :=
  if negb (isValidMemoData item)
  then Throw (Error ("Invalid memo data: " ++ JSON.stringify item))
  else Ok {| id := JSON.stringAt "id" item;
             content := JSON.stringAt "content" item;
             createdAt := Date_parse h (JSON.stringAt "createdAt" item);
             updatedAt := Date_parse h (JSON.stringAt "updatedAt" item) |}.

(** [parsed.map(callback)] with a callback that may throw. *)
Fixpoint mapThrowing (parsed : list json) : result (list Memo) :=
  match parsed with
  | [] => Ok []
  | item :: rest =>
      match toMemo item with
      | inl e => Throw e
      | inr memo =>
          match mapThrowing rest with
          | inl e => Throw e
          | inr memos => Ok (memo :: memos)
          end
      end
  end.

Definition getMemos : M (list Memo) :=
  tryCatch
    (fun st =>
       match getItem STORAGE_KEY st with
       | None => ret [] st
       | Some data =>
           if Str.falsy (textOf data) then ret [] st
           else
             (parsed <- lift (JSON_parse data) ;;
              match parsed with
              | JArr items =>
                  memos <- lift (mapThrowing items) ;;
                  ret (sort byUpdatedAtDesc memos)
              | _ => throw (Error "Invalid data format: expected array")
              end) st
       end)
    (fun error =>
       if isSyntaxError error
       then throw (createStorageError PARSE_ERROR
                     ERROR_MESSAGES.STORAGE_PARSE_ERROR (Some error))
       else throw (createStorageError UNKNOWN
                     ERROR_MESSAGES.UNKNOWN_ERROR (Some error))).

Definition saveMemos (memos : list Memo) : M unit :=
  tryCatch
    (let data := Wellformed (JArr (map (memoToJson h) memos)) in
     let dataSize := blobSize (textOf data) in
     if N.ltb STORAGE_QUOTA_LIMIT dataSize
     then throw (createStorageError QUOTA_EXCEEDED
                   ERROR_MESSAGES.STORAGE_QUOTA_EXCEEDED None)
     else setItem STORAGE_KEY data)
    (fun error =>
       if isQuotaDOMException error
       then throw (createStorageError QUOTA_EXCEEDED
                     ERROR_MESSAGES.STORAGE_QUOTA_EXCEEDED (Some error))
       else throw error).

(** The [catch] clause shared by [saveMemo], [deleteMemo] and [updateMemo]. *)
Definition rethrowOr (message : string) (error : exn) : M unit :=
  if isStorageError error then throw error
  else throw (createStorageError UNKNOWN message (Some error)).

Definition saveMemo (memo : Memo) : M unit :=
  tryCatch
    (memos <- getMemos ;;
     let existingIndex := findIndex (fun m => String.eqb (id m) (id memo)) memos in
     let memos' :=
       if (0 <=? existingIndex)%Z
       then assign (Z.to_nat existingIndex) memo memos
       else (memos ++ [memo])%list in
     saveMemos memos')
    (rethrowOr ERROR_MESSAGES.SAVE_FAILED).

Definition deleteMemo (id' : string) : M unit :=
  tryCatch
    (if negb (isValidId id')
     then throw (createStorageError NOT_FOUND ERROR_MESSAGES.MEMO_NOT_FOUND None)
     else
       memos <- getMemos ;;
       let filteredMemos := filter (fun memo => negb (String.eqb (id memo) id')) memos in
       if Nat.eqb (List.length filteredMemos) (List.length memos)
       then throw (createStorageError NOT_FOUND ERROR_MESSAGES.MEMO_NOT_FOUND None)
       else saveMemos filteredMemos)
    (rethrowOr ERROR_MESSAGES.DELETE_FAILED).

(** [undefined] is [None]. *)
Definition getMemoById (id' : string) : M (option Memo) :=
  tryCatch
    (if negb (isValidId id') then ret None
     else
       memos <- getMemos ;;
       ret (find (fun memo => String.eqb (id memo) id') memos))
    (fun _ => ret None).

(** [updates : Partial<Pick<Memo, 'content'>>]; [now] is what
    [getCurrentDate()] returns. *)
Definition updateMemo (id' : string) (updates : option string) (now : Z) : M unit :=
  tryCatch
    (existingMemo <- getMemoById id' ;;
     match existingMemo with
     | None => throw (createStorageError NOT_FOUND ERROR_MESSAGES.MEMO_NOT_FOUND None)
     | Some existing =>
         let updatedMemo :=
           {| id := id existing;
              content := match updates with
                         | Some c => c
                         | None => content existing
                         end;
              createdAt := createdAt existing;
              updatedAt := ValidDate now |} in
         saveMemo updatedMemo
     end)
    (rethrowOr ERROR_MESSAGES.SAVE_FAILED).

(** [newId] is what [generateId()] returns. *)
Definition createMemo (content' : string) (now : Z) (newId : string) : M Memo :=
  let memo := {| id := newId; content := content';
                 createdAt := ValidDate now; updatedAt := ValidDate now |} in
  saveMemo memo ;;;
  ret memo.

Definition clearAll : M unit :=
  fun st => (Ok tt, removeItem STORAGE_KEY st).

Definition getStorageSize : M N :=
  fun st =>
    match getItem STORAGE_KEY st with
    | None => (Ok 0%N, st)
    | Some data =>
        (Ok (if Str.falsy (textOf data) then 0%N else blobSize (textOf data)), st)
    end.

End Methods.
End MemoStorage.

(* ================================================================== *)
(** ** hooks/useMemos.ts *)

Module UseMemos.

(** The memoised [filteredMemos] for the cache [memos] and [searchQuery];
    [toLowerCase] is the host's. *)
Definition filteredMemos (toLowerCase : list N -> list N)
  (memos : list Memo) (searchQuery : string) : list Memo :=
  if CodeUnits.falsy (CodeUnits.trim (CodeUnits.units searchQuery)) then memos
  else filter (fun memo =>
                 searchInText toLowerCase (CodeUnits.units (content memo))
                   (CodeUnits.units searchQuery) false) memos.

Inductive ExportFormat := json_format | markdown_format.

Definition UNTITLED : string := "無題のメモ".

(** [memo.content.split('\n')[0] || '無題のメモ'] *)
Definition title (memo : Memo) : string :=
  let first := Str.firstLine (content memo) in
  if Str.falsy first then UNTITLED else first.

Definition LF : string := String "010" EmptyString.

(** One memo's block of the Markdown export. *)
Definition markdownSection (h : Host) (memo : Memo) : string :=
  let date := Date_toLocaleDateString h (updatedAt memo) in
  "# " ++ title memo ++ LF ++ LF ++
  content memo ++ LF ++ LF ++
  "*更新日: " ++ date ++ "*" ++ LF ++ LF ++
  "---" ++ LF.

Definition exportMemos (h : Host) (memos : list Memo) (format : ExportFormat) : string :=
  match format with
  | json_format =>
      JSON.stringifyIndent "" (JArr (map (MemoStorage.memoToJson h) memos))
  | markdown_format =>
      Str.join LF (map (markdownSection h) memos)
  end.

End UseMemos.
(* ================================================================== *)
(** ** hooks/useAutoSave.ts *)

Module AutoSave.

Inductive SaveStatus := idle | typing | saving | saved | error.

Definition SaveStatus_eqb (a b : SaveStatus) : bool :=
  match a, b with
  | idle, idle | typing, typing | saving, saving | saved, saved | error, error => true
  | _, _ => false
  end.

(** The [performSave] closure of one render.  It captures the [onSave] and
    [enabled] props of that render; app/page.tsx passes
    [data = currentMemo.content] and an inline [onSave] that commits the
    [currentMemo] of the same render, so [onSave] is kept as the content it
    commits.  An inline [onSave] is a new function at every render, hence
    so is [performSave]. *)
Record Closure := mkClosure {
  payload : string;
  enabled : bool;
}.

(** A pending [setTimeout]: the closure its callback calls, and the delay. *)
Record Timer := mkTimer {
  callback : Closure;
  ms : Z;
}.

Record State := mkState {
  saveStatus : SaveStatus;            (* useState *)
  lastSaved : option Z;               (* useState *)
  debounceTimer : option Timer;       (* the pending timeout of debounceTimer.current *)
  retryCount : nat;                   (* useRef *)
  lastData : string;                  (* useRef *)
  isSaving : bool;                    (* useRef *)
  performSave : Closure;              (* the closure of the latest render *)
  cleanup : bool;                     (* the debounce effect last returned a clean-up *)
  retryTimers : list Timer;           (* pending retry timeouts, in the order they were set *)
  inFlight : list Closure;            (* attempts awaiting [onSave()], in the order they started *)
  committed : list string;            (* the contents [onSave] was invoked with *)
}.

(** What happens to the mounted hook.  Timeouts elapse by their due time
    and promises settle in any order, so any of the pending retry timeouts
    may be the next to fire and any of the pending calls the next to
    settle; an index that names none is no event. *)
Inductive Event :=
| Render (data : string) (enabled : bool)  (* the component renders with these props *)
| DebounceFires                            (* the debounce timeout elapses *)
| RetryFires (i : nat)                     (* the pending retry timeout of index [i] elapses *)
| Settles (i : nat) (ok : bool) (now : Z)  (* the pending [onSave()] of index [i] resolves / rejects *)
| Save                                     (* the caller invokes [save()] *)
| Reset                                    (* the caller invokes [reset()] *)
| BeforeUnload                             (* window 'beforeunload' *)
| Hidden.                                  (* 'visibilitychange' to hidden *)

(** The list without its element of index [i]. *)
Fixpoint removeAt {A : Type} (i : nat) (l : list A) : list A :=
  match l, i with
  | [], _ => []
  | _ :: rest, O => rest
  | x :: rest, S i' => x :: removeAt i' rest
  end.

Section Hook.
Variable delay : Z.
Variable maxRetries : nat.

(** The hook after its first render. *)
Definition mount (data : string) (enabled : bool) : State :=
  {| saveStatus := idle; lastSaved := None; debounceTimer := None;
     retryCount := 0; lastData := data; isSaving := false;
     performSave := mkClosure data enabled; cleanup := false;
     retryTimers := []; inFlight := []; committed := [] |}.

(** [performSave()] up to its [await]: the guard, then [onSave()] is called. *)
Definition callPerformSave (c : Closure) (s : State) : State :=
  if isSaving s || negb (enabled c) then s
  else
    {| saveStatus := saving; lastSaved := lastSaved s;
       debounceTimer := debounceTimer s; retryCount := retryCount s;
       lastData := lastData s; isSaving := true;
       performSave := performSave s; cleanup := cleanup s;
       retryTimers := retryTimers s;
       inFlight := (inFlight s ++ [c])%list;
       committed := (committed s ++ [payload c])%list |}.

(** [Math.min(1000 * Math.pow(2, retryCount - 1), 10000)] *)
Definition retryDelay (retryCount : nat) : Z :=
  Z.min (1000 * 2 ^ (Z.of_nat retryCount - 1)) 10000.

(** [performSave()] after its [await], for the attempt started by [c]. *)
Definition resume (c : Closure) (ok : bool) (now : Z) (s : State) : State :=
  if ok then
    {| saveStatus := saved; lastSaved := Some now;
       debounceTimer := debounceTimer s; retryCount := 0;
       lastData := lastData s; isSaving := false;
       performSave := performSave s; cleanup := cleanup s;
       retryTimers := retryTimers s; inFlight := inFlight s;
       committed := committed s |}
  else if Nat.ltb (retryCount s) maxRetries then
    let retryCount' := S (retryCount s) in
    {| saveStatus := saving; lastSaved := lastSaved s;
       debounceTimer := debounceTimer s; retryCount := retryCount';
       lastData := lastData s; isSaving := false;
       performSave := performSave s; cleanup := cleanup s;
       retryTimers := (retryTimers s ++ [mkTimer c (retryDelay retryCount')])%list;
       inFlight := inFlight s; committed := committed s |}
  else
    {| saveStatus := error; lastSaved := lastSaved s;
       debounceTimer := debounceTimer s; retryCount := 0;
       lastData := lastData s; isSaving := false;
       performSave := performSave s; cleanup := cleanup s;
       retryTimers := retryTimers s; inFlight := inFlight s;
       committed := committed s |}.

Definition setDebounceTimer (t : option Timer) (s : State) : State :=
  {| saveStatus := saveStatus s; lastSaved := lastSaved s;
     debounceTimer := t; retryCount := retryCount s;
     lastData := lastData s; isSaving := isSaving s;
     performSave := performSave s; cleanup := cleanup s;
     retryTimers := retryTimers s; inFlight := inFlight s;
     committed := committed s |}.

(** A render: [performSave] is a new closure, so the debounce effect runs
    again: first the clean-up its previous run returned, then its body. *)
Definition render (data : string) (enabled' : bool) (s : State) : State :=
  let c := mkClosure data enabled' in
  let pending := if cleanup s then None else debounceTimer s in
  if negb enabled' || String.eqb data (lastData s) then
    {| saveStatus := saveStatus s; lastSaved := lastSaved s;
       debounceTimer := pending; retryCount := retryCount s;
       lastData := data; isSaving := isSaving s;
       performSave := c; cleanup := false;
       retryTimers := retryTimers s; inFlight := inFlight s;
       committed := committed s |}
  else
    {| saveStatus := if SaveStatus_eqb (saveStatus s) saving then saving else typing;
       lastSaved := lastSaved s;
       debounceTimer := Some (mkTimer c delay); retryCount := retryCount s;
       lastData := data; isSaving := isSaving s;
       performSave := c; cleanup := true;
       retryTimers := retryTimers s; inFlight := inFlight s;
       committed := committed s |}.

Definition save (s : State) : State :=
  callPerformSave (performSave s) (setDebounceTimer None s).

Definition reset (s : State) : State :=
  {| saveStatus := idle; lastSaved := None;
     debounceTimer := None; retryCount := 0;
     lastData := lastData s; isSaving := false;
     performSave := performSave s; cleanup := cleanup s;
     retryTimers := retryTimers s; inFlight := inFlight s;
     committed := committed s |}.

(** The 'beforeunload' and 'visibilitychange' handlers of the latest render. *)
Definition leaving (s : State) : State :=
  if SaveStatus_eqb (saveStatus s) typing && enabled (performSave s)
  then callPerformSave (performSave s) s
  else s.

Definition step (s : State) (e : Event) : State :=
  match e with
  | Render data enabled' => render data enabled' s
  | DebounceFires =>
      match debounceTimer s with
      | Some t => callPerformSave (callback t) (setDebounceTimer None s)
      | None => s
      end
  | RetryFires i =>
      match nth_error (retryTimers s) i with
      | Some t =>
          callPerformSave (callback t)
            {| saveStatus := saveStatus s; lastSaved := lastSaved s;
               debounceTimer := debounceTimer s; retryCount := retryCount s;
               lastData := lastData s; isSaving := isSaving s;
               performSave := performSave s; cleanup := cleanup s;
               retryTimers := removeAt i (retryTimers s); inFlight := inFlight s;
               committed := committed s |}
      | None => s
      end
  | Settles i ok now =>
      match nth_error (inFlight s) i with
      | Some c =>
          resume c ok now
            {| saveStatus := saveStatus s; lastSaved := lastSaved s;
               debounceTimer := debounceTimer s; retryCount := retryCount s;
               lastData := lastData s; isSaving := isSaving s;
               performSave := performSave s; cleanup := cleanup s;
               retryTimers := retryTimers s; inFlight := removeAt i (inFlight s);
               committed := committed s |}
      | None => s
      end
  | Save => save s
  | Reset => reset s
  | BeforeUnload => leaving s
  | Hidden => leaving s
  end.

Definition run (s : State) (events : list Event) : State :=
  fold_left step events s.

End Hook.

(** An event that is neither an edit (a render whose [data] differs from
    the value [d] last observed) nor a call of [save()]. *)
Definition automatic (d : string) (e : Event) : Prop :=
  match e with
  | Render data _ => data = d
  | Save => False
  | _ => True
  end.

(** What the hook can reach after mounting. *)
Inductive Reachable (delay : Z) (maxRetries : nat) : State -> Prop :=
| reach_mount (data : string) (enabled : bool) :
    Reachable delay maxRetries (mount data enabled)
| reach_step (s : State) (e : Event) :
    Reachable delay maxRetries s ->
    Reachable delay maxRetries (step delay maxRetries s e).

Definition isRender (e : Event) : bool :=
  match e with
  | Render _ _ => true
  | _ => false
  end.

(** A render that is no edit: its [data] is the value [d] last observed. *)
Definition rerenderOf (d : string) (e : Event) : Prop :=
  match e with
  | Render data _ => data = d
  | _ => True
  end.

(** The attempt in flight fails, and so does each of the retries that the
    list [nows] gives a settling time (one timeout and one call are
    pending at a time: index 0). *)
Definition failures (now : Z) (nows : list Z) : list Event :=
  Settles 0 false now :: flat_map (fun t => [RetryFires 0; Settles 0 false t]) nows.

(** An attempt started by the closure [c] is in flight, alone, with a fresh
    retry budget and no edit waiting for the debounce timer. *)
Definition attempting (c : Closure) (s : State) : Prop :=
  inFlight s = [c] /\ isSaving s = true /\ enabled c = true /\
  retryCount s = 0 /\ retryTimers s = [] /\ debounceTimer s = None.

(** The state between two attempts of one retry chain: [k] failures so
    far, the retry of closure [c] pending or in flight. *)
Inductive Chain (c : Closure) (d : string) (log : list string) : nat -> bool -> State -> Prop :=
| chain_in_flight (k : nat) (s : State) :
    inFlight s = [c] -> isSaving s = true -> retryTimers s = [] ->
    retryCount s = k -> debounceTimer s = None -> lastData s = d ->
    committed s = (log ++ repeat (payload c) k)%list ->
    Chain c d log k true s
| chain_waiting (k : nat) (s : State) :
    inFlight s = [] -> isSaving s = false ->
    retryTimers s = [mkTimer c (retryDelay (S k))] ->
    retryCount s = S k -> debounceTimer s = None -> lastData s = d ->
    saveStatus s = saving ->
    committed s = (log ++ repeat (payload c) k)%list ->
    Chain c d log k false s.

(** Nothing pending: no timer, no attempt in flight, and the status is not
    [typing] (so the page-leaving handlers do nothing). *)
Definition atRest (d : string) (s : State) : Prop :=
  inFlight s = [] /\ retryTimers s = [] /\ debounceTimer s = None /\
  lastData s = d /\ saveStatus s <> typing.

(** The first edits of a session of app/page.tsx on a memo of content "x":
    "a" is typed (the status becomes [typing], so the component renders
    again), then "b"; three seconds later the debounce timer fires, and the
    component renders with the status [saving]. *)
Definition typedAndFired : list Event :=
  [Render "a" true; Render "a" true; Render "ab" true; DebounceFires;
   Render "ab" true].

End AutoSave.
(* ================================================================== *)
(** ** The claims of the specification, in its own words *)

Module Claimed.

(** The lines of a text (separated by line feeds). *)
Fixpoint lines (s : string) : list string :=
  match s with
  | EmptyString => [EmptyString]
  | String c r =>
      if Ascii.eqb c "010" then EmptyString :: lines r
      else match lines r with
           | [] => [String c EmptyString]
           | l :: ls => String c l :: ls
           end
  end.

(** "the first non-blank line of content or a fixed placeholder if content
    is blank" *)
Definition heading (placeholder : string) (content : string) : string :=
  match find (fun l => negb (Str.whitespaceOnly l)) (lines content) with
  | Some l => l
  | None => placeholder
  end.

End Claimed.

(** The first line of a text, declaratively: [line] has no line feed, and
    the text is [line] alone or [line] followed by a line feed and more. *)
Definition isFirstLineOf (line text : string) : Prop :=
  Str.includes line UseMemos.LF = false /\
  (text = line \/ exists more, text = line ++ UseMemos.LF ++ more).

(** A collection is ordered by [updatedAt] descending: every memo is at
    least as recent as all that follow it (an Invalid Date compares with
    nothing). *)
Definition notOlder (a b : Memo) : Prop :=
  match getTime (updatedAt a), getTime (updatedAt b) with
  | Some ta, Some tb => (tb <= ta)%Z
  | _, _ => False
  end.

Definition descending (memos : list Memo) : Prop := StronglySorted notOlder memos.

(** The memo's [updatedAt] is a valid date. *)
Definition dated (m : Memo) : Prop := getTime (updatedAt m) <> None.

Definition hasValidDates (m : Memo) : Prop :=
  getTime (createdAt m) <> None /\ getTime (updatedAt m) <> None.

(** The [type] of a thrown [StorageError]. *)
Definition thrownType {A : Type} (r : result A) : option StorageErrorType :=
  match r with
  | inl (StorageError type _ _) => Some type
  | _ => None
  end.

(* ================================================================== *)
(** ** A host and stores for the examples *)

Module Sample.

(** A host whose date texts are decimal time values. *)
Definition host : Host :=
  {| Date_parse := fun text =>
       match DecimalString.NilZero.int_of_string text with
       | Some d => ValidDate (Z.of_int d)
       | None => InvalidDate
       end;
     Date_toISOString := JSON.numberToString;
     Date_toLocaleDateString := fun d =>
       match d with
       | ValidDate ms => JSON.numberToString ms
       | InvalidDate => "Invalid Date"
       end |}.

(** A case mapping for the examples: that of the letters A-Z and of the
    Latin-1 capitals U+00C0 to U+00DE. *)
Definition toLowerCase (s : list N) : list N :=
  map (fun c => if ((65 <=? c) && (c <=? 90) ||
                    (192 <=? c) && (c <=? 222) && negb (c =? 215))%N
                then (c + 32)%N else c) s.

Definition idA : string := "550e8400-e29b-41d4-a716-446655440000".
Definition idB : string := "550e8400-e29b-41d4-a716-446655440001".
Definition idC : string := "550e8400-e29b-41d4-a716-446655440002".

Definition record (id content createdAt updatedAt : string) : json :=
  JObj [("id", JStr id); ("content", JStr content);
        ("createdAt", JStr createdAt); ("updatedAt", JStr updatedAt)].

Definition storeOf (records : list json) : Storage :=
  mkStorage [(STORAGE_KEY, Wellformed (JArr records))] None.

End Sample.

Module SampleStores.
Import Sample.

(** Two memos with valid timestamps. *)
Definition two : Storage :=
  storeOf [record idA "a" "1" "10"; record idB "b" "2" "5"].

(** The same, the first with a [createdAt] text that is not a date. *)
Definition undated : Storage :=
  storeOf [record idA "a" "not a date" "10"; record idB "b" "2" "5"].

(** One memo, in a storage area to which the host grants 100 bytes. *)
Definition full : Storage :=
  mkStorage [(STORAGE_KEY, Wellformed (JArr [record idA "a" "1" "10"]))]
            (Some 100%N).

End SampleStores.
(* ================================================================== *)
(** ** Vocabulary of the statements about updates *)

(** [memo] with its [updatedAt] set to the time [now]. *)
Definition touch (id' : string) (now : Z) (memo : Memo) : Memo :=
  if String.eqb (id memo) id'
  then {| id := id memo; content := content memo;
          createdAt := createdAt memo; updatedAt := ValidDate now |}
  else memo.

Definition hasId (id' : string) (memo : Memo) : bool := String.eqb (id memo) id'.

Definition hasValidDatesb (m : Memo) : bool :=
  match getTime (createdAt m), getTime (updatedAt m) with
  | Some _, Some _ => true
  | _, _ => false
  end.

(** The text [saveMemos] writes for [memos], and the storage after it. *)
Definition written (h : Host) (memos : list Memo) : Text :=
  Wellformed (JArr (map (MemoStorage.memoToJson h) memos)).

Definition stored (h : Host) (memos : list Memo) (st : Storage) : Storage :=
  mkStorage ((STORAGE_KEY, written h memos) :: remove STORAGE_KEY (items st))
            (hostQuota st).

(** The memo [updateMemo] builds from the existing one. *)
Definition patched (existing : Memo) (updates : option string) (now : Z) : Memo :=
  {| id := id existing;
     content := match updates with
                | Some c => c
                | None => content existing
                end;
     createdAt := createdAt existing;
     updatedAt := ValidDate now |}.

Definition notFound : exn :=
  StorageError NOT_FOUND ERROR_MESSAGES.MEMO_NOT_FOUND None.

(* ================================================================== *)
(** ** Vocabulary of the statements about errors and writes *)

(** A call returns, or throws a [StorageError] whose type is one of [kinds]. *)
Definition throwsOnly {A : Type} (kinds : list StorageErrorType) (r : result A) : Prop :=
  match r with
  | inl (StorageError type _ _) => In type kinds
  | inl _ => False
  | inr _ => True
  end.

(** A call that throws has written nothing. *)
Definition rollsBack {A : Type} (st : Storage) (outcome : result A * Storage) : Prop :=
  match outcome with
  | (inl _, st') => st' = st
  | (inr _, _) => True
  end.

(** What a call that returns has stored is a collection within the quota. *)
Definition writesWithinQuota {A : Type} (h : Host) (st : Storage)
  (outcome : result A * Storage) : Prop :=
  match outcome with
  | (inr _, st') =>
      exists memos,
        st' = stored h memos st /\
        (blobSize (textOf (written h memos)) <= STORAGE_QUOTA_LIMIT)%N
  | (inl _, _) => True
  end.


(* ================================================================== *)
(** ** More host string primitives *)

Module StrOps.

(** Every code unit of [s] satisfies [p]. *)
Fixpoint all (p : ascii -> bool) (s : string) : bool :=
  match s with
  | EmptyString => true
  | String c r => p c && all p r
  end.

(** [s.replace(/c/g, by)] for one literal character [c]. *)
Fixpoint replaceChar (c : ascii) (by' : string) (s : string) : string :=
  match s with
  | EmptyString => EmptyString
  | String a r =>
      (if Ascii.eqb a c then by' else String a EmptyString) ++ replaceChar c by' r
  end.

End StrOps.

(* ================================================================== *)
(** ** Numbers

    The numbers that the code compares with a length or cuts a string at.
    A finite double is a rational number. *)

Module Number.

Inductive t := NaN | Infinity | NegInfinity | Finite (q : Q).

Definition ofZ (z : Z) : t := Finite (inject_Z z).

(** [x <= n] for an integer [x]; a comparison with NaN is false. *)
Definition leZ (x : Z) (n : t) : bool :=
  match n with
  | NaN => false
  | Infinity => true
  | NegInfinity => false
  | Finite q => Qle_bool (inject_Z x) q
  end.

(** The integral part of a finite number: rounding towards zero. *)
Definition truncate (q : Q) : Z :=
  if Qle_bool (inject_Z 0) q then Qfloor q else Qceiling q.

(** [ToIntegerOrInfinity(n)], as an index into a string of [len] code
    units: NaN counts as 0, and an infinity as the end it lies beyond
    (where [substring] brings every index that is out of range). *)
Definition toIndex (n : t) (len : nat) : Z :=
  match n with
  | NaN => 0
  | Infinity => Z.of_nat len
  | NegInfinity => 0
  | Finite q => truncate q
  end.

End Number.

(* ================================================================== *)
(** ** utils/textUtils.ts, continued

    The texts are code units; a [maxLength] is any number. *)

Definition MEMO_TITLE_MAX_LENGTH : Number.t := Number.ofZ 20.
Definition MEMO_PREVIEW_MAX_LENGTH : Number.t := Number.ofZ 50.

(** The three dots appended to a text that was cut. *)
Definition ELLIPSIS : list N := CodeUnits.units "...".

Definition isEmpty (text : list N) : bool :=
  CodeUnits.falsy text || CodeUnits.eqb (CodeUnits.trim text) [].

(** [s.substring(0, n)] *)
Definition substringTo (n : Number.t) (s : list N) : list N :=
  CodeUnits.substring 0 (Number.toIndex n (List.length s)) s.

Definition extractTitle (content' : list N) (maxLength : Number.t) : list N :=
  if CodeUnits.falsy content' || CodeUnits.eqb (CodeUnits.trim content') []
  then CodeUnits.units DEFAULT_MEMO_TITLE
  else
    let firstLine := CodeUnits.trim (CodeUnits.firstLine content') in
    if CodeUnits.eqb firstLine [] then CodeUnits.units DEFAULT_MEMO_TITLE
    else if Number.leZ (Z.of_nat (List.length firstLine)) maxLength then firstLine
    else (substringTo maxLength firstLine ++ ELLIPSIS)%list.

Definition generatePreview (content' : list N) (maxLength : Number.t) : list N :=
  if CodeUnits.falsy content' || CodeUnits.eqb (CodeUnits.trim content') []
  then []
  else
    let cleanContent := CodeUnits.trim (CodeUnits.collapseWhiteSpace content') in
    if Number.leZ (Z.of_nat (List.length cleanContent)) maxLength then cleanContent
    else (substringTo maxLength cleanContent ++ ELLIPSIS)%list.

(** [sanitizeString] replaces characters of the ASCII range by ASCII texts:
    it is given on the UTF-8 form, where it does the same. *)
Definition sanitizeString (str : string) : string :=
  if Str.falsy str then ""
  else
    StrOps.replaceChar "'" "&#x27;"
      (StrOps.replaceChar "034" "&quot;"
         (StrOps.replaceChar ">" "&gt;"
            (StrOps.replaceChar "<" "&lt;"
               (StrOps.replaceChar "&" "&amp;" str)))).

(* ================================================================== *)
(** ** utils/idUtils.ts, continued *)

(** The id as code units; [length] is any number. *)
Definition shortenId (id' : list N) (length : Number.t) : list N :=
  substringTo length id'.

(* ================================================================== *)
(** ** utils/dateUtils.ts *)

Module DateUtils.

(** The numbers of [formatRelativeTime]: integers, or NaN ([None]). *)
Definition lessThan (x : option Z) (bound : Z) : bool :=
  match x with
  | Some v => (v <? bound)%Z
  | None => false
  end.

(** [Math.floor(x / d)] *)
Definition floorDiv (x : option Z) (d : Z) : option Z :=
  option_map (fun v => (v / d)%Z) x.

(** The number inside a template literal. *)
Definition numberText (x : option Z) : string :=
  match x with
  | Some v => JSON.numberToString v
  | None => "NaN"
  end.

(** [x === 1] *)
Definition isOne (x : option Z) : bool :=
  match x with
  | Some v => (v =? 1)%Z
  | None => false
  end.

(** [`${n} ${unit}${n === 1 ? '' : 's'} ago`] *)
Definition ago (n : option Z) (unit' : string) : string :=
  numberText n ++ " " ++ unit' ++ (if isOne n then "" else "s") ++ " ago".

(** The time value of a [Date] that is not invalid: an integer number of
    milliseconds, at most 8.64e15 from the epoch. *)
Definition isTimeValue (t : Z) : Prop := (Z.abs t <= 8640000000000000)%Z.

(** [now] is the time value of [new Date()].  The code computes with
    doubles; while [now] and the date are at most 2^53 ms apart every
    intermediate value is exact or rounds to the same integer part, and
    the integers below give the same result. *)
Definition formatRelativeTime (now : Z) (date : Date) : string :=
  let diffInSeconds :=
    floorDiv (option_map (fun t => (now - t)%Z) (getTime date)) 1000 in
  if lessThan diffInSeconds 0 then "Just now"
  else if lessThan diffInSeconds 60 then "Just now"
  else if lessThan diffInSeconds 3600 then ago (floorDiv diffInSeconds 60) "minute"
  else if lessThan diffInSeconds 86400 then ago (floorDiv diffInSeconds 3600) "hour"
  else if lessThan diffInSeconds 2592000 then ago (floorDiv diffInSeconds 86400) "day"
  else if lessThan diffInSeconds 31536000
  then ago (floorDiv diffInSeconds 2592000) "month"
  else ago (floorDiv diffInSeconds 31536000) "year".

(** The units of the relative time and their lengths in seconds. *)
Definition units : list (string * Z) :=
  [("minute", 60); ("hour", 3600); ("day", 86400); ("month", 2592000);
   ("year", 31536000)]%Z.

End DateUtils.

(* ================================================================== *)
(** ** hooks/useMemos.ts: the state of the hook and its operations

    The storage calls are synchronous, so each operation is one step from
    the state of the render that created the callback to the state after
    its updates; a rejected promise is a thrown exception. *)

Module MemosHook.

Record State := mkState {
  memos : list Memo;
  currentMemo : option Memo;
  isLoading : bool;
  saveStatus : AutoSave.SaveStatus;
  searchQuery : string;
}.

Definition initial : State :=
  {| memos := []; currentMemo := None; isLoading := true;
     saveStatus := AutoSave.idle; searchQuery := "" |}.

Definition setSaveStatus (status : AutoSave.SaveStatus) (s : State) : State :=
  {| memos := memos s; currentMemo := currentMemo s; isLoading := isLoading s;
     saveStatus := status; searchQuery := searchQuery s |}.

Definition currentHasId (id' : string) (s : State) : bool :=
  match currentMemo s with
  | Some memo => String.eqb (id memo) id'
  | None => false
  end.

Section Operations.
Variable h : Host.

(** The effect that runs once after the first render. *)
Definition loadMemos (s : State) (st : Storage) : State * Storage :=
  match MemoStorage.getMemos h st with
  | (inr loadedMemos, st') =>
      ({| memos := loadedMemos; currentMemo := currentMemo s; isLoading := false;
          saveStatus := saveStatus s; searchQuery := searchQuery s |}, st')
  | (inl _, st') =>
      ({| memos := memos s; currentMemo := currentMemo s; isLoading := false;
          saveStatus := AutoSave.error; searchQuery := searchQuery s |}, st')
  end.

Definition createMemo (content' : string) (now : Z) (newId : string)
  (s : State) (st : Storage) : result Memo * State * Storage :=
  match MemoStorage.createMemo h content' now newId st with
  | (inr newMemo, st') =>
      (Ok newMemo,
       {| memos := newMemo :: memos s; currentMemo := Some newMemo;
          isLoading := isLoading s; saveStatus := AutoSave.saved;
          searchQuery := searchQuery s |}, st')
  | (inl error, st') => (Throw error, setSaveStatus AutoSave.error s, st')
  end.

(** [{ ...memo, content, updatedAt: new Date() }], the clock reading [t]. *)
Definition edited (content' : string) (t : Z) (memo : Memo) : Memo :=
  {| id := id memo; content := content'; createdAt := createdAt memo;
     updatedAt := ValidDate t |}.

(** The [map] of [updateMemo] over the cache from index [i] on;
    [clock i] is the reading of [new Date()] at the element of index [i]. *)
Fixpoint editAll (id' content' : string) (clock : nat -> Z) (i : nat)
  (prevMemos : list Memo) : list Memo :=
  match prevMemos with
  | [] => []
  | memo :: rest =>
      (if String.eqb (id memo) id' then edited content' (clock i) memo else memo)
      :: editAll id' content' clock (S i) rest
  end.

(** [now] is the clock reading of the storage call, [clock] those of the
    update of the cache and [now'] that of the update of [currentMemo]. *)
Definition updateMemo (id' content' : string) (now : Z) (clock : nat -> Z) (now' : Z)
  (s : State) (st : Storage) : result unit * State * Storage :=
  match MemoStorage.updateMemo h id' (Some content') now st with
  | (inr _, st') =>
      (Ok tt,
       {| memos := editAll id' content' clock 0 (memos s);
          currentMemo :=
            if currentHasId id' s
            then option_map (edited content' now') (currentMemo s)
            else currentMemo s;
          isLoading := isLoading s; saveStatus := AutoSave.saved;
          searchQuery := searchQuery s |}, st')
  | (inl error, st') => (Throw error, setSaveStatus AutoSave.error s, st')
  end.

Definition deleteMemo (id' : string) (s : State) (st : Storage)
  : result unit * State * Storage :=
  match MemoStorage.deleteMemo h id' st with
  | (inr _, st') =>
      (Ok tt,
       {| memos := filter (fun memo => negb (String.eqb (id memo) id')) (memos s);
          currentMemo := if currentHasId id' s then None else currentMemo s;
          isLoading := isLoading s; saveStatus := AutoSave.saved;
          searchQuery := searchQuery s |}, st')
  | (inl error, st') => (Throw error, setSaveStatus AutoSave.error s, st')
  end.

Definition getMemoById (id' : string) (s : State) : option Memo :=
  find (fun memo => String.eqb (id memo) id') (memos s).

End Operations.
End MemosHook.

(* ================================================================== *)
(** ** Vocabulary of the statements about the utilities and the hooks *)

(** The character reference that stands for a character in HTML text: the
    five characters that [sanitizeString] replaces, and any other as
    itself. *)
Definition htmlEntity (c : ascii) : string :=
  if Ascii.eqb c "&" then "&amp;"
  else if Ascii.eqb c "<" then "&lt;"
  else if Ascii.eqb c ">" then "&gt;"
  else if Ascii.eqb c "034" then "&quot;"
  else if Ascii.eqb c "'" then "&#x27;"
  else String c EmptyString.

Fixpoint escapeHtml (s : string) : string :=
  match s with
  | EmptyString => EmptyString
  | String c r => htmlEntity c ++ escapeHtml r
  end.

(** A character that opens or closes a tag or an attribute value. *)
Definition isMarkup (c : ascii) : bool :=
  Ascii.eqb c "<" || Ascii.eqb c ">" || Ascii.eqb c "034" || Ascii.eqb c "'".

(** White space other than the space character. *)
Definition isLineBreakOrTab (c : N) : bool :=
  CodeUnits.isWhiteSpace c && negb (c =? 32)%N.

(** A byte of the ASCII range. *)
Definition isAsciiByte (c : ascii) : bool := (N_of_ascii c <? 128)%N.

(** The cache of the hook is what the store lists. *)
Definition coherent (h : Host) (st : Storage) (s : MemosHook.State) : Prop :=
  fst (MemoStorage.getMemos h st) = inr (MemosHook.memos s).

(** A memo without its [updatedAt]. *)
Definition withoutUpdatedAt (m : Memo) : string * string * Date :=
  (id m, content m, createdAt m).

(** Every stored memo was last updated before the time [now]. *)
Definition allOlderThan (now : Z) (memos : list Memo) : Prop :=
  Forall (fun m => exists t, getTime (updatedAt m) = Some t /\ (t < now)%Z) memos.

(** Every render of the session has [enabled = false]. *)
Definition rendersDisabled (e : AutoSave.Event) : Prop :=
  match e with
  | AutoSave.Render _ enabled' => enabled' = false
  | _ => True
  end.

Definition notReset (e : AutoSave.Event) : Prop :=
  match e with
  | AutoSave.Reset => False
  | _ => True
  end.

(* ================================================================== *)
(** ** hooks/useMemos.ts: the debounced search query

    [setSearchQuery] and [clearSearch] are the callbacks of the latest
    render.  [searchDebounceTimer] is kept as the query that the pending
    timeout will set ([None]: no timeout is pending). *)

Module SearchDebounce.

Record State := mkState {
  searchQuery : string;
  searchDebounceTimer : option string;
}.

Inductive Event :=
| SetSearchQuery (query : string)   (* the caller invokes [setSearchQuery(query)] *)
| ClearSearch                       (* the caller invokes [clearSearch()] *)
| TimerFires.                       (* SEARCH_DEBOUNCE_DELAY has elapsed *)

Definition step (s : State) (e : Event) : State :=
  match e with
  | SetSearchQuery query =>
      {| searchQuery := searchQuery s; searchDebounceTimer := Some query |}
  | ClearSearch => {| searchQuery := ""; searchDebounceTimer := None |}
  | TimerFires =>
      match searchDebounceTimer s with
      | Some query => {| searchQuery := query; searchDebounceTimer := None |}
      | None => s
      end
  end.

Definition run (s : State) (events : list Event) : State :=
  fold_left step events s.

End SearchDebounce.

(* ================================================================== *)
(** ** app/page.tsx: the status shown *)

Module Page.

(** The string of a [SaveStatus]. *)
Definition statusText (status : AutoSave.SaveStatus) : string :=
  match status with
  | AutoSave.idle => "idle"
  | AutoSave.typing => "typing"
  | AutoSave.saving => "saving"
  | AutoSave.saved => "saved"
  | AutoSave.error => "error"
  end.

(** [autoSaveStatus || saveStatus] *)
Definition currentSaveStatus (autoSaveStatus saveStatus : AutoSave.SaveStatus)
  : AutoSave.SaveStatus :=
  if Str.falsy (statusText autoSaveStatus) then saveStatus else autoSaveStatus.

(** The props that [Home] passes to [useAutoSave]:
    [data: currentMemo?.content || ''] and [enabled: !!currentMemo]. *)
Definition autoSaveData (currentMemo : option Memo) : string :=
  match currentMemo with
  | Some memo => if Str.falsy (content memo) then "" else content memo
  | None => ""
  end.

Definition autoSaveEnabled (currentMemo : option Memo) : bool :=
  match currentMemo with
  | Some _ => true
  | None => false
  end.

End Page.

(* ================================================================== *)
(** ** Lemmas on the code-unit primitives *)

Section CodeUnitFacts.
Import CodeUnits.

Lemma falsy_spec (s : list N) : falsy s = true <-> s = [].
Proof. destruct s; simpl; split; congruence. Qed.

Lemma eqb_nil (s : list N) : eqb s [] = true <-> s = [].
Proof. destruct s; simpl; split; congruence. Qed.

Lemma trimStart_whitespaceOnly (s : list N) :
  whitespaceOnly s = true -> trimStart s = [].
Proof.
  induction s as [|c r IH]; simpl; [reflexivity|].
  intros H. apply andb_true_iff in H as [Hc Hr]. rewrite Hc. auto.
Qed.

Lemma trimEnd_empty (s : list N) :
  trimEnd s = [] <-> whitespaceOnly s = true.
Proof.
  induction s as [|c r IH]; simpl; [tauto|].
  destruct (trimEnd r) eqn:E.
  - destruct (isWhiteSpace c); simpl.
    + rewrite <- IH. tauto.
    + split; congruence.
  - split; [congruence|].
    intros H. apply andb_true_iff in H as [_ Hr].
    apply IH in Hr. congruence.
Qed.

Lemma trimStart_suffix_whitespace (s : list N) :
  whitespaceOnly (trimStart s) = true -> whitespaceOnly s = true.
Proof.
  induction s as [|c r IH]; simpl; [reflexivity|].
  destruct (isWhiteSpace c) eqn:E; simpl; [exact IH|].
  rewrite E. simpl. congruence.
Qed.

Lemma trim_empty (s : list N) :
  trim s = [] <-> whitespaceOnly s = true.
Proof.
  unfold trim. rewrite trimEnd_empty. split.
  - apply trimStart_suffix_whitespace.
  - intros H. rewrite (trimStart_whitespaceOnly _ H). reflexivity.
Qed.

Lemma startsWith_spec (s q : list N) :
  startsWith s q = true <-> exists post, s = (q ++ post)%list.
Proof.
  revert s. induction q as [|b q IH]; intros s; simpl.
  - split; [intros _; now exists s | reflexivity].
  - destruct s as [|a s]; simpl.
    + split; [discriminate | intros [post H]; discriminate].
    + rewrite andb_true_iff, IH, N.eqb_eq. split.
      * intros [-> [post ->]]. now exists post.
      * intros [post H]. injection H as -> ->. split; [reflexivity | now exists post].
Qed.

Lemma includes_spec (s q : list N) :
  includes s q = true <-> exists pre post, s = (pre ++ q ++ post)%list.
Proof.
  induction s as [|a s IH]; simpl.
  - rewrite orb_false_r, startsWith_spec. split.
    + intros [post H]. now exists [], post.
    + intros [pre [post H]]. destruct pre; simpl in H; [now exists post | discriminate].
  - rewrite orb_true_iff, IH.
    change (startsWith (a :: s) q = true \/
            (exists pre post, s = (pre ++ q ++ post)%list)
            <-> exists pre post, a :: s = (pre ++ q ++ post)%list).
    rewrite startsWith_spec. split.
    + intros [[post H] | [pre [post H]]].
      * now exists [], post.
      * exists (a :: pre), post. simpl. now rewrite H.
    + intros [pre [post H]]. destruct pre as [|p pre]; simpl in H.
      * left. now exists post.
      * right. injection H as _ H. now exists pre, post.
Qed.

End CodeUnitFacts.

(* ================================================================== *)
(** ** utils/textUtils.ts: [searchInText] *)

Lemma searchInText_blank (toLowerCase : list N -> list N) (text query : list N) :
  CodeUnits.whitespaceOnly query = true ->
  searchInText toLowerCase text query false = true.
Proof.
  intros H. unfold searchInText. apply trim_empty in H. rewrite H.
  now rewrite orb_true_r.
Qed.

(** C6. [searchInText text query false] (the matcher [filteredMemos] uses)
    is true exactly when the query is empty or white space only, or the
    lower-case form of [text] contains the lower-case form of [query] as a
    plain substring.  The lower-case forms are those of the host's
    [toLowerCase], of which only this is used: it maps the empty string,
    and no other, to the empty string. *)
Theorem searchInText_matches (toLowerCase : list N -> list N)
        (text query : list N) :
  (forall s, toLowerCase s = [] <-> s = []) ->
  (searchInText toLowerCase text query false = true <->
   (CodeUnits.whitespaceOnly query = true \/
    exists pre post,
      toLowerCase text = (pre ++ toLowerCase query ++ post)%list)).
Proof.
  intros Hlower. unfold searchInText.
  destruct (CodeUnits.falsy query || CodeUnits.eqb (CodeUnits.trim query) [])
    eqn:Hblank.
  - split; [intros _ | reflexivity]. left.
    apply orb_true_iff in Hblank as [H | H].
    + apply falsy_spec in H. subst. reflexivity.
    + apply eqb_nil in H. now apply trim_empty.
  - apply orb_false_iff in Hblank as [Hq Ht].
    assert (Hnb : CodeUnits.whitespaceOnly query <> true).
    { intros H. apply trim_empty in H. rewrite H in Ht. discriminate. }
    assert (Hne : toLowerCase query <> []).
    { intros H. apply (proj1 (Hlower query)) in H. subst query. discriminate. }
    destruct (CodeUnits.falsy text) eqn:Htext.
    + apply falsy_spec in Htext. subst text. split; [discriminate|].
      intros [H | [pre [post H]]]; [contradiction|].
      rewrite (proj2 (Hlower []) eq_refl) in H. symmetry in H.
      apply app_eq_nil in H as [_ H]. apply app_eq_nil in H as [H _].
      contradiction.
    + rewrite includes_spec. split; [now right|].
      intros [H | H]; [contradiction | exact H].
Qed.

Lemma sample_toLowerCase_empty (s : list N) :
  Sample.toLowerCase s = [] <-> s = [].
Proof. destruct s; simpl; split; congruence. Qed.

(** An instance: a query in another case than the text. *)
Lemma searchInText_matches_witness :
  searchInText Sample.toLowerCase (CodeUnits.units "Hello World")
    (CodeUnits.units "hello") false = true <->
  (CodeUnits.whitespaceOnly (CodeUnits.units "hello") = true \/
   exists pre post,
     Sample.toLowerCase (CodeUnits.units "Hello World") =
     (pre ++ Sample.toLowerCase (CodeUnits.units "hello") ++ post)%list).
Proof.
  apply (searchInText_matches Sample.toLowerCase (CodeUnits.units "Hello World")
           (CodeUnits.units "hello")).
  exact sample_toLowerCase_empty.
Defined.

(** The examples of the specification. *)
Example searchInText_empty_query :
  searchInText Sample.toLowerCase (CodeUnits.units "Hello") [] false = true.
Proof. reflexivity. Qed.

Example searchInText_hello :
  searchInText Sample.toLowerCase (CodeUnits.units "Hello World")
    (CodeUnits.units "hello") false = true.
Proof. reflexivity. Qed.

Example searchInText_xyz :
  searchInText Sample.toLowerCase (CodeUnits.units "Hello")
    (CodeUnits.units "xyz") false = false.
Proof. reflexivity. Qed.

(** Beyond the ASCII range: a query that is one ideographic space
    (U+3000) is blank, and the case of a letter with an accent does not
    matter. *)
Example searchInText_ideographic_space :
  searchInText Sample.toLowerCase (CodeUnits.units "abc") [12288%N] false = true.
Proof. reflexivity. Qed.

Example searchInText_accent :
  CodeUnits.units "CAFÉ" = [67; 65; 70; 201]%N /\
  searchInText Sample.toLowerCase (CodeUnits.units "CAFÉ")
    (CodeUnits.units "café") false = true.
Proof. split; reflexivity. Qed.

(** [filteredMemos] keeps exactly the memos whose content matches. *)
Lemma filteredMemos_filter (toLowerCase : list N -> list N)
      (memos : list Memo) (searchQuery : string) :
  UseMemos.filteredMemos toLowerCase memos searchQuery =
  filter (fun memo =>
            searchInText toLowerCase (CodeUnits.units (content memo))
              (CodeUnits.units searchQuery) false) memos.
Proof.
  unfold UseMemos.filteredMemos.
  destruct (CodeUnits.falsy (CodeUnits.trim (CodeUnits.units searchQuery))) eqn:E;
    [|reflexivity].
  apply falsy_spec in E.
  assert (Hall : forall text,
             searchInText toLowerCase text (CodeUnits.units searchQuery) false = true).
  { intros text. apply searchInText_blank. now apply trim_empty. }
  induction memos as [|m rest IH]; simpl; [reflexivity|].
  now rewrite Hall, <- IH.
Qed.

(* ================================================================== *)
(** ** utils/storage.ts: reading *)

Section Reading.
Variable h : Host.

Import MemoStorage.

Lemma toMemo_throws (item : json) (e : exn) :
  toMemo h item = inl e -> isValidMemoData item = false /\ isSyntaxError e = false.
Proof.
  unfold toMemo. destruct (isValidMemoData item); simpl; [discriminate|].
  intros H. injection H as <-. auto.
Qed.

Lemma toMemo_valid (item : json) :
  isValidMemoData item = true -> exists m, toMemo h item = inr m.
Proof. unfold toMemo. intros ->. simpl. eauto. Qed.

Lemma mapThrowing_throws (items : list json) (e : exn) :
  mapThrowing h items = inl e -> isSyntaxError e = false.
Proof.
  revert e. induction items as [|item rest IH]; simpl; intros e; [discriminate|].
  destruct (toMemo h item) as [e1|m] eqn:E1.
  - intros H. injection H as <-. now apply toMemo_throws in E1.
  - destruct (mapThrowing h rest) as [e2|ms]; [|discriminate].
    intros H. injection H as <-. now apply IH.
Qed.

(** One record that fails validation makes the whole map throw. *)
Lemma mapThrowing_invalid (items : list json) :
  existsb (fun item => negb (isValidMemoData item)) items = true ->
  exists e, mapThrowing h items = inl e.
Proof.
  induction items as [|item rest IH]; simpl; [discriminate|].
  intros H. apply orb_true_iff in H as [H | H].
  - unfold toMemo. rewrite H. simpl. eauto.
  - destruct (toMemo h item); [eauto|].
    destruct (IH H) as [e ->]. eauto.
Qed.

Lemma mapThrowing_all_valid (items : list json) :
  forallb isValidMemoData items = true ->
  exists memos, mapThrowing h items = inr memos.
Proof.
  induction items as [|item rest IH]; simpl; [eauto|].
  intros H. apply andb_true_iff in H as [H1 H2].
  destruct (toMemo_valid _ H1) as [m ->].
  destruct (IH H2) as [ms ->]. simpl. eauto.
Qed.

Lemma stringify_array_nonempty (items : list json) :
  Str.falsy (textOf (Wellformed (JArr items))) = false.
Proof. reflexivity. Qed.

(** What [getMemos] does on a stored JSON array. *)
Lemma getMemos_array (st : Storage) (items : list json) :
  getItem STORAGE_KEY st = Some (Wellformed (JArr items)) ->
  getMemos h st =
  (match mapThrowing h items with
   | inl e => Throw (StorageError UNKNOWN ERROR_MESSAGES.UNKNOWN_ERROR (Some e))
   | inr memos => Ok (sort byUpdatedAtDesc memos)
   end, st).
Proof.
  intros Hget. unfold getMemos, tryCatch. rewrite Hget, stringify_array_nonempty.
  unfold bind, lift, JSON_parse, Ok.
  destruct (mapThrowing h items) as [e|memos] eqn:E; simpl.
  - rewrite (mapThrowing_throws _ _ E). reflexivity.
  - reflexivity.
Qed.

(** [getMemos] never writes. *)
Lemma getMemos_state (st : Storage) : snd (getMemos h st) = st.
Proof.
  unfold getMemos, tryCatch.
  destruct (getItem STORAGE_KEY st) as [data|]; [|reflexivity].
  destruct (Str.falsy (textOf data)); [reflexivity|].
  unfold bind, lift. destruct data as [s|j]; simpl; [reflexivity|].
  destruct j as [| b | n | s | arr | fs]; simpl; try reflexivity.
  destruct (mapThrowing h arr) as [e|memos]; simpl; [|reflexivity].
  destruct (isSyntaxError e); reflexivity.
Qed.

(** A successful read comes from a stored array of valid records. *)
Lemma getMemos_ok_inv (st : Storage) (memos : list Memo) :
  fst (getMemos h st) = inr memos ->
  memos = [] \/
  exists items parsed,
    getItem STORAGE_KEY st = Some (Wellformed (JArr items)) /\
    mapThrowing h items = inr parsed /\
    memos = sort byUpdatedAtDesc parsed.
Proof.
  unfold getMemos, tryCatch.
  destruct (getItem STORAGE_KEY st) as [data|] eqn:Hget; simpl.
  2:{ intros H. injection H as <-. now left. }
  destruct (Str.falsy (textOf data)); simpl.
  { intros H. injection H as <-. now left. }
  unfold bind, lift. destruct data as [s|j]; simpl; [discriminate|].
  destruct j as [| b | n | s | arr | fs]; simpl; try discriminate.
  destruct (mapThrowing h arr) as [e|parsed] eqn:E; simpl.
  - destruct (isSyntaxError e); discriminate.
  - intros H. injection H as <-. right. eauto.
Qed.

(** C1 (as the code has it).  When the stored value is a sequence with at
    least one element that fails per-record validation, [getMemos] fails
    for the whole read, with a [StorageError] of type [UNKNOWN] wrapping
    the validation error; [PARSE_ERROR] is what a stored text that is not
    JSON gives. *)
Theorem getMemos_invalid_record_unknown (st : Storage) (items : list json) :
  getItem STORAGE_KEY st = Some (Wellformed (JArr items)) ->
  existsb (fun item => negb (isValidMemoData item)) items = true ->
  (exists cause,
     getMemos h st =
     (Throw (StorageError UNKNOWN ERROR_MESSAGES.UNKNOWN_ERROR (Some (Error cause))), st)) /\
  (forall st' text,
     getItem STORAGE_KEY st' = Some (Malformed text) -> text <> "" ->
     getMemos h st' =
     (Throw (StorageError PARSE_ERROR ERROR_MESSAGES.STORAGE_PARSE_ERROR
               (Some (SyntaxError text))), st')).
Proof.
  intros Hget Hbad. split.
  - rewrite (getMemos_array _ _ Hget).
    destruct (mapThrowing_invalid _ Hbad) as [e He]. rewrite He.
    assert (exists cause, e = Error cause) as [cause ->].
    { clear Hbad Hget. revert e He.
      induction items as [|item rest IH]; simpl; intros e; [discriminate|].
      unfold toMemo at 1. destruct (isValidMemoData item); simpl.
      - destruct (mapThrowing h rest) as [e2|ms]; [|discriminate].
        intros H. injection H as <-. now apply IH.
      - intros H. injection H as <-. eauto. }
    eauto.
  - intros st' text Hget' Hne. unfold getMemos, tryCatch. rewrite Hget'. simpl.
    destruct text; [congruence|]. reflexivity.
Qed.

End Reading.

(** An instance: a stored array whose
    only record has an id that is not a UUID v4. *)
Lemma getMemos_invalid_record_unknown_witness :
  exists cause,
    MemoStorage.getMemos Sample.host
      (Sample.storeOf [Sample.record "not-a-uuid" "a" "1" "10"]) =
    (Throw (StorageError UNKNOWN ERROR_MESSAGES.UNKNOWN_ERROR (Some (Error cause))),
     Sample.storeOf [Sample.record "not-a-uuid" "a" "1" "10"]).
Proof.
  apply (getMemos_invalid_record_unknown Sample.host
           (Sample.storeOf [Sample.record "not-a-uuid" "a" "1" "10"])
           [Sample.record "not-a-uuid" "a" "1" "10"]); reflexivity.
Defined.

(** C1 as the specification states it does not hold: a stored sequence
    whose record has a non-UUID id makes [getMemos] throw [UNKNOWN], which
    is not [PARSE_ERROR]. *)
Lemma getMemos_invalid_record_not_parse_error :
  thrownType
    (fst (MemoStorage.getMemos Sample.host
            (Sample.storeOf [Sample.record "not-a-uuid" "a" "1" "10"]))) =
  Some UNKNOWN /\
  Some UNKNOWN <> Some PARSE_ERROR.
Proof. split; [reflexivity | discriminate]. Qed.

(* ================================================================== *)
(** ** utils/storage.ts: writing and lookup *)

Section Writing.
Variable h : Host.

Import MemoStorage.

Lemma assoc_remove_same (key : string) (l : list (string * Text)) :
  assoc key (remove key l) = None.
Proof.
  induction l as [|[k v] rest IH]; simpl; [reflexivity|].
  destruct (String.eqb k key) eqn:E; [exact IH|]. simpl. now rewrite E.
Qed.

Lemma assoc_remove_other (key key' : string) (l : list (string * Text)) :
  key' <> key -> assoc key' (remove key l) = assoc key' l.
Proof.
  intros Hne. induction l as [|[k v] rest IH]; simpl; [reflexivity|].
  destruct (String.eqb k key) eqn:E; simpl.
  - apply String.eqb_eq in E. subst k.
    destruct (String.eqb key key') eqn:E'; [|exact IH].
    apply String.eqb_eq in E'. congruence.
  - now rewrite IH.
Qed.

Lemma saveMemos_eq (memos : list Memo) (st : Storage) :
  saveMemos h memos st =
  if (STORAGE_QUOTA_LIMIT <? blobSize (textOf (written h memos)))%N
  then (Throw (StorageError QUOTA_EXCEEDED
                 ERROR_MESSAGES.STORAGE_QUOTA_EXCEEDED None), st)
  else if hostAccepts st (textOf (written h memos))
       then (Ok tt, stored h memos st)
       else (Throw (StorageError QUOTA_EXCEEDED
                      ERROR_MESSAGES.STORAGE_QUOTA_EXCEEDED
                      (Some (DOMException "QuotaExceededError"))), st).
Proof.
  unfold saveMemos, tryCatch, written.
  destruct (STORAGE_QUOTA_LIMIT <? _)%N; [reflexivity|].
  unfold setItem, stored, written.
  destruct (hostAccepts st _); reflexivity.
Qed.

Lemma getItem_stored (memos : list Memo) (st : Storage) :
  getItem STORAGE_KEY (stored h memos st) = Some (written h memos).
Proof. reflexivity. Qed.

Lemma getItem_stored_other (memos : list Memo) (st : Storage) (key : string) :
  key <> STORAGE_KEY -> getItem key (stored h memos st) = getItem key st.
Proof.
  intros Hne. unfold getItem, stored. cbn [items assoc].
  destruct (String.eqb STORAGE_KEY key) eqn:E.
  - apply String.eqb_eq in E. congruence.
  - now apply assoc_remove_other.
Qed.

(** C3 (as the code has it).  [saveMemos] measures the serialized
    collection.  Above [STORAGE_QUOTA_LIMIT] (5 MiB) it throws
    [QUOTA_EXCEEDED] and the storage is exactly what it was.  Otherwise the
    text is handed to [localStorage.setItem].  If the host accepts it, the
    item then holds the new collection whatever it held before, and no
    other key changes; if the host refuses it for want of space, the error
    is [QUOTA_EXCEEDED] again and nothing is written. *)
Theorem saveMemos_quota (memos : list Memo) (st : Storage) :
  let data := Wellformed (JArr (map (memoToJson h) memos)) in
  if (STORAGE_QUOTA_LIMIT <? blobSize (textOf data))%N
  then saveMemos h memos st =
       (Throw (StorageError QUOTA_EXCEEDED
                 ERROR_MESSAGES.STORAGE_QUOTA_EXCEEDED None), st)
  else if hostAccepts st (textOf data)
       then exists st',
           saveMemos h memos st = (Ok tt, st') /\
           getItem STORAGE_KEY st' = Some data /\
           (forall key, key <> STORAGE_KEY -> getItem key st' = getItem key st)
       else saveMemos h memos st =
            (Throw (StorageError QUOTA_EXCEEDED
                      ERROR_MESSAGES.STORAGE_QUOTA_EXCEEDED
                      (Some (DOMException "QuotaExceededError"))), st).
Proof.
  intros data. rewrite saveMemos_eq. fold (written h memos). fold data.
  destruct (STORAGE_QUOTA_LIMIT <? _)%N; [reflexivity|].
  destruct (hostAccepts st _); [|reflexivity].
  exists (stored h memos st). split; [reflexivity|]. split.
  - apply getItem_stored.
  - intros key. apply getItem_stored_other.
Qed.

Lemma getMemoById_invalid_id (id' : string) (st : Storage) :
  isValidId id' = false -> getMemoById h id' st = (Ok None, st).
Proof. intros H. unfold getMemoById, tryCatch. now rewrite H. Qed.

Lemma getMemoById_unreadable (id' : string) (st : Storage) (e : exn) :
  fst (getMemos h st) = inl e -> getMemoById h id' st = (Ok None, st).
Proof.
  intros H. unfold getMemoById, tryCatch.
  pose proof (getMemos_state h st) as Hst.
  destruct (isValidId id'); simpl; [|reflexivity].
  unfold bind. destruct (getMemos h st) as [[e'|memos] st']; simpl in *;
    [subst; reflexivity | discriminate].
Qed.

Lemma getMemoById_read (id' : string) (st : Storage) (memos : list Memo) :
  fst (getMemos h st) = inr memos -> isValidId id' = true ->
  getMemoById h id' st = (Ok (find (hasId id') memos), st).
Proof.
  intros H Hid. unfold getMemoById, tryCatch.
  pose proof (getMemos_state h st) as Hst. rewrite Hid. simpl.
  unfold bind. destruct (getMemos h st) as [[e'|memos'] st']; simpl in *;
    [discriminate|]. injection H as ->. subst. reflexivity.
Qed.

(** C9. [getMemoById] never throws and never writes: it returns the first
    memo with the id when the id is well-formed and the collection can be
    read, and [undefined] otherwise; in particular a failed read of the
    stored collection yields [undefined], like an absent id. *)
Theorem getMemoById_never_throws (id' : string) (st : Storage) :
  getMemoById h id' st =
  (Ok (match fst (getMemos h st) with
       | inr memos =>
           if isValidId id'
           then find (fun memo => String.eqb (id memo) id') memos
           else None
       | inl _ => None
       end), st).
Proof.
  unfold getMemoById, tryCatch.
  pose proof (getMemos_state h st) as Hst.
  destruct (isValidId id'); simpl.
  - unfold bind. destruct (getMemos h st) as [[e|memos] st']; simpl in *; subst; reflexivity.
  - unfold ret. destruct (fst (getMemos h st)); reflexivity.
Qed.

End Writing.

(** C3 as the specification states it does not hold: a collection of two
    memos, far below [STORAGE_QUOTA_LIMIT], is handed to
    [localStorage.setItem]; the host, which grants this origin 100 bytes,
    refuses it, [saveMemos] reports [QUOTA_EXCEEDED] and the stored value
    is still the former one, not replaced. *)
Lemma saveMemos_within_quota_refused :
  let memos := [mkMemo Sample.idA "a" (ValidDate 1) (ValidDate 10);
                mkMemo Sample.idB "b" (ValidDate 2) (ValidDate 5)] in
  (blobSize (textOf (written Sample.host memos)) <= STORAGE_QUOTA_LIMIT)%N /\
  MemoStorage.saveMemos Sample.host memos SampleStores.full =
  (Throw (StorageError QUOTA_EXCEEDED ERROR_MESSAGES.STORAGE_QUOTA_EXCEEDED
            (Some (DOMException "QuotaExceededError"))),
   SampleStores.full) /\
  getItem STORAGE_KEY SampleStores.full =
  Some (Wellformed (JArr [Sample.record Sample.idA "a" "1" "10"])).
Proof.
  cbv zeta. split; [apply N.leb_le; reflexivity|].
  split; reflexivity.
Qed.

(* ================================================================== *)
(** ** [Array.prototype.sort] with the [updatedAt] comparator *)

Section SortFacts.
Context {A : Type}.
Variable comparefn : A -> A -> option Z.

Lemma insertSorted_perm (x : A) (l : list A) :
  Permutation (insertSorted comparefn x l) (x :: l).
Proof.
  induction l as [|y rest IH]; simpl; [reflexivity|].
  destruct (0 <? compared comparefn x y)%Z; [|reflexivity].
  rewrite IH. apply perm_swap.
Qed.

Lemma sort_perm (l : list A) : Permutation (sort comparefn l) l.
Proof.
  induction l as [|x rest IH]; simpl; [reflexivity|].
  rewrite insertSorted_perm. now constructor.
Qed.

(** Where an inserted element lands: after a prefix of elements it must
    follow, before the rest. *)
Lemma insertSorted_split (x : A) (l : list A) :
  exists pre post,
    l = (pre ++ post)%list /\
    insertSorted comparefn x l = (pre ++ x :: post)%list /\
    Forall (fun y => (0 < compared comparefn x y)%Z) pre.
Proof.
  induction l as [|y rest IH]; simpl.
  - exists [], []. auto.
  - destruct (0 <? compared comparefn x y)%Z eqn:E.
    + destruct IH as (pre & post & -> & -> & Hpre).
      exists (y :: pre), post. repeat split; auto.
      constructor; [now apply Z.ltb_lt | exact Hpre].
    + exists [], (y :: rest). auto.
Qed.

End SortFacts.

Section UpdatedAtOrder.
Import MemoStorage.

Lemma compared_dated (x y : Memo) :
  dated x -> dated y ->
  ((0 < compared byUpdatedAtDesc x y)%Z <-> ~ notOlder x y) /\
  ((0 < compared byUpdatedAtDesc x y)%Z -> notOlder y x).
Proof.
  unfold dated, compared, byUpdatedAtDesc, notOlder.
  destruct (getTime (updatedAt x)), (getTime (updatedAt y)); try congruence.
  intros _ _. lia.
Qed.

Lemma notOlder_trans (x y z : Memo) : notOlder x y -> notOlder y z -> notOlder x z.
Proof.
  unfold notOlder.
  destruct (getTime (updatedAt x)), (getTime (updatedAt y)), (getTime (updatedAt z));
    try tauto. lia.
Qed.

Lemma insertSorted_descending (x : Memo) (l : list Memo) :
  dated x -> Forall dated l -> descending l ->
  descending (insertSorted byUpdatedAtDesc x l).
Proof.
  intros Hx Hl Hs. induction Hs as [|y rest Hrest IH Hy]; simpl.
  - constructor; constructor.
  - inversion Hl as [|? ? Hdy Hdrest]; subst.
    destruct (compared_dated x y Hx Hdy) as [Hiff Hyx].
    destruct (0 <? compared byUpdatedAtDesc x y)%Z eqn:E.
    + apply Z.ltb_lt in E. constructor; [now apply IH|].
      eapply Permutation_Forall; [symmetry; apply insertSorted_perm|].
      constructor; [now apply Hyx | exact Hy].
    + apply Z.ltb_ge in E.
      assert (Hxy : notOlder x y).
      { unfold dated, compared, byUpdatedAtDesc, notOlder in *.
        destruct (getTime (updatedAt x)), (getTime (updatedAt y)); try congruence. lia. }
      constructor; [now constructor|].
      constructor; [exact Hxy|].
      eapply Forall_impl; [|exact Hy]. intros z. now apply notOlder_trans.
Qed.

Lemma sort_descending (l : list Memo) :
  Forall dated l -> descending (sort byUpdatedAtDesc l).
Proof.
  induction l as [|x rest IH]; simpl; intros H.
  - constructor.
  - inversion H; subst. apply insertSorted_descending; auto.
    eapply Permutation_Forall; [symmetry; apply sort_perm | assumption].
Qed.

(** A sorted array is left as it is. *)
Lemma sort_of_descending (l : list Memo) :
  descending l -> sort byUpdatedAtDesc l = l.
Proof.
  induction 1 as [|x rest Hrest IH Hx]; simpl; [reflexivity|].
  rewrite IH. destruct rest as [|y rest']; simpl; [reflexivity|].
  inversion Hx as [|? ? Hxy _]; subst.
  replace (0 <? compared byUpdatedAtDesc x y)%Z with false; [reflexivity|].
  symmetry. apply Z.ltb_ge.
  unfold compared, byUpdatedAtDesc, notOlder in *.
  destruct (getTime (updatedAt x)), (getTime (updatedAt y)); try tauto. lia.
Qed.

Lemma descending_filter (p : Memo -> bool) (l : list Memo) :
  descending l -> descending (filter p l).
Proof.
  induction 1 as [|x rest Hrest IH Hx]; simpl; [constructor|].
  destruct (p x); [|exact IH].
  constructor; [exact IH|].
  apply Forall_forall. intros y Hy. apply filter_In in Hy as [Hy _].
  rewrite Forall_forall in Hx. now apply Hx.
Qed.

(** The sort is stable: a part of the array that is already in order keeps
    its order. *)
Lemma filter_sort_stable (q : Memo -> bool) (l : list Memo) :
  Forall dated l -> descending (filter q l) ->
  filter q (sort byUpdatedAtDesc l) = filter q l.
Proof.
  induction l as [|x rest IH]; simpl; [reflexivity|].
  intros Hd Hs. inversion Hd as [|? ? Hdx Hdrest]; subst.
  destruct (insertSorted_split byUpdatedAtDesc x (sort byUpdatedAtDesc rest))
    as (pre & post & Hsplit & -> & Hpre).
  destruct (q x) eqn:Hq.
  - inversion Hs as [|? ? Hs' Hx]; subst.
    specialize (IH Hdrest Hs'). rewrite Hsplit in IH.
    rewrite filter_app in *. simpl. rewrite Hq.
    assert (Hnone : filter q pre = []).
    { destruct (filter q pre) as [|y ys] eqn:Ey; [reflexivity|exfalso].
      assert (Hin : In y (filter q pre)) by (rewrite Ey; now left).
      apply filter_In in Hin as [Hin Hqy].
      rewrite Forall_forall in Hpre. specialize (Hpre y Hin).
      assert (Hdy : dated y).
      { assert (Hperm := sort_perm byUpdatedAtDesc rest). rewrite Hsplit in Hperm.
        rewrite Forall_forall in Hdrest. apply Hdrest.
        eapply Permutation_in; [exact Hperm|]. apply in_or_app. now left. }
      destruct (compared_dated x y Hdx Hdy) as [Hiff _].
      apply Hiff in Hpre. apply Hpre.
      rewrite Forall_forall in Hx. apply Hx.
      rewrite <- IH. now left. }
    rewrite Hnone in *. simpl in *. now rewrite IH.
  - specialize (IH Hdrest Hs). rewrite Hsplit in IH.
    rewrite filter_app in *. simpl. now rewrite Hq.
Qed.

End UpdatedAtOrder.

Section Ordering.
Variable h : Host.
Import MemoStorage.

(** X25. A collection that [getMemos] returns and whose records all
    carry a valid [updatedAt] date is ordered by [updatedAt] descending,
    whatever the order of the stored records. *)
Theorem getMemos_descending (st : Storage) (memos : list Memo) :
  fst (getMemos h st) = inr memos ->
  Forall (fun m => getTime (updatedAt m) <> None) memos ->
  descending memos.
Proof.
  intros Hread Hdated.
  destruct (getMemos_ok_inv h st memos Hread) as [-> | (arr & parsed & _ & _ & ->)].
  - constructor.
  - apply sort_descending.
    eapply Permutation_Forall; [apply sort_perm | exact Hdated].
Qed.

End Ordering.

(** An instance: three records stored oldest
    first are returned newest first. *)
Lemma getMemos_descending_witness :
  descending
    [mkMemo Sample.idC "c" (ValidDate 3) (ValidDate 30);
     mkMemo Sample.idB "b" (ValidDate 2) (ValidDate 20);
     mkMemo Sample.idA "a" (ValidDate 1) (ValidDate 10)].
Proof.
  apply (getMemos_descending Sample.host
           (Sample.storeOf [Sample.record Sample.idA "a" "1" "10";
                            Sample.record Sample.idB "b" "2" "20";
                            Sample.record Sample.idC "c" "3" "30"])).
  - reflexivity.
  - repeat constructor; discriminate.
Defined.

(** C8 does not hold of the code.  The three records pass validation
    (their [updatedAt] is a string, which is all that [isValidMemoData]
    asks), the read succeeds, and the collection is returned in the
    stored order: the memo of time 2020 before the memo of time 2021,
    with an Invalid Date between them, for which the comparator gives
    NaN. *)
Lemma getMemos_not_descending :
  fst (MemoStorage.getMemos Sample.host
         (Sample.storeOf [Sample.record Sample.idA "a" "1" "2020";
                          Sample.record Sample.idB "b" "1" "not a date";
                          Sample.record Sample.idC "c" "1" "2021"])) =
  inr [mkMemo Sample.idA "a" (ValidDate 1) (ValidDate 2020);
       mkMemo Sample.idB "b" (ValidDate 1) InvalidDate;
       mkMemo Sample.idC "c" (ValidDate 1) (ValidDate 2021)] /\
  ~ descending
      [mkMemo Sample.idA "a" (ValidDate 1) (ValidDate 2020);
       mkMemo Sample.idB "b" (ValidDate 1) InvalidDate;
       mkMemo Sample.idC "c" (ValidDate 1) (ValidDate 2021)].
Proof.
  split; [reflexivity|].
  intros H. inversion H as [|? ? _ Hall]; subst.
  inversion Hall as [|? ? Hbad _]; subst. exact Hbad.
Qed.

(* ================================================================== *)
(** ** [findIndex], [find] and element replacement *)

Section ArrayFacts.
Context {A : Type}.
Variable p : A -> bool.

Lemma findIndex_bounds (l : list A) : (-1 <= findIndex p l)%Z.
Proof.
  induction l as [|x rest IH]; simpl; [lia|].
  destruct (p x); [lia|]. destruct (findIndex p rest <? 0)%Z eqn:E; lia.
Qed.

Lemma find_findIndex (l : list A) (x : A) :
  find p l = Some x -> (0 <= findIndex p l)%Z.
Proof.
  revert x. induction l as [|y rest IH]; simpl; intros x; [discriminate|].
  destruct (p y); [lia|]. intros H. specialize (IH _ H).
  destruct (findIndex p rest <? 0)%Z eqn:E; [apply Z.ltb_lt in E|]; lia.
Qed.

Lemma find_none_findIndex (l : list A) :
  find p l = None -> findIndex p l = (-1)%Z.
Proof.
  induction l as [|y rest IH]; simpl; [reflexivity|].
  destruct (p y); [discriminate|]. intros H. rewrite (IH H). reflexivity.
Qed.

(** Replacing the first element that satisfies [p] by one that does too
    leaves the other elements as they are. *)
Lemma filter_assign_found (l : list A) (x v : A) :
  find p l = Some x -> p v = true ->
  filter (fun y => negb (p y)) (assign (Z.to_nat (findIndex p l)) v l) =
  filter (fun y => negb (p y)) l.
Proof.
  revert x. induction l as [|y rest IH]; simpl; intros x; [discriminate|].
  destruct (p y) eqn:Hy; simpl.
  - intros _ Hv. now rewrite Hv.
  - intros H Hv. pose proof (find_findIndex _ _ H) as Hpos.
    destruct (findIndex p rest <? 0)%Z eqn:E; [apply Z.ltb_lt in E; lia|].
    replace (Z.to_nat (findIndex p rest + 1)) with (S (Z.to_nat (findIndex p rest))) by lia.
    simpl. rewrite Hy. simpl. f_equal. now apply (IH x).
Qed.

Lemma filter_length_assign_found (l : list A) (x v : A) :
  find p l = Some x -> p v = true ->
  List.length (filter p (assign (Z.to_nat (findIndex p l)) v l)) =
  List.length (filter p l).
Proof.
  revert x. induction l as [|y rest IH]; simpl; intros x; [discriminate|].
  destruct (p y) eqn:Hy; simpl.
  - intros _ Hv. now rewrite Hv.
  - intros H Hv. pose proof (find_findIndex _ _ H) as Hpos.
    destruct (findIndex p rest <? 0)%Z eqn:E; [apply Z.ltb_lt in E; lia|].
    replace (Z.to_nat (findIndex p rest + 1)) with (S (Z.to_nat (findIndex p rest))) by lia.
    simpl. rewrite Hy. now apply (IH x).
Qed.

Lemma In_assign_found (l : list A) (x v : A) :
  find p l = Some x -> In v (assign (Z.to_nat (findIndex p l)) v l).
Proof.
  revert x. induction l as [|y rest IH]; simpl; intros x; [discriminate|].
  destruct (p y) eqn:Hy; simpl.
  - intros _. now left.
  - intros H. pose proof (find_findIndex _ _ H) as Hpos.
    destruct (findIndex p rest <? 0)%Z eqn:E; [apply Z.ltb_lt in E; lia|].
    replace (Z.to_nat (findIndex p rest + 1)) with (S (Z.to_nat (findIndex p rest))) by lia.
    simpl. right. now apply (IH x).
Qed.

Lemma once_unique (l : list A) (x y : A) :
  List.length (filter p l) = 1 ->
  In x l -> p x = true -> In y l -> p y = true -> x = y.
Proof.
  intros Hlen Hx Hpx Hy Hpy.
  assert (Hx' : In x (filter p l)) by (apply filter_In; auto).
  assert (Hy' : In y (filter p l)) by (apply filter_In; auto).
  destruct (filter p l) as [|z [|z' zs]]; simpl in *; try lia.
  destruct Hx' as [<-|[]], Hy' as [<-|[]]. reflexivity.
Qed.

Lemma Forall_assign (Q : A -> Prop) (i : nat) (v : A) (l : list A) :
  Forall Q l -> Q v -> Forall Q (assign i v l).
Proof.
  intros Hl Hv. revert i. induction Hl as [|y rest Hy Hrest IH]; intros i.
  - destruct i; constructor.
  - destruct i; simpl; constructor; auto.
Qed.

(** When exactly one element satisfies [p], replacing the first such
    element is replacing every such element. *)
Lemma assign_once (l : list A) (x v : A) :
  find p l = Some x -> List.length (filter p l) = 1 ->
  assign (Z.to_nat (findIndex p l)) v l = map (fun y => if p y then v else y) l.
Proof.
  revert x. induction l as [|y rest IH]; simpl; intros x; [discriminate|].
  destruct (p y) eqn:Hy; simpl.
  - intros _ Hlen. f_equal.
    assert (Hnone : filter p rest = []).
    { destruct (filter p rest); [reflexivity | simpl in Hlen; lia]. }
    clear -Hnone. induction rest as [|z rest IH]; simpl; [reflexivity|].
    simpl in Hnone. destruct (p z); [discriminate|]. f_equal. now apply IH.
  - intros H Hlen. pose proof (find_findIndex _ _ H) as Hpos.
    destruct (findIndex p rest <? 0)%Z eqn:E; [apply Z.ltb_lt in E; lia|].
    replace (Z.to_nat (findIndex p rest + 1)) with (S (Z.to_nat (findIndex p rest))) by lia.
    simpl. f_equal. now apply (IH x).
Qed.

Lemma find_once (l : list A) (x : A) :
  List.length (filter p l) = 1 -> In x l -> p x = true -> find p l = Some x.
Proof.
  induction l as [|y rest IH]; simpl; [tauto|].
  destruct (p y) eqn:Hy; simpl.
  - intros Hlen [-> | Hin] Hx; [reflexivity|].
    assert (Hin' : In x (filter p rest)) by (apply filter_In; auto).
    destruct (filter p rest); [contradiction | simpl in Hlen; lia].
  - intros Hlen [-> | Hin] Hx; [congruence | auto].
Qed.

End ArrayFacts.

Lemma filter_length_perm {A : Type} (p : A -> bool) (l l' : list A) :
  Permutation l l' -> List.length (filter p l) = List.length (filter p l').
Proof.
  induction 1 as [| x l l' _ IH | x y l | l l' l'' _ IH1 _ IH2]; simpl.
  - reflexivity.
  - destruct (p x); simpl; congruence.
  - destruct (p x), (p y); reflexivity.
  - congruence.
Qed.

(* ================================================================== *)
(** ** utils/storage.ts: what is written can be read back *)

Section Updating.
Variable h : Host.

(** The host parses the ISO text of a time value back to that value. *)
Hypothesis Date_roundtrip :
  forall ms, Date_parse h (Date_toISOString h ms) = ValidDate ms.

Import MemoStorage.

Lemma hasValidDatesb_spec (m : Memo) : hasValidDatesb m = true <-> hasValidDates m.
Proof.
  unfold hasValidDatesb, hasValidDates.
  destruct (getTime (createdAt m)), (getTime (updatedAt m)); split; intros H;
    try reflexivity; try discriminate; try (split; discriminate);
    destruct H as [H1 H2]; congruence.
Qed.

Lemma toMemo_id (item : json) (m : Memo) :
  toMemo h item = inr m -> isValidId (id m) = true.
Proof.
  unfold toMemo. destruct (isValidMemoData item) eqn:E; simpl; [|discriminate].
  intros H. injection H as <-. simpl.
  unfold isValidMemoData in E. now apply andb_true_iff in E as [_ E].
Qed.

Lemma mapThrowing_ids (arr : list json) (ms : list Memo) :
  mapThrowing h arr = inr ms -> Forall (fun m => isValidId (id m) = true) ms.
Proof.
  revert ms. induction arr as [|item rest IH]; simpl; intros ms.
  - intros H. injection H as <-. constructor.
  - destruct (toMemo h item) as [e|m] eqn:E; [discriminate|].
    destruct (mapThrowing h rest) as [e|ms']; [discriminate|].
    intros H. injection H as <-. constructor; [now apply toMemo_id in E | now apply IH].
Qed.

Lemma getMemos_ids (st : Storage) (l : list Memo) :
  fst (getMemos h st) = inr l -> Forall (fun m => isValidId (id m) = true) l.
Proof.
  intros H. destruct (getMemos_ok_inv h st l H) as [-> | (arr & parsed & _ & Hmap & ->)].
  - constructor.
  - eapply Permutation_Forall; [symmetry; apply sort_perm|].
    now apply mapThrowing_ids in Hmap.
Qed.

Lemma isValidMemoData_memoToJson (m : Memo) :
  isValidMemoData (memoToJson h m) = hasValidDatesb m && isValidId (id m).
Proof.
  destruct m as [i c [tc|] [tu|]]; reflexivity.
Qed.

Lemma toMemo_memoToJson (m : Memo) :
  isValidId (id m) = true -> hasValidDatesb m = true ->
  toMemo h (memoToJson h m) = inr m.
Proof.
  intros Hid Hd. unfold toMemo.
  rewrite isValidMemoData_memoToJson, Hid, Hd.
  destruct m as [i c [tc|] [tu|]]; try discriminate.
  cbn -[isValidId]. now rewrite !Date_roundtrip.
Qed.

Lemma memoToJson_undated (m : Memo) :
  hasValidDatesb m = false -> isValidMemoData (memoToJson h m) = false.
Proof. intros Hd. now rewrite isValidMemoData_memoToJson, Hd. Qed.

Lemma mapThrowing_written (ms : list Memo) :
  Forall (fun m => isValidId (id m) = true) ms ->
  forallb hasValidDatesb ms = true ->
  mapThrowing h (map (memoToJson h) ms) = inr ms.
Proof.
  induction 1 as [|m rest Hm Hrest IH]; simpl; [reflexivity|].
  intros Hd. apply andb_true_iff in Hd as [Hd1 Hd2].
  rewrite (toMemo_memoToJson _ Hm Hd1), (IH Hd2). reflexivity.
Qed.

Lemma mapThrowing_written_undated (ms : list Memo) :
  forallb hasValidDatesb ms = false ->
  exists e, mapThrowing h (map (memoToJson h) ms) = inl e.
Proof.
  intros Hd. apply mapThrowing_invalid.
  induction ms as [|m rest IH]; simpl in *; [discriminate|].
  apply andb_false_iff in Hd as [Hd | Hd].
  - now rewrite (memoToJson_undated _ Hd).
  - rewrite (IH Hd). apply orb_true_r.
Qed.

Lemma getMemos_stored (ms : list Memo) (st : Storage) :
  Forall (fun m => isValidId (id m) = true) ms ->
  forallb hasValidDatesb ms = true ->
  fst (getMemos h (stored h ms st)) = inr (sort byUpdatedAtDesc ms).
Proof.
  intros Hid Hd.
  rewrite (getMemos_array h (stored h ms st) (map (memoToJson h) ms)) by reflexivity.
  now rewrite (mapThrowing_written _ Hid Hd).
Qed.

Lemma getMemos_stored_undated (ms : list Memo) (st : Storage) :
  forallb hasValidDatesb ms = false ->
  exists e, fst (getMemos h (stored h ms st)) = inl e.
Proof.
  intros Hd.
  rewrite (getMemos_array h (stored h ms st) (map (memoToJson h) ms)) by reflexivity.
  destruct (mapThrowing_written_undated _ Hd) as [e ->]. simpl. eauto.
Qed.

(** [saveMemos] either writes or throws a [StorageError] and leaves the
    storage alone. *)
Lemma saveMemos_cases (ms : list Memo) (st : Storage) :
  saveMemos h ms st = (Ok tt, stored h ms st) \/
  exists e, saveMemos h ms st = (Throw e, st) /\ isStorageError e = true.
Proof.
  rewrite saveMemos_eq.
  destruct (STORAGE_QUOTA_LIMIT <? _)%N; [right; eauto|].
  destruct (hostAccepts st _); [now left | right; eauto].
Qed.

Lemma rethrow_saveMemos (message : string) (ms : list Memo) (st : Storage) :
  tryCatch (saveMemos h ms) (rethrowOr message) st = saveMemos h ms st.
Proof.
  unfold tryCatch.
  destruct (saveMemos_cases ms st) as [-> | (e & -> & He)]; [reflexivity|].
  unfold Throw, rethrowOr. now rewrite He.
Qed.

Lemma saveMemo_found (memo : Memo) (st : Storage) (l : list Memo) (x : Memo) :
  fst (getMemos h st) = inr l ->
  find (hasId (id memo)) l = Some x ->
  saveMemo h memo st =
  saveMemos h (assign (Z.to_nat (findIndex (hasId (id memo)) l)) memo l) st.
Proof.
  intros Hread Hfind. unfold saveMemo.
  pose proof (getMemos_state h st) as Hst.
  pose proof (find_findIndex _ _ _ Hfind) as Hpos.
  unfold tryCatch at 1, bind.
  destruct (getMemos h st) as [[e|l'] st'] eqn:E; simpl in *; [discriminate|].
  injection Hread as ->. subst st'.
  change (fun m : Memo => String.eqb (id m) (id memo)) with (hasId (id memo)).
  apply Z.leb_le in Hpos. rewrite Hpos.
  pose proof (rethrow_saveMemos ERROR_MESSAGES.SAVE_FAILED
                (assign (Z.to_nat (findIndex (hasId (id memo)) l)) memo l) st) as R.
  unfold tryCatch in R. exact R.
Qed.

(** [updateMemo] on a readable collection that holds the id. *)
Lemma updateMemo_found (id' : string) (updates : option string) (now : Z)
      (st : Storage) (l : list Memo) (existing : Memo) :
  fst (getMemos h st) = inr l ->
  isValidId id' = true ->
  find (hasId id') l = Some existing ->
  updateMemo h id' updates now st =
  saveMemos h
    (assign (Z.to_nat (findIndex (hasId id') l)) (patched existing updates now) l) st.
Proof.
  intros Hread Hid Hfind.
  assert (Hsame : id existing = id').
  { apply find_some in Hfind as [_ H]. now apply String.eqb_eq in H. }
  unfold updateMemo, tryCatch at 1, bind.
  rewrite (getMemoById_read h _ _ _ Hread Hid), Hfind. unfold Ok. cbv iota beta.
  fold (patched existing updates now).
  assert (Hfind' : find (hasId (id (patched existing updates now))) l = Some existing).
  { simpl. now rewrite Hsame. }
  rewrite (saveMemo_found _ _ _ _ Hread Hfind'). simpl id. rewrite Hsame.
  pose proof (rethrow_saveMemos ERROR_MESSAGES.SAVE_FAILED
     (assign (Z.to_nat (findIndex (hasId id') l)) (patched existing updates now) l) st) as R.
  unfold tryCatch in R. exact R.
Qed.

(** Otherwise [updateMemo] throws [NOT_FOUND] and writes nothing. *)
Lemma updateMemo_not_found (id' : string) (updates : option string) (now : Z)
      (st : Storage) :
  (match fst (getMemos h st) with
   | inr l => if isValidId id' then find (hasId id') l else None
   | inl _ => None
   end) = None ->
  updateMemo h id' updates now st = (Throw notFound, st).
Proof.
  intros Hnone. unfold updateMemo, tryCatch, bind.
  destruct (fst (getMemos h st)) as [e|l] eqn:Hread.
  - now rewrite (getMemoById_unreadable h _ _ _ Hread).
  - destruct (isValidId id') eqn:Hid.
    + now rewrite (getMemoById_read h _ _ _ Hread Hid), Hnone.
    + now rewrite (getMemoById_invalid_id h _ _ Hid).
Qed.

(** A successful [updateMemo], taken apart. *)
Lemma updateMemo_ok_inv (id' : string) (updates : option string) (now : Z)
      (st st1 : Storage) :
  updateMemo h id' updates now st = (Ok tt, st1) ->
  exists l existing,
    fst (getMemos h st) = inr l /\
    isValidId id' = true /\
    find (hasId id') l = Some existing /\
    st1 = stored h (assign (Z.to_nat (findIndex (hasId id') l))
                      (patched existing updates now) l) st.
Proof.
  intros Hok.
  destruct (fst (getMemos h st)) as [e|l] eqn:Hread.
  { rewrite updateMemo_not_found in Hok by now rewrite Hread. discriminate. }
  destruct (isValidId id') eqn:Hid.
  2:{ rewrite updateMemo_not_found in Hok by now rewrite Hread, Hid. discriminate. }
  destruct (find (hasId id') l) as [existing|] eqn:Hfind.
  2:{ rewrite updateMemo_not_found in Hok by now rewrite Hread, Hid. discriminate. }
  exists l, existing. repeat split; auto.
  rewrite (updateMemo_found _ _ _ _ _ _ Hread Hid Hfind) in Hok.
  destruct (saveMemos_cases
              (assign (Z.to_nat (findIndex (hasId id') l)) (patched existing updates now) l) st)
    as [Hs | (e & Hs & _)]; rewrite Hs in Hok; [|discriminate].
  now injection Hok as <-.
Qed.

End Updating.

(* ================================================================== *)
(** ** utils/storage.ts: [updateMemo] *)

Section UpdateTheorems.
Variable h : Host.
Hypothesis Date_roundtrip :
  forall ms, Date_parse h (Date_toISOString h ms) = ValidDate ms.

Import MemoStorage.

Lemma hasValidDatesb_patched (existing : Memo) (updates : option string) (now : Z) :
  getTime (createdAt existing) <> None ->
  hasValidDatesb (patched existing updates now) = true.
Proof.
  unfold hasValidDatesb, patched. simpl.
  destruct (getTime (createdAt existing)); congruence.
Qed.

Lemma forallb_dates (l : list Memo) :
  forallb hasValidDatesb l = true <-> Forall hasValidDates l.
Proof.
  rewrite forallb_forall, Forall_forall. split; intros H m Hm.
  - apply hasValidDatesb_spec, H, Hm.
  - apply hasValidDatesb_spec, H, Hm.
Qed.

Lemma dated_of_valid (l : list Memo) :
  Forall hasValidDates l -> Forall dated l.
Proof. apply Forall_impl. intros m [_ H]. exact H. Qed.

(** X26. When the stored timestamps are valid dates,
    a successful [updateMemo id'] leaves behind a readable collection of the
    same size in which the records whose id differs from [id'] are exactly
    those of before (same id, content, createdAt and updatedAt, in the same
    order). *)
Theorem updateMemo_frame (id' : string) (patch : option string) (now : Z)
        (st st1 : Storage) (before : list Memo) :
  fst (getMemos h st) = inr before ->
  Forall hasValidDates before ->
  updateMemo h id' patch now st = (Ok tt, st1) ->
  exists after,
    fst (getMemos h st1) = inr after /\
    List.length after = List.length before /\
    filter (fun m => negb (hasId id' m)) after =
    filter (fun m => negb (hasId id' m)) before.
Proof.
  intros Hread Hvalid Hok.
  destruct (updateMemo_ok_inv h _ _ _ _ _ Hok)
    as (l & existing & Hread' & Hid & Hfind & ->).
  rewrite Hread in Hread'. injection Hread' as <-.
  set (l' := assign (Z.to_nat (findIndex (hasId id') before))
               (patched existing patch now) before).
  assert (Hex : In existing before /\ hasId id' existing = true)
    by (now apply find_some in Hfind).
  destruct Hex as [Hin Hhas].
  assert (Hexv : hasValidDates existing)
    by (rewrite Forall_forall in Hvalid; now apply Hvalid).
  assert (Hids : Forall (fun m => isValidId (id m) = true) l').
  { apply Forall_assign; [now apply (getMemos_ids h st)|].
    simpl. pose proof (getMemos_ids h st _ Hread) as Hall.
    rewrite Forall_forall in Hall. now apply Hall. }
  assert (Hdates : Forall hasValidDates l').
  { apply Forall_assign; [exact Hvalid|].
    apply hasValidDatesb_spec, hasValidDatesb_patched, Hexv. }
  exists (sort byUpdatedAtDesc l'). split; [|split].
  - apply (getMemos_stored h Date_roundtrip); auto. now apply forallb_dates.
  - rewrite (Permutation_length (sort_perm byUpdatedAtDesc l')).
    unfold l'. clear. generalize (Z.to_nat (findIndex (hasId id') before)).
    induction before as [|y rest IH]; intros [|i]; simpl; auto.
  - assert (Hfilter : filter (fun m => negb (hasId id' m)) l' =
                      filter (fun m => negb (hasId id' m)) before).
    { apply (filter_assign_found (hasId id') before existing); [exact Hfind|].
      unfold hasId, patched. simpl. exact Hhas. }
    rewrite filter_sort_stable; [exact Hfilter | now apply dated_of_valid |].
    rewrite Hfilter. apply descending_filter.
    apply dated_of_valid in Hvalid.
    destruct (getMemos_ok_inv h st before Hread) as [-> | (arr & parsed & _ & _ & ->)];
      [constructor|].
    apply sort_descending.
    eapply Permutation_Forall; [apply sort_perm | exact Hvalid].
Qed.

(** X27. [updateMemo] twice.  The timestamps are valid dates and exactly
    one stored record has the id.  After a successful
    [updateMemo id' {content: x}] the collection can be read, and a second
    call with the same content either persists that collection with only
    the [updatedAt] of the record replaced by the time of the second call
    (which is then what is read back, sorted again), or is refused for
    want of space with [QUOTA_EXCEEDED], leaving the storage as the first
    call left it; it never reports [NOT_FOUND]. *)
Theorem updateMemo_twice (id' x : string) (t1 t2 : Z)
        (st0 st1 : Storage) (l0 : list Memo) :
  fst (getMemos h st0) = inr l0 ->
  Forall hasValidDates l0 ->
  List.length (filter (hasId id') l0) = 1 ->
  updateMemo h id' (Some x) t1 st0 = (Ok tt, st1) ->
  exists l1,
    fst (getMemos h st1) = inr l1 /\
    ((updateMemo h id' (Some x) t2 st1 =
      (Ok tt, stored h (map (touch id' t2) l1) st1) /\
      fst (getMemos h (stored h (map (touch id' t2) l1) st1)) =
      inr (sort byUpdatedAtDesc (map (touch id' t2) l1))) \/
     (exists cause,
        updateMemo h id' (Some x) t2 st1 =
        (Throw (StorageError QUOTA_EXCEEDED ERROR_MESSAGES.STORAGE_QUOTA_EXCEEDED
                  cause), st1))).
Proof.
  intros Hread Hvalid Honce Hok.
  destruct (updateMemo_ok_inv h _ _ _ _ _ Hok)
    as (l & existing & Hread' & Hid & Hfind & ->).
  rewrite Hread in Hread'. injection Hread' as <-.
  set (first := patched existing (Some x) t1).
  set (l' := assign (Z.to_nat (findIndex (hasId id') l0)) first l0).
  set (st1 := stored h l' st0).
  assert (Hhas : hasId id' existing = true) by (now apply find_some in Hfind).
  assert (Hfirst : hasId id' first = true) by exact Hhas.
  assert (Hin0 : In existing l0) by (now apply find_some in Hfind).
  assert (Hids : Forall (fun m => isValidId (id m) = true) l').
  { apply Forall_assign; [now apply (getMemos_ids h st0)|].
    simpl. pose proof (getMemos_ids h st0 _ Hread) as Hall.
    rewrite Forall_forall in Hall. now apply Hall. }
  assert (Hdates : forallb hasValidDatesb l' = true).
  { apply forallb_dates. apply Forall_assign; [exact Hvalid|].
    apply hasValidDatesb_spec, hasValidDatesb_patched.
    rewrite Forall_forall in Hvalid. now apply Hvalid. }
  assert (Hread1 : fst (getMemos h st1) = inr (sort byUpdatedAtDesc l'))
    by now apply (getMemos_stored h Date_roundtrip).
  set (l1 := sort byUpdatedAtDesc l') in *.
  exists l1. split; [exact Hread1|].
  assert (Hperm : Permutation l1 l') by apply sort_perm.
  assert (Honce1 : List.length (filter (hasId id') l1) = 1).
  { rewrite (filter_length_perm _ _ _ Hperm). unfold l'.
    now rewrite (filter_length_assign_found _ _ existing). }
  assert (Hin1 : In first l1).
  { eapply Permutation_in; [symmetry; exact Hperm|].
    apply (In_assign_found (hasId id') l0 existing). exact Hfind. }
  assert (Hfind1 : find (hasId id') l1 = Some first) by now apply find_once.
  rewrite (updateMemo_found h _ (Some x) t2 _ _ _ Hread1 Hid Hfind1).
  rewrite (assign_once _ _ _ _ Hfind1 Honce1).
  assert (Hmap : map (fun y => if hasId id' y then patched first (Some x) t2 else y) l1 =
                 map (touch id' t2) l1).
  { apply map_ext_in. intros y Hy. unfold touch. fold (hasId id' y).
    destruct (hasId id' y) eqn:Hy'; [|reflexivity].
    rewrite (once_unique (hasId id') l1 y first Honce1 Hy Hy' Hin1 Hfirst).
    reflexivity. }
  rewrite Hmap.
  rewrite (saveMemos_eq h).
  destruct (STORAGE_QUOTA_LIMIT <? _)%N; [right; eexists; reflexivity|].
  destruct (hostAccepts st1 _); [left | right; eexists; reflexivity].
  split; [reflexivity|].
  apply (getMemos_stored h Date_roundtrip); auto.
  - rewrite Forall_map. eapply Forall_impl; [|eapply Permutation_Forall;
      [symmetry; exact Hperm | exact Hids]].
    intros m Hm. unfold touch. destruct (String.eqb (id m) id'); exact Hm.
  - apply forallb_forall. intros m Hm. apply in_map_iff in Hm as (m0 & <- & Hm0).
    assert (Hd0 : hasValidDatesb m0 = true).
    { rewrite forallb_forall in Hdates. apply Hdates.
      eapply Permutation_in; [exact Hperm | exact Hm0]. }
    unfold touch. destruct (String.eqb (id m0) id'); [|exact Hd0].
    unfold hasValidDatesb in *. simpl.
    destruct (getTime (createdAt m0)); [reflexivity | discriminate].
Qed.

End UpdateTheorems.

(* ================================================================== *)
(** ** [updateMemo] on the sample stores *)

Lemma sample_roundtrip (ms : Z) :
  Date_parse Sample.host (Date_toISOString Sample.host ms) = ValidDate ms.
Proof.
  unfold Sample.host, JSON.numberToString. simpl.
  rewrite DecimalString.NilZero.isi.
  - now rewrite DecimalZ.of_to.
  - destruct ms; simpl; try discriminate.
    intros H. injection H as H. now apply DecimalPos.Unsigned.to_uint_nonnil in H.
  - destruct ms; simpl; try discriminate.
    intros H. injection H as H. now apply DecimalPos.Unsigned.to_uint_nonnil in H.
Qed.

(** An instance: updating the second of two memos
    leaves the first as it was. *)
Lemma updateMemo_frame_witness :
  exists after,
    fst (MemoStorage.getMemos Sample.host
           (snd (MemoStorage.updateMemo Sample.host Sample.idB (Some "x") 20
                   SampleStores.two))) = inr after /\
    List.length after = 2 /\
    filter (fun m => negb (hasId Sample.idB m)) after =
    [mkMemo Sample.idA "a" (ValidDate 1) (ValidDate 10)].
Proof.
  apply (updateMemo_frame Sample.host sample_roundtrip Sample.idB (Some "x") 20
           SampleStores.two
           (snd (MemoStorage.updateMemo Sample.host Sample.idB (Some "x") 20
                   SampleStores.two))
           [mkMemo Sample.idA "a" (ValidDate 1) (ValidDate 10);
            mkMemo Sample.idB "b" (ValidDate 2) (ValidDate 5)]).
  - reflexivity.
  - apply forallb_dates. reflexivity.
  - reflexivity.
Defined.

(** C10 does not hold of the code.  The record of [idA] passes validation
    with a [createdAt] text that is no date and is read as Invalid Date.
    The update of [idB] succeeds and rewrites the whole collection:
    [Date.prototype.toJSON] runs before the replacer and gives null for
    an Invalid Date, so the record of [idA], left alone by the caller, is
    persisted with [createdAt] null; after that the collection cannot be
    read at all. *)
Lemma updateMemo_rewrites_other_record :
  MemoStorage.updateMemo Sample.host Sample.idB (Some "x") 20 SampleStores.undated =
  (Ok tt,
   Sample.storeOf
     [JObj [("id", JStr Sample.idA); ("content", JStr "a");
            ("createdAt", JNull); ("updatedAt", JStr "10")];
      Sample.record Sample.idB "x" "2" "20"]) /\
  getItem STORAGE_KEY SampleStores.undated =
  Some (Wellformed
          (JArr [Sample.record Sample.idA "a" "not a date" "10";
                 Sample.record Sample.idB "b" "2" "5"])) /\
  thrownType
    (fst (MemoStorage.getMemos Sample.host
            (snd (MemoStorage.updateMemo Sample.host Sample.idB (Some "x") 20
                    SampleStores.undated)))) = Some UNKNOWN.
Proof. repeat split; reflexivity. Qed.

(** An instance: the second update of a memo changes
    its [updatedAt] and nothing else. *)
Lemma updateMemo_twice_witness :
  exists l1,
    fst (MemoStorage.getMemos Sample.host
           (snd (MemoStorage.updateMemo Sample.host Sample.idB (Some "x") 20
                   SampleStores.two))) = inr l1 /\
    ((MemoStorage.updateMemo Sample.host Sample.idB (Some "x") 30
        (snd (MemoStorage.updateMemo Sample.host Sample.idB (Some "x") 20
                SampleStores.two)) =
      (Ok tt,
       stored Sample.host (map (touch Sample.idB 30) l1)
         (snd (MemoStorage.updateMemo Sample.host Sample.idB (Some "x") 20
                 SampleStores.two))) /\
      fst (MemoStorage.getMemos Sample.host
             (stored Sample.host (map (touch Sample.idB 30) l1)
                (snd (MemoStorage.updateMemo Sample.host Sample.idB (Some "x") 20
                        SampleStores.two)))) =
      inr (sort MemoStorage.byUpdatedAtDesc (map (touch Sample.idB 30) l1))) \/
     (exists cause,
        MemoStorage.updateMemo Sample.host Sample.idB (Some "x") 30
          (snd (MemoStorage.updateMemo Sample.host Sample.idB (Some "x") 20
                  SampleStores.two)) =
        (Throw (StorageError QUOTA_EXCEEDED ERROR_MESSAGES.STORAGE_QUOTA_EXCEEDED
                  cause),
         snd (MemoStorage.updateMemo Sample.host Sample.idB (Some "x") 20
                SampleStores.two)))).
Proof.
  apply (updateMemo_twice Sample.host sample_roundtrip Sample.idB "x" 20 30
           SampleStores.two
           (snd (MemoStorage.updateMemo Sample.host Sample.idB (Some "x") 20
                   SampleStores.two))
           [mkMemo Sample.idA "a" (ValidDate 1) (ValidDate 10);
            mkMemo Sample.idB "b" (ValidDate 2) (ValidDate 5)]).
  - reflexivity.
  - apply forallb_dates. reflexivity.
  - reflexivity.
  - reflexivity.
Defined.

(** What the two updates of the instance above leave behind. *)
Example updateMemo_twice_sample :
  fst (MemoStorage.getMemos Sample.host
         (snd (MemoStorage.updateMemo Sample.host Sample.idB (Some "x") 20
                 SampleStores.two))) =
  inr [mkMemo Sample.idB "x" (ValidDate 2) (ValidDate 20);
       mkMemo Sample.idA "a" (ValidDate 1) (ValidDate 10)] /\
  MemoStorage.updateMemo Sample.host Sample.idB (Some "x") 30
    (snd (MemoStorage.updateMemo Sample.host Sample.idB (Some "x") 20
            SampleStores.two)) =
  (Ok tt,
   Sample.storeOf [Sample.record Sample.idB "x" "2" "30";
                   Sample.record Sample.idA "a" "1" "10"]).
Proof. split; reflexivity. Qed.

(** C7 does not hold of the code.  The record of [idA] passes validation
    with a [createdAt] text that is no date, and [getMemoById] finds it.
    The first [updateMemo idA {content: "x"}] succeeds, but persists the
    record with [createdAt] null ([Date.prototype.toJSON] of an Invalid
    Date, which runs before the replacer).  The second call, with the same
    content, cannot read the collection any more: it throws [NOT_FOUND]
    for the memo just updated, and its [updatedAt] does not advance. *)
Lemma updateMemo_second_call_not_found :
  let st1 := snd (MemoStorage.updateMemo Sample.host Sample.idA (Some "x") 20
                    SampleStores.undated) in
  fst (MemoStorage.getMemoById Sample.host Sample.idA SampleStores.undated) =
  Ok (Some (mkMemo Sample.idA "a" InvalidDate (ValidDate 10))) /\
  MemoStorage.updateMemo Sample.host Sample.idA (Some "x") 20 SampleStores.undated =
  (Ok tt,
   Sample.storeOf
     [JObj [("id", JStr Sample.idA); ("content", JStr "x");
            ("createdAt", JNull); ("updatedAt", JStr "20")];
      Sample.record Sample.idB "b" "2" "5"]) /\
  MemoStorage.updateMemo Sample.host Sample.idA (Some "x") 30 st1 =
  (Throw notFound, st1) /\
  thrownType (fst (MemoStorage.getMemos Sample.host st1)) = Some UNKNOWN.
Proof. repeat split; reflexivity. Qed.

(* ================================================================== *)
(** ** hooks/useMemos.ts: the Markdown export *)

Lemma firstLine_spec (text : string) : isFirstLineOf (Str.firstLine text) text.
Proof.
  unfold isFirstLineOf, UseMemos.LF.
  induction text as [|c r [IHno IHsplit]]; simpl.
  - split; [reflexivity | now left].
  - destruct (Ascii.eqb c "010") eqn:E.
    + apply Ascii.eqb_eq in E. subst c. split; [reflexivity|].
      right. exists r. reflexivity.
    + split.
      * simpl. rewrite E. simpl. exact IHno.
      * destruct IHsplit as [Heq | [more Heq]].
        -- left. now rewrite <- Heq.
        -- right. exists more. now rewrite Heq at 1.
Qed.

(** C4 (as the code has it).  The Markdown export is the memos' sections
    joined by line feeds.  A section's heading is the first line of the
    content (the text before the first line feed), or the placeholder when
    that line is empty; its body is the whole content; its trailer is the
    locale's rendering of [updatedAt]. *)
Theorem exportMemos_markdown (h : Host) (memos : list Memo) :
  UseMemos.exportMemos h memos UseMemos.markdown_format =
  Str.join UseMemos.LF (map (UseMemos.markdownSection h) memos) /\
  forall memo,
  exists line,
    isFirstLineOf line (content memo) /\
    UseMemos.markdownSection h memo =
    "# " ++ match line with
            | EmptyString => UseMemos.UNTITLED
            | _ => line
            end ++ UseMemos.LF ++ UseMemos.LF ++
    content memo ++ UseMemos.LF ++ UseMemos.LF ++
    "*更新日: " ++ Date_toLocaleDateString h (updatedAt memo) ++ "*" ++
    UseMemos.LF ++ UseMemos.LF ++ "---" ++ UseMemos.LF.
Proof.
  split; [reflexivity|].
  intros memo. exists (Str.firstLine (content memo)). split.
  - apply firstLine_spec.
  - unfold UseMemos.markdownSection, UseMemos.title.
    destruct (Str.firstLine (content memo)); reflexivity.
Qed.

(** C4 as the specification states it does not hold: the content is an
    empty line followed by "Hello".  Its first non-blank line is "Hello"
    and the content is not blank, yet the exported heading is the
    placeholder. *)
Lemma exportMemos_heading_not_first_nonblank :
  UseMemos.exportMemos Sample.host
    [mkMemo Sample.idA (UseMemos.LF ++ "Hello") (ValidDate 1) (ValidDate 2)]
    UseMemos.markdown_format =
  "# " ++ UseMemos.UNTITLED ++ UseMemos.LF ++ UseMemos.LF ++
  (UseMemos.LF ++ "Hello") ++ UseMemos.LF ++ UseMemos.LF ++
  "*更新日: 2*" ++ UseMemos.LF ++ UseMemos.LF ++ "---" ++ UseMemos.LF /\
  Claimed.heading UseMemos.UNTITLED (UseMemos.LF ++ "Hello") = "Hello" /\
  Str.whitespaceOnly (UseMemos.LF ++ "Hello") = false.
Proof. repeat split; reflexivity. Qed.

(* ================================================================== *)
(** ** hooks/useAutoSave.ts: the retry budget *)

Section Retry.
Import AutoSave.
Variable delay : Z.
Variable maxRetries : nat.

#[local] Abbreviation step := (step delay maxRetries).
#[local] Abbreviation run := (run delay maxRetries).

Lemma run_app (s : State) (es1 es2 : list Event) :
  run s (es1 ++ es2)%list = run (run s es1) es2.
Proof. unfold AutoSave.run. apply fold_left_app. Qed.

Lemma repeat_snoc {A : Type} (x : A) (k : nat) :
  (repeat x k ++ [x])%list = repeat x (S k).
Proof. induction k as [|k IH]; [reflexivity|]. simpl in *. now rewrite IH. Qed.

Lemma chain_rerender (c : Closure) (d : string) (log : list string) (k : nat)
      (b : bool) (s : State) (en : bool) :
  Chain c d log k b s -> Chain c d log k b (step s (Render d en)).
Proof.
  intros H. simpl. unfold render.
  inversion H as [? ? Hf Hs Ht Hr Hd Hl Hc | ? ? Hf Hs Ht Hr Hd Hl Hst Hc]; subst;
    rewrite String.eqb_refl, orb_true_r;
    [apply chain_in_flight | apply chain_waiting]; simpl; auto;
    rewrite Hd; now destruct (cleanup s).
Qed.

Lemma atRest_rerender (d : string) (s : State) (en : bool) :
  atRest d s -> atRest d (step s (Render d en)) /\
                committed (step s (Render d en)) = committed s /\
                saveStatus (step s (Render d en)) = saveStatus s /\
                retryCount (step s (Render d en)) = retryCount s.
Proof.
  intros (Hf & Ht & Hd & Hl & Hst). simpl. unfold render. subst d.
  rewrite String.eqb_refl, orb_true_r. simpl. repeat split; auto.
  rewrite Hd. now destruct (cleanup s).
Qed.

(** A failure of the attempt in flight: a retry is scheduled while the
    budget lasts; the last failure ends in [error]. *)
Lemma chain_failure (c : Closure) (d : string) (log : list string) (k : nat)
      (s : State) (now : Z) :
  Chain c d log k true s ->
  let s' := step s (Settles 0 false now) in
  if Nat.ltb k maxRetries
  then Chain c d log k false s'
  else atRest d s' /\ saveStatus s' = error /\ retryCount s' = 0 /\
       committed s' = (log ++ repeat (payload c) k)%list.
Proof.
  intros H. inversion H as [? ? Hf Hs Ht Hr Hd Hl Hc | ]; subst.
  simpl. rewrite Hf. unfold resume. simpl.
  destruct (Nat.ltb (retryCount s) maxRetries) eqn:E.
  - apply chain_waiting; simpl; auto. now rewrite Ht.
  - unfold atRest. simpl. repeat split; auto. discriminate.
Qed.

Lemma chain_retry (c : Closure) (d : string) (log : list string) (k : nat)
      (s : State) :
  enabled c = true ->
  Chain c d log k false s ->
  Chain c d log (S k) true (step s (RetryFires 0)).
Proof.
  intros Hen H. inversion H as [ | ? ? Hf Hs Ht Hr Hd Hl Hst Hc]; subst.
  simpl. rewrite Ht. unfold callPerformSave. simpl. rewrite Hs, Hen. simpl.
  apply chain_in_flight; simpl; auto.
  - now rewrite Hf.
  - rewrite Hc, <- app_assoc. now rewrite repeat_snoc.
Qed.

(** The events of a chain, with re-renders anywhere between them. *)
Lemma chain_run (c : Closure) (d : string) (log : list string) (nows : list Z) :
  enabled c = true ->
  forall (events : list Event) (k : nat) (s : State) (now : Z),
    Forall (rerenderOf d) events ->
    filter (fun e => negb (isRender e)) events = failures now nows ->
    k + List.length nows = maxRetries ->
    Chain c d log k true s ->
    let s' := run s events in
    atRest d s' /\ saveStatus s' = error /\ retryCount s' = 0 /\
    committed s' = (log ++ repeat (payload c) maxRetries)%list.
Proof.
  intros Hen.
  (* re-renders are skipped, whatever the phase *)
  assert (Hskip : forall events k b s,
            Forall (rerenderOf d) events -> Chain c d log k b s ->
            forall rest, filter (fun e => negb (isRender e)) events = rest ->
            exists pre post,
              events = (pre ++ post)%list /\
              Chain c d log k b (run s pre) /\
              filter (fun e => negb (isRender e)) post = rest /\
              match rest with
              | [] => True
              | e :: _ => exists post', post = e :: post'
              end).
  { induction events as [|e events IH]; intros k b s Hall Hch rest Hrest; subst rest.
    - exists [], []. simpl. auto.
    - inversion Hall as [|? ? He Hall']; subst.
      destruct e as [data en | | i | i ok t | | | | ].
      2-8: (eexists [], _; split; [reflexivity|]; split; [exact Hch|];
            split; [reflexivity|]; simpl; eauto).
      simpl in He. subst data.
      destruct (IH k b (step s (Render d en)) Hall'
                   (chain_rerender _ _ _ _ _ _ _ Hch) _ eq_refl)
        as (pre & post & -> & Hch' & Hf & Hhead).
      exists (Render d en :: pre), post.
      split; [reflexivity|]. split; [exact Hch'|]. split; [exact Hf | exact Hhead]. }
  (* at rest, re-renders change nothing *)
  assert (Hrest : forall events s,
            Forall (rerenderOf d) events ->
            filter (fun e => negb (isRender e)) events = [] ->
            atRest d s ->
            atRest d (run s events) /\ committed (run s events) = committed s /\
            saveStatus (run s events) = saveStatus s /\
            retryCount (run s events) = retryCount s).
  { induction events as [|e events IH]; intros s Hall Hf Hs; [simpl; auto|].
    inversion Hall as [|? ? He Hall']; subst.
    destruct e as [data en | | i | i ok t | | | | ]; simpl in Hf; try discriminate.
    simpl in He. subst data.
    destruct (atRest_rerender d s en Hs) as (Hs' & Hc & Hst & Hrc).
    destruct (IH _ Hall' Hf Hs') as (H1 & H2 & H3 & H4).
    change (run s (Render d en :: events))
      with (run (step s (Render d en)) events).
    split; [exact H1|]. repeat split; congruence. }
  induction nows as [|t nows IH]; intros events k s now Hall Hfilter Hlen Hch.
  - simpl in Hlen. rewrite Nat.add_0_r in Hlen. subst k.
    destruct (Hskip events _ _ s Hall Hch _ Hfilter)
      as (pre & post & -> & Hch' & Hf & [post' ->]).
    simpl. rewrite run_app. change (run (run s pre) (Settles 0 false now :: post'))
      with (run (step (run s pre) (Settles 0 false now)) post').
    pose proof (chain_failure _ _ _ _ _ now Hch') as Hfail. cbv zeta in Hfail.
    rewrite Nat.ltb_irrefl in Hfail. destruct Hfail as (Hr & Hst & Hrc & Hc).
    apply Forall_app in Hall as [_ Hall]. apply Forall_cons_iff in Hall as [_ Hall'].
    simpl in Hf. injection Hf as Hf.
    destruct (Hrest post' _ Hall' Hf Hr) as (H1 & H2 & H3 & H4).
    split; [exact H1|]. repeat split; congruence.
  - simpl in Hlen.
    destruct (Hskip events _ _ s Hall Hch _ Hfilter)
      as (pre & post & -> & Hch' & Hf & [post' ->]).
    rewrite run_app. change (run (run s pre) (Settles 0 false now :: post'))
      with (run (step (run s pre) (Settles 0 false now)) post').
    pose proof (chain_failure _ _ _ _ _ now Hch') as Hfail. cbv zeta in Hfail.
    replace (Nat.ltb k maxRetries) with true in Hfail
      by (symmetry; apply Nat.ltb_lt; lia).
    apply Forall_app in Hall as [_ Hall]. apply Forall_cons_iff in Hall as [_ Hall'].
    simpl in Hf. injection Hf as Hf.
    destruct (Hskip post' _ _ _ Hall' Hfail _ Hf)
      as (pre2 & post2 & -> & Hch2 & Hf2 & [post2' ->]).
    rewrite run_app. change (run ?x (RetryFires 0 :: post2'))
      with (run (step x (RetryFires 0)) post2').
    apply Forall_app in Hall' as [_ Hall2]. apply Forall_cons_iff in Hall2 as [_ Hall2'].
    simpl in Hf2. injection Hf2 as Hf2.
    apply (IH post2' (S k) _ t Hall2' Hf2); [lia|].
    now apply chain_retry.
Qed.

End Retry.

Section RetryTheorems.
Import AutoSave.
Variable delay : Z.
Variable maxRetries : nat.

#[local] Abbreviation step := (step delay maxRetries).
#[local] Abbreviation run := (run delay maxRetries).

(** At rest nothing starts an attempt except an edit or [save()]. *)
Lemma atRest_automatic (d : string) (events : list Event) (s : State) :
  atRest d s -> Forall (automatic d) events ->
  atRest d (run s events) /\ committed (run s events) = committed s.
Proof.
  revert s. induction events as [|e events IH]; intros s Hs Hall; [simpl; auto|].
  apply Forall_cons_iff in Hall as [He Hall].
  assert (Hstep : atRest d (step s e) /\ committed (step s e) = committed s).
  { destruct Hs as (Hf & Ht & Hd & Hl & Hst).
    destruct e as [data en | | i | i ok t | | | | ]; simpl in He.
    - subst data. subst d.
      destruct (atRest_rerender delay maxRetries (lastData s) s en) as (H1 & H2 & _);
        [unfold atRest; repeat split; auto|]. split; [exact H1 | exact H2].
    - simpl. rewrite Hd. unfold atRest. repeat split; auto.
    - simpl. rewrite Ht. destruct i; simpl; unfold atRest; repeat split; auto.
    - simpl. rewrite Hf. destruct i; simpl; unfold atRest; repeat split; auto.
    - contradiction.
    - simpl. unfold atRest, reset. simpl. repeat split; auto. discriminate.
    - simpl. unfold leaving.
      destruct (saveStatus s) eqn:Est; try congruence; simpl;
        unfold atRest; repeat split; auto; rewrite Est; discriminate.
    - simpl. unfold leaving.
      destruct (saveStatus s) eqn:Est; try congruence; simpl;
        unfold atRest; repeat split; auto; rewrite Est; discriminate. }
  destruct Hstep as [Hs' Hc].
  destruct (IH _ Hs' Hall) as [H1 H2].
  change (run s (e :: events)) with (run (step s e) events).
  split; [exact H1 | congruence].
Qed.

(** C5 (as the code has it).  An attempt is in flight with a fresh retry
    budget.  It fails, and so does each of its [maxRetries] retries
    ([maxRetries + 1] consecutive failures), with nothing but re-renders
    in between.  Then the status is [error], the retry counter is zero,
    exactly [maxRetries] retries were made, and whatever happens next
    short of an edit or a call of [save()] starts no further attempt. *)
Theorem retries_exhausted (c : Closure) (s : State) (now : Z) (nows : list Z)
        (events : list Event) :
  attempting c s ->
  List.length nows = maxRetries ->
  Forall (rerenderOf (lastData s)) events ->
  filter (fun e => negb (isRender e)) events = failures now nows ->
  let s' := run s events in
  saveStatus s' = error /\
  retryCount s' = 0 /\
  committed s' = (committed s ++ repeat (payload c) maxRetries)%list /\
  forall more,
    Forall (automatic (lastData s)) more ->
    committed (run s' more) = committed s'.
Proof.
  intros (Hf & Hs & Hen & Hr & Ht & Hd) Hlen Hall Hfilter s'.
  assert (Hch : Chain c (lastData s) (committed s) 0 true s).
  { apply chain_in_flight; auto. simpl. now rewrite app_nil_r. }
  destruct (chain_run delay maxRetries c (lastData s) (committed s) nows Hen
              events 0 s now Hall Hfilter Hlen Hch) as (Hrest & Hst & Hrc & Hc).
  repeat split; auto.
  intros more Hmore. now apply atRest_automatic with (d := lastData s).
Qed.

(** The closure of the latest render and the pending debounce timer both
    carry the value last observed: an attempt that the debounce timer or
    [save()] starts commits that value. *)
Lemma latest_closure_fresh (s : State) :
  Reachable delay maxRetries s ->
  payload (performSave s) = lastData s /\
  forall t, debounceTimer s = Some t ->
            payload (callback t) = lastData s /\ cleanup s = true.
Proof.
  induction 1 as [data en | s e _ [IH1 IH2]].
  - simpl. split; [reflexivity | discriminate].
  - destruct e as [data en | | i | i ok t | | | | ]; simpl.
    + unfold render.
      destruct (negb en || String.eqb data (lastData s)) eqn:E; simpl.
      * split; [reflexivity|]. intros t Ht.
        destruct (cleanup s) eqn:Hc; [discriminate|].
        destruct (IH2 _ Ht) as [_ Hc']. congruence.
      * split; [reflexivity|]. intros t Ht. injection Ht as <-. auto.
    + destruct (debounceTimer s) as [t0|] eqn:Ht0;
        [|split; [exact IH1 | rewrite Ht0; discriminate]].
      unfold callPerformSave. simpl.
      destruct (isSaving s || negb (enabled (callback t0))); simpl;
        (split; [exact IH1 | discriminate]).
    + destruct (nth_error (retryTimers s) i) as [t0|]; [|now split].
      unfold callPerformSave. simpl.
      destruct (isSaving s || negb (enabled (callback t0))); simpl; now split.
    + destruct (nth_error (inFlight s) i) as [c0|]; [|now split].
      unfold resume. simpl.
      destruct ok; [simpl; now split|].
      destruct (Nat.ltb (retryCount s) maxRetries); simpl; now split.
    + unfold save, callPerformSave. simpl.
      destruct (isSaving s || negb (enabled (performSave s))); simpl;
        (split; [exact IH1 | discriminate]).
    + split; [exact IH1 | discriminate].
    + unfold leaving, callPerformSave.
      destruct (SaveStatus_eqb (saveStatus s) typing && enabled (performSave s));
        [|now split].
      destruct (isSaving s || negb (enabled (performSave s))); simpl; now split.
    + unfold leaving, callPerformSave.
      destruct (SaveStatus_eqb (saveStatus s) typing && enabled (performSave s));
        [|now split].
      destruct (isSaving s || negb (enabled (performSave s))); simpl; now split.
Qed.

Lemma debounce_commits_latest (s : State) :
  Reachable delay maxRetries s ->
  committed (step s DebounceFires) = committed s \/
  committed (step s DebounceFires) = (committed s ++ [lastData s])%list.
Proof.
  intros Hs. destruct (latest_closure_fresh s Hs) as [_ H]. simpl.
  destruct (debounceTimer s) as [t|]; [|now left].
  destruct (H t eq_refl) as [Hp _]. unfold callPerformSave. simpl.
  destruct (isSaving s || negb (enabled (callback t))); simpl; [now left|].
  right. now rewrite Hp.
Qed.

Lemma save_commits_latest (s : State) :
  Reachable delay maxRetries s ->
  committed (step s Save) = committed s \/
  committed (step s Save) = (committed s ++ [lastData s])%list.
Proof.
  intros Hs. destruct (latest_closure_fresh s Hs) as [Hp _]. simpl.
  unfold save, callPerformSave. simpl.
  destruct (isSaving s || negb (enabled (performSave s))); simpl; [now left|].
  right. now rewrite Hp.
Qed.

End RetryTheorems.

(* ================================================================== *)
(** ** hooks/useAutoSave.ts: a session of app/page.tsx *)

Section Session.
Import AutoSave.

(** An instance, with the default [maxRetries = 3]:
    the attempt started by the debounce timer and its three retries fail. *)
Lemma retries_exhausted_witness :
  let s := run DEBOUNCE_DELAY 3 (mount "x" true)
             [Render "a" true; Render "a" true; Render "ab" true; DebounceFires] in
  let s' := run DEBOUNCE_DELAY 3 s
              [Render "ab" true; Settles 0 false 1; RetryFires 0; Settles 0 false 2;
               RetryFires 0; Settles 0 false 3; RetryFires 0; Settles 0 false 4] in
  saveStatus s' = error /\
  retryCount s' = 0 /\
  committed s' = (committed s ++ repeat "ab" 3)%list /\
  forall more,
    Forall (automatic "ab") more ->
    committed (run DEBOUNCE_DELAY 3 s' more) = committed s'.
Proof.
  apply (retries_exhausted DEBOUNCE_DELAY 3 (mkClosure "ab" true)
           (run DEBOUNCE_DELAY 3 (mount "x" true)
              [Render "a" true; Render "a" true; Render "ab" true; DebounceFires])
           1 [2; 3; 4]%Z).
  - repeat split; reflexivity.
  - reflexivity.
  - repeat constructor.
  - reflexivity.
Defined.

(** C5 as the specification states it does not hold.  With
    [maxRetries = 3], after three consecutive failures the status is
    [saving], not [error]; the counter is at 3, a retry is pending, and
    when its timer fires a fourth attempt starts by itself, which may well
    succeed. *)
Lemma three_failures_do_not_exhaust :
  let s := run DEBOUNCE_DELAY 3 (mount "x" true)
             (typedAndFired ++
              [Settles 0 false 1; RetryFires 0; Settles 0 false 2;
               RetryFires 0; Settles 0 false 3])%list in
  saveStatus s = saving /\
  retryCount s = 3 /\
  retryTimers s = [mkTimer (mkClosure "ab" true) 4000] /\
  committed s = ["ab"; "ab"; "ab"] /\
  committed (step DEBOUNCE_DELAY 3 s (RetryFires 0)) = ["ab"; "ab"; "ab"; "ab"] /\
  saveStatus (run DEBOUNCE_DELAY 3 s [RetryFires 0; Settles 0 true 4]) = saved.
Proof. repeat split; reflexivity. Qed.

(** The conditions of C5 are needed.  The first attempt and two retries
    have failed and the third retry waits its 4000 ms, when an edit is
    made.  Its debounce timer (3000 ms) fires first and starts an attempt
    of its own on the same counter; the failure of that attempt, the
    fourth in a row, finds the budget used up: the status is [error] and
    the counter zero.  But the retry timer is still pending, and when it
    fires a further attempt starts by itself, committing the value of
    before the edit. *)
Example edit_during_retries :
  let s := run DEBOUNCE_DELAY 3 (mount "x" true)
             (typedAndFired ++
              [Settles 0 false 1; RetryFires 0; Settles 0 false 2;
               RetryFires 0; Settles 0 false 3;
               Render "abc" true; DebounceFires; Settles 0 false 4])%list in
  saveStatus s = error /\
  retryCount s = 0 /\
  retryTimers s = [mkTimer (mkClosure "ab" true) 4000] /\
  inFlight s = [] /\
  committed s = ["ab"; "ab"; "ab"; "abc"] /\
  committed (step DEBOUNCE_DELAY 3 s (RetryFires 0)) =
  ["ab"; "ab"; "ab"; "abc"; "ab"].
Proof. repeat split; reflexivity. Qed.

(** C2 does not hold of the code.  The first attempt commits "ab" and
    fails; "c" is typed while the retry waits; the retry timer (1000 ms)
    fires before the new debounce timer (3000 ms) and calls the closure
    that scheduled it, whose [onSave] still holds "ab": the second payload
    committed is not the latest observed value "abc". *)
Lemma retry_commits_stale_value :
  let s := run DEBOUNCE_DELAY 3 (mount "x" true)
             (typedAndFired ++
              [Settles 0 false 1; Render "abc" true; RetryFires 0])%list in
  lastData s = "abc" /\
  committed s = ["ab"; "ab"] /\
  debounceTimer s = Some (mkTimer (mkClosure "abc" true) DEBOUNCE_DELAY).
Proof. repeat split; reflexivity. Qed.

End Session.

(* ================================================================== *)
(** ** utils/storage.ts: the other methods *)

Section StorageMethods.
Variable h : Host.
Import MemoStorage.

(** The outcome of [saveMemos], once more, with the size it checked. *)
Lemma saveMemos_outcome (ms : list Memo) (st : Storage) :
  (saveMemos h ms st = (Ok tt, stored h ms st) /\
   (blobSize (textOf (written h ms)) <= STORAGE_QUOTA_LIMIT)%N) \/
  (exists cause,
     saveMemos h ms st =
     (Throw (StorageError QUOTA_EXCEEDED ERROR_MESSAGES.STORAGE_QUOTA_EXCEEDED cause), st)).
Proof.
  rewrite saveMemos_eq.
  destruct (STORAGE_QUOTA_LIMIT <? _)%N eqn:E; [right; eauto|].
  apply N.ltb_ge in E.
  destruct (hostAccepts st _); [left; auto | right; eauto].
Qed.

(** What [getMemos] throws. *)
Lemma getMemos_outcome (st : Storage) :
  (exists memos, getMemos h st = (Ok memos, st)) \/
  (exists cause,
     getMemos h st =
     (Throw (StorageError PARSE_ERROR ERROR_MESSAGES.STORAGE_PARSE_ERROR cause), st)) \/
  (exists cause,
     getMemos h st =
     (Throw (StorageError UNKNOWN ERROR_MESSAGES.UNKNOWN_ERROR cause), st)).
Proof.
  unfold getMemos, tryCatch.
  destruct (getItem STORAGE_KEY st) as [data|]; [|left; eexists; reflexivity].
  destruct (Str.falsy (textOf data)); [left; eexists; reflexivity|].
  unfold bind, lift. destruct data as [s|j]; simpl.
  - right. left. eexists. reflexivity.
  - destruct j as [| b | n | s | arr | fs]; simpl;
      try (right; right; eexists; reflexivity).
    destruct (mapThrowing h arr) as [e|memos] eqn:E; simpl.
    + rewrite (mapThrowing_throws h _ _ E). right. right. eexists. reflexivity.
    + left. eexists. reflexivity.
Qed.

(** [saveMemo] and [deleteMemo], case by case. *)
Lemma saveMemo_eq (memo : Memo) (st : Storage) :
  saveMemo h memo st =
  match fst (getMemos h st) with
  | inl e => (Throw e, st)
  | inr memos =>
      let existingIndex := findIndex (hasId (id memo)) memos in
      saveMemos h
        (if (0 <=? existingIndex)%Z
         then assign (Z.to_nat existingIndex) memo memos
         else (memos ++ [memo])%list) st
  end.
Proof.
  unfold saveMemo, tryCatch at 1, bind.
  destruct (getMemos_outcome st) as [[memos E] | [[cause E] | [cause E]]];
    rewrite E; simpl; try reflexivity.
  change (fun m : Memo => String.eqb (id m) (id memo)) with (hasId (id memo)).
  pose proof (rethrow_saveMemos h ERROR_MESSAGES.SAVE_FAILED
    (if (0 <=? findIndex (hasId (id memo)) memos)%Z
     then assign (Z.to_nat (findIndex (hasId (id memo)) memos)) memo memos
     else (memos ++ [memo])%list) st) as R.
  unfold tryCatch in R. exact R.
Qed.

Lemma deleteMemo_eq (id' : string) (st : Storage) :
  deleteMemo h id' st =
  if negb (isValidId id') then (Throw notFound, st)
  else
    match fst (getMemos h st) with
    | inl e => (Throw e, st)
    | inr memos =>
        let kept := filter (fun memo => negb (hasId id' memo)) memos in
        if Nat.eqb (List.length kept) (List.length memos)
        then (Throw notFound, st)
        else saveMemos h kept st
    end.
Proof.
  unfold deleteMemo, tryCatch at 1.
  destruct (negb (isValidId id')); [reflexivity|].
  unfold bind.
  destruct (getMemos_outcome st) as [[memos E] | [[cause E] | [cause E]]];
    rewrite E; simpl; try reflexivity.
  change (fun memo : Memo => negb (String.eqb (id memo) id'))
    with (fun memo : Memo => negb (hasId id' memo)).
  destruct (Nat.eqb _ _); [reflexivity|].
  pose proof (rethrow_saveMemos h ERROR_MESSAGES.DELETE_FAILED
    (filter (fun memo => negb (hasId id' memo)) memos) st) as R.
  unfold tryCatch in R. exact R.
Qed.

Lemma updateMemo_eq (id' : string) (updates : option string) (now : Z) (st : Storage) :
  updateMemo h id' updates now st =
  match fst (getMemos h st) with
  | inl _ => (Throw notFound, st)
  | inr memos =>
      if isValidId id' then
        match find (hasId id') memos with
        | Some existing =>
            saveMemos h
              (assign (Z.to_nat (findIndex (hasId id') memos))
                 (patched existing updates now) memos) st
        | None => (Throw notFound, st)
        end
      else (Throw notFound, st)
  end.
Proof.
  destruct (fst (getMemos h st)) as [e|memos] eqn:Hread.
  - apply updateMemo_not_found. now rewrite Hread.
  - destruct (isValidId id') eqn:Hid.
    + destruct (find (hasId id') memos) as [existing|] eqn:Hfind.
      * now apply updateMemo_found.
      * apply updateMemo_not_found. now rewrite Hread, Hid.
    + apply updateMemo_not_found. now rewrite Hread, Hid.
Qed.

Lemma createMemo_eq (content' : string) (now : Z) (newId : string) (st : Storage) :
  createMemo h content' now newId st =
  match saveMemo h (mkMemo newId content' (ValidDate now) (ValidDate now)) st with
  | (inl e, st') => (Throw e, st')
  | (inr _, st') => (Ok (mkMemo newId content' (ValidDate now) (ValidDate now)), st')
  end.
Proof. unfold createMemo, bind, ret. now destruct (saveMemo h _ st) as [[e|[]] st']. Qed.

End StorageMethods.

Section StorageGuarantees.
Variable h : Host.
Import MemoStorage.

(** X1. After [clearAll] the collection reads as empty, not as an error,
    its size is 0, and the other keys of [localStorage] are untouched. *)
Theorem clearAll_then_empty (st : Storage) :
  let st' := snd (clearAll st) in
  fst (clearAll st) = Ok tt /\
  getMemos h st' = (Ok [], st') /\
  getStorageSize st' = (Ok 0%N, st') /\
  forall key, key <> STORAGE_KEY -> getItem key st' = getItem key st.
Proof.
  simpl. unfold removeItem.
  assert (Hnone : getItem STORAGE_KEY
                    (mkStorage (remove STORAGE_KEY (items st)) (hostQuota st)) = None)
    by apply assoc_remove_same.
  repeat split.
  - unfold getMemos, tryCatch. now rewrite Hnone.
  - unfold getStorageSize. now rewrite Hnone.
  - intros key Hne. now apply assoc_remove_other.
Qed.

(** X2. What the methods throw.  Every error is a [StorageError].
    [getMemos] gives [PARSE_ERROR] or [UNKNOWN]; [saveMemo], [createMemo]
    and [deleteMemo] pass these on and add [QUOTA_EXCEEDED] (and
    [NOT_FOUND] for [deleteMemo]); [updateMemo] looks the memo up through
    [getMemoById], so a collection that cannot be read is reported as
    [NOT_FOUND], never as [PARSE_ERROR] or [UNKNOWN]. *)
Theorem storage_error_kinds (st : Storage) (memo : Memo) (id' content' newId : string)
        (updates : option string) (now : Z) :
  throwsOnly [PARSE_ERROR; UNKNOWN] (fst (getMemos h st)) /\
  throwsOnly [PARSE_ERROR; UNKNOWN; QUOTA_EXCEEDED] (fst (saveMemo h memo st)) /\
  throwsOnly [PARSE_ERROR; UNKNOWN; QUOTA_EXCEEDED]
    (fst (createMemo h content' now newId st)) /\
  throwsOnly [NOT_FOUND; PARSE_ERROR; UNKNOWN; QUOTA_EXCEEDED]
    (fst (deleteMemo h id' st)) /\
  throwsOnly [NOT_FOUND; QUOTA_EXCEEDED] (fst (updateMemo h id' updates now st)).
Proof.
  assert (Hsave : forall ms, throwsOnly [QUOTA_EXCEEDED] (fst (saveMemos h ms st))).
  { intros ms. destruct (saveMemos_outcome h ms st) as [[-> _] | [cause ->]]; simpl; auto. }
  assert (Hweaken : forall (r : result unit) ks ks',
             incl ks ks' -> throwsOnly ks r -> throwsOnly ks' r).
  { intros [[| | | t m c]|u] ks ks' Hincl; simpl; auto. }
  assert (Hread : throwsOnly [PARSE_ERROR; UNKNOWN] (fst (getMemos h st))).
  { destruct (getMemos_outcome h st) as [[memos ->] | [[cause ->] | [cause ->]]];
      simpl; auto. }
  assert (HsaveMemo : forall m,
             throwsOnly [PARSE_ERROR; UNKNOWN; QUOTA_EXCEEDED] (fst (saveMemo h m st))).
  { intros m. rewrite saveMemo_eq.
    destruct (fst (getMemos h st)) as [e|memos] eqn:E.
    - simpl. destruct e as [| | | t msg c]; simpl in *; intuition.
    - eapply Hweaken; [|apply Hsave]. intros k [<-|[]]. simpl. auto. }
  split; [exact Hread|]. split; [apply HsaveMemo|]. split; [|split].
  - rewrite createMemo_eq.
    specialize (HsaveMemo (mkMemo newId content' (ValidDate now) (ValidDate now))).
    destruct (saveMemo h _ st) as [[e|u] st']; simpl in *; auto.
  - rewrite deleteMemo_eq.
    destruct (negb (isValidId id')); [simpl; auto|].
    destruct (fst (getMemos h st)) as [e|memos] eqn:E.
    + simpl. destruct e as [| | | t msg c]; simpl in *; intuition.
    + cbv zeta. destruct (Nat.eqb _ _); [simpl; auto|].
      eapply Hweaken; [|apply Hsave]. intros k [<-|[]]. simpl. auto.
  - rewrite updateMemo_eq.
    destruct (fst (getMemos h st)) as [e|memos]; [simpl; auto|].
    destruct (isValidId id'); [|simpl; auto].
    destruct (find (hasId id') memos); [|simpl; auto].
    eapply Hweaken; [|apply Hsave]. intros k [<-|[]]. simpl. auto.
Qed.

(** X3. All or nothing: a call of [saveMemo], [createMemo], [deleteMemo]
    or [updateMemo] that throws leaves [localStorage] exactly as it was. *)
Theorem failed_call_writes_nothing (st : Storage) (memo : Memo)
        (id' content' newId : string) (updates : option string) (now : Z) :
  rollsBack st (saveMemo h memo st) /\
  rollsBack st (createMemo h content' now newId st) /\
  rollsBack st (deleteMemo h id' st) /\
  rollsBack st (updateMemo h id' updates now st).
Proof.
  assert (Hsave : forall ms, rollsBack st (saveMemos h ms st)).
  { intros ms. destruct (saveMemos_outcome h ms st) as [[-> _] | [cause ->]]; simpl; auto. }
  assert (HsaveMemo : forall m, rollsBack st (saveMemo h m st)).
  { intros m. rewrite saveMemo_eq.
    destruct (fst (getMemos h st)); [reflexivity | apply Hsave]. }
  split; [apply HsaveMemo|]. split; [|split].
  - rewrite createMemo_eq.
    specialize (HsaveMemo (mkMemo newId content' (ValidDate now) (ValidDate now))).
    destruct (saveMemo h _ st) as [[e|u] st']; simpl in *; auto.
  - rewrite deleteMemo_eq.
    destruct (negb (isValidId id')); [reflexivity|].
    destruct (fst (getMemos h st)); [reflexivity|].
    cbv zeta. destruct (Nat.eqb _ _); [reflexivity | apply Hsave].
  - rewrite updateMemo_eq.
    destruct (fst (getMemos h st)); [reflexivity|].
    destruct (isValidId id'); [|reflexivity].
    destruct (find (hasId id') _); [apply Hsave | reflexivity].
Qed.

(** X4. Whatever a successful [saveMemo], [createMemo], [deleteMemo] or
    [updateMemo] leaves in [localStorage] is a serialized collection of at
    most [STORAGE_QUOTA_LIMIT] bytes, and [getStorageSize] reports its
    size. *)
Theorem stored_size_within_quota (st : Storage) (memo : Memo)
        (id' content' newId : string) (updates : option string) (now : Z) :
  writesWithinQuota h st (saveMemo h memo st) /\
  writesWithinQuota h st (createMemo h content' now newId st) /\
  writesWithinQuota h st (deleteMemo h id' st) /\
  writesWithinQuota h st (updateMemo h id' updates now st) /\
  forall memos,
    getStorageSize (stored h memos st) =
    (Ok (blobSize (textOf (written h memos))), stored h memos st).
Proof.
  assert (Hsave : forall ms, writesWithinQuota h st (saveMemos h ms st)).
  { intros ms. destruct (saveMemos_outcome h ms st) as [[-> Hle] | [cause ->]];
      simpl; eauto. }
  assert (HsaveMemo : forall m, writesWithinQuota h st (saveMemo h m st)).
  { intros m. rewrite saveMemo_eq.
    destruct (fst (getMemos h st)); [exact I | apply Hsave]. }
  split; [apply HsaveMemo|]. split; [|split; [|split]].
  - rewrite createMemo_eq.
    specialize (HsaveMemo (mkMemo newId content' (ValidDate now) (ValidDate now))).
    destruct (saveMemo h _ st) as [[e|u] st']; simpl in *; auto.
  - rewrite deleteMemo_eq.
    destruct (negb (isValidId id')); [exact I|].
    destruct (fst (getMemos h st)); [exact I|].
    cbv zeta. destruct (Nat.eqb _ _); [exact I | apply Hsave].
  - rewrite updateMemo_eq.
    destruct (fst (getMemos h st)); [exact I|].
    destruct (isValidId id'); [|exact I].
    destruct (find (hasId id') _); [apply Hsave | exact I].
  - intros memos. reflexivity.
Qed.

End StorageGuarantees.

(* ================================================================== *)
(** ** utils/storage.ts: create, delete and update, read back *)

Section SortMore.
Import MemoStorage.

Lemma find_none_filter {A : Type} (p : A -> bool) (l : list A) :
  find p l = None -> filter p l = [].
Proof.
  induction l as [|x rest IH]; simpl; [reflexivity|].
  destruct (p x); [discriminate | exact IH].
Qed.

Lemma find_none_filter_negb {A : Type} (p : A -> bool) (l : list A) :
  find p l = None -> filter (fun x => negb (p x)) l = l.
Proof.
  induction l as [|x rest IH]; simpl; [reflexivity|].
  destruct (p x); [discriminate|]. simpl. intros H. now rewrite IH.
Qed.

(** A memo strictly newer than all the others, pushed at the end, is
    sorted to the front. *)
Lemma sort_push_newest (m : Memo) (l : list Memo) (now : Z) :
  getTime (updatedAt m) = Some now ->
  descending l ->
  Forall (fun x => exists t, getTime (updatedAt x) = Some t /\ (t < now)%Z) l ->
  sort byUpdatedAtDesc (l ++ [m]) = m :: l.
Proof.
  intros Hm Hs Hall. induction Hs as [|x rest Hrest IH Hx]; [reflexivity|].
  inversion Hall as [|? ? (t & Ht & Hlt) Hall']; subst.
  simpl. rewrite (IH Hall'). simpl.
  replace (0 <? compared byUpdatedAtDesc x m)%Z with true.
  2:{ symmetry. apply Z.ltb_lt. unfold compared, byUpdatedAtDesc.
      rewrite Hm, Ht. lia. }
  f_equal. destruct rest as [|y rest']; [reflexivity|]. simpl.
  inversion Hx as [|? ? Hxy _]; subst.
  replace (0 <? compared byUpdatedAtDesc x y)%Z with false; [reflexivity|].
  symmetry. apply Z.ltb_ge.
  unfold compared, byUpdatedAtDesc, notOlder in *.
  destruct (getTime (updatedAt x)), (getTime (updatedAt y)); try tauto. lia.
Qed.

End SortMore.

Section ReadBack.
Variable h : Host.
Hypothesis Date_roundtrip :
  forall ms, Date_parse h (Date_toISOString h ms) = ValidDate ms.
Import MemoStorage.

Lemma getMemos_sorted_valid (st : Storage) (l : list Memo) :
  fst (getMemos h st) = inr l -> Forall hasValidDates l -> descending l.
Proof.
  intros Hread Hvalid. apply dated_of_valid in Hvalid.
  destruct (getMemos_ok_inv h st l Hread) as [-> | (arr & parsed & _ & _ & ->)];
    [constructor|].
  apply sort_descending.
  eapply Permutation_Forall; [apply sort_perm | exact Hvalid].
Qed.

(** What the store lists after a successful [createMemo]. *)
Lemma createMemo_listing (content' newId : string) (now : Z)
      (st st' : Storage) (before : list Memo) (memo : Memo) :
  fst (getMemos h st) = inr before ->
  Forall hasValidDates before ->
  isValidId newId = true ->
  find (hasId newId) before = None ->
  createMemo h content' now newId st = (Ok memo, st') ->
  memo = mkMemo newId content' (ValidDate now) (ValidDate now) /\
  fst (getMemos h st') = inr (sort byUpdatedAtDesc (before ++ [memo])).
Proof.
  intros Hread Hvalid Hid Hfresh Hok.
  rewrite createMemo_eq, saveMemo_eq, Hread in Hok. simpl id in Hok. cbv zeta in Hok.
  rewrite (find_none_findIndex _ _ Hfresh) in Hok. simpl in Hok.
  set (m := mkMemo newId content' (ValidDate now) (ValidDate now)) in *.
  destruct (saveMemos_cases h (before ++ [m]) st) as [Hs | (e & Hs & _)];
    rewrite Hs in Hok; [|discriminate].
  injection Hok as <- <-. split; [reflexivity|].
  apply (getMemos_stored h Date_roundtrip).
  - apply Forall_app. split; [now apply (getMemos_ids h st)|]. now constructor.
  - apply forallb_dates. apply Forall_app. split; [exact Hvalid|].
    constructor; [|constructor]. split; discriminate.
Qed.

(** What the store lists after a successful [deleteMemo]. *)
Lemma deleteMemo_listing (id' : string) (st st' : Storage) (before : list Memo) :
  fst (getMemos h st) = inr before ->
  Forall hasValidDates before ->
  deleteMemo h id' st = (Ok tt, st') ->
  isValidId id' = true /\
  List.length (filter (fun m => negb (hasId id' m)) before) <> List.length before /\
  fst (getMemos h st') = inr (filter (fun m => negb (hasId id' m)) before).
Proof.
  intros Hread Hvalid Hok.
  rewrite deleteMemo_eq, Hread in Hok.
  destruct (isValidId id') eqn:Hid; simpl in Hok; [|discriminate].
  set (kept := filter (fun m => negb (hasId id' m)) before) in *.
  destruct (Nat.eqb (List.length kept) (List.length before)) eqn:Hlen; [discriminate|].
  destruct (saveMemos_cases h kept st) as [Hs | (e & Hs & _)];
    rewrite Hs in Hok; [|discriminate].
  injection Hok as <-.
  split; [reflexivity|]. split; [now apply Nat.eqb_neq|].
  assert (Hdesc : descending kept).
  { apply descending_filter. now apply (getMemos_sorted_valid st). }
  rewrite (getMemos_stored h Date_roundtrip).
  - now rewrite sort_of_descending.
  - rewrite Forall_forall. intros m Hm. apply filter_In in Hm as [Hm _].
    pose proof (getMemos_ids h st _ Hread) as Hall.
    rewrite Forall_forall in Hall. now apply Hall.
  - apply forallb_dates. rewrite Forall_forall. intros m Hm.
    apply filter_In in Hm as [Hm _]. rewrite Forall_forall in Hvalid. now apply Hvalid.
Qed.

(** What the store lists after a successful [updateMemo]. *)
Lemma updateMemo_listing (id' : string) (updates : option string) (now : Z)
      (st st' : Storage) (before : list Memo) :
  fst (getMemos h st) = inr before ->
  Forall hasValidDates before ->
  updateMemo h id' updates now st = (Ok tt, st') ->
  exists existing,
    isValidId id' = true /\
    find (hasId id') before = Some existing /\
    fst (getMemos h st') =
    inr (sort byUpdatedAtDesc
           (assign (Z.to_nat (findIndex (hasId id') before))
              (patched existing updates now) before)).
Proof.
  intros Hread Hvalid Hok.
  destruct (updateMemo_ok_inv h _ _ _ _ _ Hok)
    as (l & existing & Hread' & Hid & Hfind & ->).
  rewrite Hread in Hread'. injection Hread' as <-.
  exists existing. split; [exact Hid|]. split; [exact Hfind|].
  assert (Hin : In existing before) by (now apply find_some in Hfind).
  apply (getMemos_stored h Date_roundtrip).
  - apply Forall_assign; [now apply (getMemos_ids h st)|].
    simpl. pose proof (getMemos_ids h st _ Hread) as Hall.
    rewrite Forall_forall in Hall. now apply Hall.
  - apply forallb_dates. apply Forall_assign; [exact Hvalid|].
    apply hasValidDatesb_spec, hasValidDatesb_patched.
    rewrite Forall_forall in Hvalid. now apply Hvalid.
Qed.

(** X5. [createMemo] and read back.  On a readable collection with valid
    timestamps and a well-formed id that no record carries, a successful
    [createMemo] returns the memo [{id, content, createdAt: now,
    updatedAt: now}]; [getMemoById] then finds exactly this memo, the
    collection has one record more and the old records are unchanged, in
    their order; when [now] is later than every stored [updatedAt] the
    new memo is the first of the listing. *)
Theorem createMemo_read_back (content' newId : string) (now : Z)
        (st st' : Storage) (before : list Memo) (memo : Memo) :
  fst (getMemos h st) = inr before ->
  Forall hasValidDates before ->
  isValidId newId = true ->
  find (hasId newId) before = None ->
  createMemo h content' now newId st = (Ok memo, st') ->
  memo = mkMemo newId content' (ValidDate now) (ValidDate now) /\
  getMemoById h newId st' = (Ok (Some memo), st') /\
  exists after,
    fst (getMemos h st') = inr after /\
    Permutation after (memo :: before) /\
    filter (fun m => negb (hasId newId m)) after = before /\
    (Forall (fun m => exists t, getTime (updatedAt m) = Some t /\ (t < now)%Z) before ->
     after = memo :: before).
Proof.
  intros Hread Hvalid Hid Hfresh Hok.
  destruct (createMemo_listing _ _ _ _ _ _ _ Hread Hvalid Hid Hfresh Hok)
    as [Hm Hafter].
  set (m := mkMemo newId content' (ValidDate now) (ValidDate now)) in *.
  subst memo.
  assert (Hperm : Permutation (sort byUpdatedAtDesc (before ++ [m])) (m :: before)).
  { rewrite sort_perm. now rewrite Permutation_app_comm. }
  assert (Hdesc : descending before) by now apply (getMemos_sorted_valid st).
  split; [reflexivity|]. split.
  - rewrite (getMemoById_read h _ _ _ Hafter Hid). f_equal. f_equal.
    apply find_once.
    + rewrite (filter_length_perm _ _ _ Hperm). simpl. unfold hasId at 1. simpl.
      rewrite String.eqb_refl. simpl. now rewrite (find_none_filter _ _ Hfresh).
    + eapply Permutation_in; [symmetry; exact Hperm | now left].
    + unfold hasId. simpl. apply String.eqb_refl.
  - exists (sort byUpdatedAtDesc (before ++ [m])). repeat split; auto.
    + rewrite filter_sort_stable.
      * rewrite filter_app. simpl. unfold hasId at 2. simpl.
        rewrite String.eqb_refl. simpl. rewrite app_nil_r.
        now apply find_none_filter_negb.
      * apply dated_of_valid. apply Forall_app. split; [exact Hvalid|].
        constructor; [|constructor]. split; discriminate.
      * rewrite filter_app. simpl. unfold hasId at 2. simpl.
        rewrite String.eqb_refl. simpl. rewrite app_nil_r.
        rewrite (find_none_filter_negb _ _ Hfresh). exact Hdesc.
    + intros Hnewest. now apply (sort_push_newest m before now).
Qed.

(** X6. [deleteMemo] and read back.  On a readable collection with valid
    timestamps, a successful [deleteMemo] removed at least one record;
    what is read afterwards is the collection without the records of that
    id, the others unchanged and in their order, and [getMemoById] finds
    nothing under the id. *)
Theorem deleteMemo_read_back (id' : string) (st st' : Storage) (before : list Memo) :
  fst (getMemos h st) = inr before ->
  Forall hasValidDates before ->
  deleteMemo h id' st = (Ok tt, st') ->
  (exists removed, In removed before /\ id removed = id') /\
  fst (getMemos h st') = inr (filter (fun m => negb (hasId id' m)) before) /\
  getMemoById h id' st' = (Ok None, st').
Proof.
  intros Hread Hvalid Hok.
  destruct (deleteMemo_listing _ _ _ _ Hread Hvalid Hok) as (Hid & Hlen & Hafter).
  set (kept := filter (fun m => negb (hasId id' m)) before) in *.
  split; [|split; [exact Hafter|]].
  - destruct (find (hasId id') before) as [r|] eqn:Hfind.
    + apply find_some in Hfind as [Hin Hr]. exists r. split; [exact Hin|].
      now apply String.eqb_eq in Hr.
    + unfold kept in Hlen. now rewrite (find_none_filter_negb _ _ Hfind) in Hlen.
  - rewrite (getMemoById_read h _ _ _ Hafter Hid). f_equal. f_equal.
    destruct (find (hasId id') kept) as [r|] eqn:Hfind; [|reflexivity].
    apply find_some in Hfind as [Hin Hr]. apply filter_In in Hin as [_ Hnot].
    rewrite Hr in Hnot. discriminate.
Qed.

(** X7. [updateMemo] and read back.  On a readable collection with valid
    timestamps in which exactly one record has the id, after a successful
    [updateMemo] the memo that [getMemoById] returns is the former one
    with the content of the patch (its own when the patch has none), its
    [createdAt], and [updatedAt] set to the time of the call. *)
Theorem updateMemo_read_back (id' : string) (updates : option string) (now : Z)
        (st st' : Storage) (before : list Memo) :
  fst (getMemos h st) = inr before ->
  Forall hasValidDates before ->
  List.length (filter (hasId id') before) = 1 ->
  updateMemo h id' updates now st = (Ok tt, st') ->
  exists existing,
    getMemoById h id' st = (Ok (Some existing), st) /\
    getMemoById h id' st' =
    (Ok (Some (mkMemo id'
                 (match updates with Some c => c | None => content existing end)
                 (createdAt existing) (ValidDate now))), st').
Proof.
  intros Hread Hvalid Honce Hok.
  destruct (updateMemo_listing _ _ _ _ _ _ Hread Hvalid Hok)
    as (existing & Hid & Hfind & Hafter).
  exists existing. split; [now rewrite (getMemoById_read h _ _ _ Hread Hid), Hfind|].
  assert (Hex : In existing before /\ hasId id' existing = true)
    by (now apply find_some in Hfind).
  destruct Hex as [Hin Hhas].
  assert (Hsame : id existing = id') by now apply String.eqb_eq in Hhas.
  set (m := patched existing updates now) in *.
  set (l' := assign (Z.to_nat (findIndex (hasId id') before)) m before) in *.
  rewrite (getMemoById_read h _ _ _ Hafter Hid). f_equal. f_equal.
  replace (mkMemo id' (match updates with Some c => c | None => content existing end)
             (createdAt existing) (ValidDate now)) with m
    by (unfold m, patched; now rewrite Hsame).
  apply find_once.
  - rewrite (filter_length_perm _ _ _ (sort_perm byUpdatedAtDesc l')). unfold l'.
    now rewrite (filter_length_assign_found _ _ existing).
  - eapply Permutation_in; [symmetry; apply sort_perm|].
    now apply (In_assign_found (hasId id') before existing).
  - exact Hhas.
Qed.

End ReadBack.

(* ------------------------------------------------------------------ *)
(** Instances on the sample store of two memos. *)

(** An instance: a third memo created at time 30 is found under its id. *)
Lemma createMemo_read_back_witness :
  MemoStorage.getMemoById Sample.host Sample.idC
    (snd (MemoStorage.createMemo Sample.host "c" 30 Sample.idC SampleStores.two)) =
  (Ok (Some (mkMemo Sample.idC "c" (ValidDate 30) (ValidDate 30))),
   snd (MemoStorage.createMemo Sample.host "c" 30 Sample.idC SampleStores.two)).
Proof.
  apply (createMemo_read_back Sample.host sample_roundtrip "c" Sample.idC 30
           SampleStores.two
           (snd (MemoStorage.createMemo Sample.host "c" 30 Sample.idC
                   SampleStores.two))
           [mkMemo Sample.idA "a" (ValidDate 1) (ValidDate 10);
            mkMemo Sample.idB "b" (ValidDate 2) (ValidDate 5)]
           (mkMemo Sample.idC "c" (ValidDate 30) (ValidDate 30))).
  - reflexivity.
  - apply forallb_dates. reflexivity.
  - reflexivity.
  - reflexivity.
  - reflexivity.
Defined.

(** An instance: after the first memo is deleted the second is what is
    left. *)
Lemma deleteMemo_read_back_witness :
  fst (MemoStorage.getMemos Sample.host
         (snd (MemoStorage.deleteMemo Sample.host Sample.idA SampleStores.two))) =
  inr (filter (fun m => negb (hasId Sample.idA m))
         [mkMemo Sample.idA "a" (ValidDate 1) (ValidDate 10);
          mkMemo Sample.idB "b" (ValidDate 2) (ValidDate 5)]).
Proof.
  apply (deleteMemo_read_back Sample.host sample_roundtrip Sample.idA
           SampleStores.two
           (snd (MemoStorage.deleteMemo Sample.host Sample.idA SampleStores.two))
           [mkMemo Sample.idA "a" (ValidDate 1) (ValidDate 10);
            mkMemo Sample.idB "b" (ValidDate 2) (ValidDate 5)]).
  - reflexivity.
  - apply forallb_dates. reflexivity.
  - reflexivity.
Defined.

(** An instance: the second memo, updated at time 20. *)
Lemma updateMemo_read_back_witness :
  exists existing,
    MemoStorage.getMemoById Sample.host Sample.idB SampleStores.two =
    (Ok (Some existing), SampleStores.two) /\
    MemoStorage.getMemoById Sample.host Sample.idB
      (snd (MemoStorage.updateMemo Sample.host Sample.idB (Some "x") 20
              SampleStores.two)) =
    (Ok (Some (mkMemo Sample.idB
                 (match Some "x" with Some c => c | None => content existing end)
                 (createdAt existing) (ValidDate 20))),
     snd (MemoStorage.updateMemo Sample.host Sample.idB (Some "x") 20
            SampleStores.two)).
Proof.
  apply (updateMemo_read_back Sample.host sample_roundtrip Sample.idB (Some "x") 20
           SampleStores.two
           (snd (MemoStorage.updateMemo Sample.host Sample.idB (Some "x") 20
                   SampleStores.two))
           [mkMemo Sample.idA "a" (ValidDate 1) (ValidDate 10);
            mkMemo Sample.idB "b" (ValidDate 2) (ValidDate 5)]).
  - reflexivity.
  - apply forallb_dates. reflexivity.
  - reflexivity.
  - reflexivity.
Defined.

(* ================================================================== *)
(** ** utils/textUtils.ts: titles and previews *)

Section TextParts.
Import CodeUnits.

Lemma forallb_part (p : N -> bool) (s pre mid post : list N) :
  s = (pre ++ mid ++ post)%list -> forallb p s = true -> forallb p mid = true.
Proof.
  intros -> H. rewrite !forallb_app in H.
  apply andb_true_iff in H as [_ H]. now apply andb_true_iff in H as [H _].
Qed.

Lemma includes_part (s pre mid post q : list N) :
  s = (pre ++ mid ++ post)%list -> includes s q = false -> includes mid q = false.
Proof.
  intros -> H. destruct (includes mid q) eqn:E; [|reflexivity].
  apply includes_spec in E as (a & b & ->).
  assert (Hin : includes (pre ++ (a ++ q ++ b) ++ post) q = true).
  { apply includes_spec. exists (pre ++ a)%list, (b ++ post)%list.
    now rewrite <- !app_assoc. }
  congruence.
Qed.

Lemma trimStart_part (s : list N) : exists pre, s = (pre ++ trimStart s)%list.
Proof.
  induction s as [|c r [pre IH]]; simpl; [now exists []|].
  destruct (isWhiteSpace c); [|now exists []].
  exists (c :: pre). simpl. now rewrite <- IH.
Qed.

Lemma trimEnd_part (s : list N) : exists post, s = (trimEnd s ++ post)%list.
Proof.
  induction s as [|c r [post IH]]; simpl; [now exists []|].
  destruct (trimEnd r) as [|d r'] eqn:E.
  - destruct (isWhiteSpace c); [now exists (c :: r)|].
    exists r. reflexivity.
  - exists post. simpl. now rewrite IH at 1.
Qed.

Lemma trim_part (s : list N) : exists pre post, s = (pre ++ trim s ++ post)%list.
Proof.
  destruct (trimStart_part s) as [pre H1].
  destruct (trimEnd_part (trimStart s)) as [post H2].
  exists pre, post. unfold trim. now rewrite <- H2.
Qed.

(** [s.substring(0, n)] is the first [n] code units, none for a negative
    [n] and all of them for an [n] beyond the length. *)
Lemma substring_from_start (n : Z) (s : list N) :
  substring 0 n s = firstn (Z.to_nat n) s.
Proof.
  unfold substring.
  replace (Z.to_nat (Z.min (Z.max 0 0) (Z.of_nat (List.length s)))) with 0%nat by lia.
  rewrite Nat.min_0_l, Nat.max_0_l, Nat.sub_0_r. simpl skipn.
  destruct (Z_le_gt_dec (Z.of_nat (List.length s)) n) as [Hle | Hgt].
  - rewrite !firstn_all2; [reflexivity | lia | lia].
  - f_equal. lia.
Qed.

Lemma substring_part (n : Z) (s : list N) :
  exists post, s = (substring 0 n s ++ post)%list.
Proof.
  rewrite substring_from_start. exists (skipn (Z.to_nat n) s).
  now rewrite firstn_skipn.
Qed.

Lemma substring_length (n : Z) (s : list N) :
  List.length (substring 0 n s) = Nat.min (Z.to_nat n) (List.length s).
Proof. rewrite substring_from_start. apply length_firstn. Qed.

(** An integer among the numbers. *)
Lemma leZ_ofZ (x z : Z) : Number.leZ x (Number.ofZ z) = (x <=? z)%Z.
Proof.
  unfold Number.leZ, Number.ofZ, Qle_bool. simpl. now rewrite !Z.mul_1_r.
Qed.

Lemma truncate_ofZ (z : Z) : Number.truncate (inject_Z z) = z.
Proof.
  unfold Number.truncate.
  destruct (Qle_bool (inject_Z 0) (inject_Z z)); [apply Qfloor_Z | apply Qceiling_Z].
Qed.

Lemma substringTo_ofZ (z : Z) (s : list N) :
  substringTo (Number.ofZ z) s = firstn (Z.to_nat z) s.
Proof.
  unfold substringTo, Number.ofZ, Number.toIndex.
  now rewrite truncate_ofZ, substring_from_start.
Qed.

Lemma substringTo_part (n : Number.t) (s : list N) :
  exists post, s = (substringTo n s ++ post)%list.
Proof. apply substring_part. Qed.

Lemma leZ_below (x y : Z) (n : Number.t) :
  (x <= y)%Z -> Number.leZ y n = true -> Number.leZ x n = true.
Proof.
  intros Hxy. destruct n as [| | |q]; simpl; auto.
  rewrite !Qle_bool_iff. intros H.
  apply Qle_trans with (inject_Z y); [|exact H]. now rewrite <- Zle_Qle.
Qed.

(** The integral part of a negative number is not positive, and that of
    any other number does not exceed it. *)
Lemma truncate_bound (q : Q) :
  (Number.truncate q <= 0)%Z \/ Number.leZ (Number.truncate q) (Number.Finite q) = true.
Proof.
  unfold Number.truncate, Number.leZ.
  destruct (Qle_bool (inject_Z 0) q) eqn:E.
  - right. apply Qle_bool_iff, Qfloor_le.
  - left.
    assert (Hneg : (q < inject_Z 0)%Q).
    { apply Qnot_le_lt. intros H. apply Qle_bool_iff in H. congruence. }
    pose proof (Qlt_trans _ _ _ (Qceiling_lt q) Hneg) as H.
    rewrite <- Zlt_Qlt in H. lia.
Qed.

(** What [substring(0, n)] keeps is no longer than [n], if it keeps
    anything. *)
Lemma substringTo_within (n : Number.t) (s : list N) :
  List.length (substringTo n s) = 0%nat \/
  Number.leZ (Z.of_nat (List.length (substringTo n s))) n = true.
Proof.
  unfold substringTo. rewrite substring_length.
  destruct n as [| | |q]; simpl.
  - left. reflexivity.
  - right. reflexivity.
  - left. reflexivity.
  - destruct (truncate_bound q) as [H | H];
      [|destruct (Z_le_gt_dec (Number.truncate q) 0) as [H0 | H0]; [clear H|]].
    + left. replace (Z.to_nat (Number.truncate q)) with 0%nat by lia. reflexivity.
    + left. replace (Z.to_nat (Number.truncate q)) with 0%nat by lia. reflexivity.
    + right.
      change (Number.leZ (Z.of_nat (Nat.min (Z.to_nat (Number.truncate q))
                                      (List.length s)))
                (Number.Finite q) = true).
      apply (leZ_below _ (Number.truncate q)); [lia | exact H].
Qed.

(** What [trimStart] leaves begins with a code unit that is no white
    space. *)
Lemma trimStart_head (s : list N) :
  trimStart s = [] \/
  exists c r, trimStart s = c :: r /\ isWhiteSpace c = false.
Proof.
  induction s as [|c r IH]; simpl; [now left|].
  destruct (isWhiteSpace c) eqn:E; [exact IH|].
  right. now exists c, r.
Qed.

Lemma trimEnd_head (c : N) (r : list N) :
  isWhiteSpace c = false -> exists r', trimEnd (c :: r) = c :: r'.
Proof.
  intros H. simpl. rewrite H. destruct (trimEnd r); eauto.
Qed.

Lemma trimEnd_idempotent (s : list N) : trimEnd (trimEnd s) = trimEnd s.
Proof.
  induction s as [|c r IH]; simpl; [reflexivity|].
  destruct (trimEnd r) as [|d r'] eqn:E.
  - destruct (isWhiteSpace c) eqn:Ec; simpl; [reflexivity|]. now rewrite Ec.
  - simpl in IH |- *. now rewrite IH.
Qed.

Lemma trim_head (s : list N) :
  trim s = [] \/ exists c r, trim s = c :: r /\ isWhiteSpace c = false.
Proof.
  unfold trim.
  destruct (trimStart_head s) as [-> | (c & r & -> & Hc)]; [now left|].
  right. destruct (trimEnd_head c r Hc) as [r' ->]. now exists c, r'.
Qed.

Lemma trim_idempotent (s : list N) : trim (trim s) = trim s.
Proof.
  destruct (trim_head s) as [-> | (c & r & E & Hc)]; [reflexivity|].
  unfold trim at 1. rewrite E. simpl trimStart. rewrite Hc.
  rewrite <- E. unfold trim. apply trimEnd_idempotent.
Qed.

Lemma ellipsis_units : ELLIPSIS = [46; 46; 46]%N.
Proof. reflexivity. Qed.

Lemma default_title_units :
  units DEFAULT_MEMO_TITLE = [26032; 12375; 12356; 12513; 12514]%N.
Proof. reflexivity. Qed.

(** A text that ends with the ellipsis is not trimmed at its end. *)
Lemma trimEnd_ellipsis (a : list N) : trimEnd (a ++ ELLIPSIS) = (a ++ ELLIPSIS)%list.
Proof.
  rewrite ellipsis_units.
  induction a as [|c a IH]; [reflexivity|].
  simpl. simpl in IH. rewrite IH. destruct a; reflexivity.
Qed.

(** Cutting a trimmed text and appending the ellipsis gives a trimmed
    text. *)
Lemma trim_truncated (n : Number.t) (s : list N) :
  trim (substringTo n (trim s) ++ ELLIPSIS) = (substringTo n (trim s) ++ ELLIPSIS)%list.
Proof.
  unfold trim at 1.
  assert (Hstart : trimStart (substringTo n (trim s) ++ ELLIPSIS) =
                   (substringTo n (trim s) ++ ELLIPSIS)%list).
  { unfold substringTo. rewrite substring_from_start.
    generalize (Z.to_nat (Number.toIndex n (List.length (trim s)))). intros k.
    destruct (trim_head s) as [-> | (c & r & -> & Hc)].
    - now rewrite firstn_nil.
    - destruct k; [reflexivity|]. simpl. now rewrite Hc. }
  rewrite Hstart. apply trimEnd_ellipsis.
Qed.

Lemma whitespaceOnly_firstLine (s : list N) :
  whitespaceOnly s = true -> whitespaceOnly (firstLine s) = true.
Proof.
  induction s as [|c r IH]; simpl; [reflexivity|].
  intros H. apply andb_true_iff in H as [Hc Hr].
  destruct (c =? 10)%N; [reflexivity|]. simpl. now rewrite Hc, IH.
Qed.

Lemma firstLine_no_line_feed (s : list N) :
  forallb (fun c => negb (c =? 10)%N) (firstLine s) = true.
Proof.
  induction s as [|c r IH]; simpl; [reflexivity|].
  destruct (c =? 10)%N eqn:E; [reflexivity|]. simpl. now rewrite E.
Qed.

Lemma isEmpty_spec (text : list N) :
  isEmpty text = true <-> whitespaceOnly text = true.
Proof.
  unfold isEmpty. rewrite orb_true_iff, falsy_spec, eqb_nil, trim_empty.
  split; [intros [-> | H]; auto | now right].
Qed.

End TextParts.

(** X8. [extractTitle], for a content given by its code units and any
    number [maxLength].  The title is never empty and carries no white
    space at either end and no line feed.  It is the placeholder, or at
    most three code units long, or at most [maxLength + 3] code units long.
    It is made of the first line only: the placeholder when the first line
    is blank (even if text follows on later lines), the trimmed first line
    when that is at most [maxLength] long, and otherwise what
    [substring(0, maxLength)] keeps of it followed by three dots: for an
    integer [maxLength], its first [maxLength] code units (none when
    [maxLength] is negative). *)
Theorem extractTitle_shape (content' : list N) (maxLength : Number.t) :
  let title := extractTitle content' maxLength in
  let line := CodeUnits.trim (CodeUnits.firstLine content') in
  title <> [] /\
  CodeUnits.trim title = title /\
  forallb (fun c => negb (c =? 10)%N) title = true /\
  (title = CodeUnits.units DEFAULT_MEMO_TITLE \/
   List.length title <= 3 \/
   Number.leZ (Z.of_nat (List.length title) - 3) maxLength = true) /\
  (isEmpty content' = true -> title = CodeUnits.units DEFAULT_MEMO_TITLE) /\
  (CodeUnits.whitespaceOnly (CodeUnits.firstLine content') = true ->
   title = CodeUnits.units DEFAULT_MEMO_TITLE) /\
  (CodeUnits.whitespaceOnly (CodeUnits.firstLine content') = false ->
   title = if Number.leZ (Z.of_nat (List.length line)) maxLength then line
           else (substringTo maxLength line ++ ELLIPSIS)%list) /\
  (forall n : Z,
     CodeUnits.whitespaceOnly (CodeUnits.firstLine content') = false ->
     extractTitle content' (Number.ofZ n) =
     if (Z.of_nat (List.length line) <=? n)%Z then line
     else (firstn (Z.to_nat n) line ++ ELLIPSIS)%list).
Proof.
  cbv zeta.
  assert (Hdef : forall m,
             CodeUnits.whitespaceOnly (CodeUnits.firstLine content') = false ->
             extractTitle content' m =
             if Number.leZ (Z.of_nat (List.length
                              (CodeUnits.trim (CodeUnits.firstLine content')))) m
             then CodeUnits.trim (CodeUnits.firstLine content')
             else (substringTo m (CodeUnits.trim (CodeUnits.firstLine content'))
                   ++ ELLIPSIS)%list).
  { intros m Hnb. unfold extractTitle. fold (isEmpty content').
    destruct (isEmpty content') eqn:Hblank.
    { apply isEmpty_spec, whitespaceOnly_firstLine in Hblank. congruence. }
    cbv zeta.
    destruct (CodeUnits.eqb (CodeUnits.trim (CodeUnits.firstLine content')) [])
      eqn:Hline; [|reflexivity].
    apply eqb_nil, trim_empty in Hline. congruence. }
  assert (Hint : forall n : Z,
             CodeUnits.whitespaceOnly (CodeUnits.firstLine content') = false ->
             extractTitle content' (Number.ofZ n) =
             if (Z.of_nat (List.length
                   (CodeUnits.trim (CodeUnits.firstLine content'))) <=? n)%Z
             then CodeUnits.trim (CodeUnits.firstLine content')
             else (firstn (Z.to_nat n) (CodeUnits.trim (CodeUnits.firstLine content'))
                   ++ ELLIPSIS)%list).
  { intros n Hnb. rewrite (Hdef _ Hnb), leZ_ofZ, substringTo_ofZ. reflexivity. }
  destruct (CodeUnits.whitespaceOnly (CodeUnits.firstLine content')) eqn:Hnb.
  { assert (Htitle : extractTitle content' maxLength =
                     CodeUnits.units DEFAULT_MEMO_TITLE).
    { unfold extractTitle. fold (isEmpty content').
      destruct (isEmpty content'); [reflexivity|]. cbv zeta.
      apply trim_empty, eqb_nil in Hnb. now rewrite Hnb. }
    rewrite Htitle, default_title_units.
    repeat split; auto; try discriminate; try reflexivity. }
  assert (Hne : CodeUnits.trim (CodeUnits.firstLine content') <> []).
  { intros E. apply trim_empty in E. congruence. }
  assert (Hlf : forallb (fun c => negb (c =? 10)%N)
                  (CodeUnits.trim (CodeUnits.firstLine content')) = true).
  { destruct (trim_part (CodeUnits.firstLine content')) as (pre & post & E).
    apply (forallb_part _ _ _ _ _ E), firstLine_no_line_feed. }
  assert (Hfull : isEmpty content' = false).
  { destruct (isEmpty content') eqn:Hblank; [|reflexivity].
    apply isEmpty_spec, whitespaceOnly_firstLine in Hblank. congruence. }
  rewrite (Hdef _ eq_refl).
  destruct (Number.leZ (Z.of_nat (List.length
                          (CodeUnits.trim (CodeUnits.firstLine content'))))
              maxLength) eqn:Hlen.
  - repeat split; auto; try discriminate; try congruence.
    + apply trim_idempotent.
    + right. right. refine (leZ_below _ _ _ _ Hlen). lia.
  - destruct (substringTo_part maxLength
                (CodeUnits.trim (CodeUnits.firstLine content'))) as [post E].
    repeat split; auto; try discriminate; try congruence.
    + intros H. apply (f_equal (@List.length N)) in H.
      rewrite length_app, ellipsis_units in H. simpl in H. lia.
    + apply trim_truncated.
    + rewrite forallb_app. apply andb_true_iff. split; [|reflexivity].
      exact (forallb_part _ _ [] _ post E Hlf).
    + right. rewrite length_app, ellipsis_units. simpl List.length.
      destruct (substringTo_within maxLength
                  (CodeUnits.trim (CodeUnits.firstLine content'))) as [H | H].
      * left. lia.
      * right. rewrite <- H. f_equal. lia.
Qed.

Section Preview.
Import CodeUnits.

Lemma collapse_whitespaceOnly (inRun : bool) (s : list N) :
  whitespaceOnly (collapse inRun s) = whitespaceOnly s.
Proof.
  revert inRun. induction s as [|c r IH]; intros inRun; simpl; [reflexivity|].
  destruct (isWhiteSpace c) eqn:E.
  - destruct inRun; simpl; now rewrite IH.
  - simpl. now rewrite E.
Qed.

(** After the collapse the only white space is the space character. *)
Lemma collapse_spaces_only (inRun : bool) (s : list N) :
  forallb (fun c => negb (isLineBreakOrTab c)) (collapse inRun s) = true.
Proof.
  revert inRun. induction s as [|c r IH]; intros inRun; simpl; [reflexivity|].
  destruct (isWhiteSpace c) eqn:E.
  - destruct inRun; simpl; now rewrite IH.
  - simpl. unfold isLineBreakOrTab at 1. rewrite E. simpl. apply IH.
Qed.

(** After the collapse no two spaces are adjacent. *)
Lemma collapse_single_spaces (inRun : bool) (s : list N) :
  includes (collapse inRun s) [32; 32]%N = false /\
  (inRun = true -> startsWith (collapse inRun s) [32%N] = false).
Proof.
  revert inRun. induction s as [|c r IH]; intros inRun; simpl.
  - split; [reflexivity | intros _; reflexivity].
  - destruct (isWhiteSpace c) eqn:E.
    + destruct inRun.
      * apply IH.
      * destruct (IH true) as [H1 H2]. split; [|discriminate].
        simpl. rewrite H1, orb_false_r.
        specialize (H2 eq_refl).
        destruct (collapse true r) as [|d r']; [reflexivity|].
        simpl in H2 |- *. now rewrite andb_true_r in *.
    + assert (Hc : (c =? 32)%N = false).
      { destruct (c =? 32)%N eqn:Ec; [|reflexivity].
        apply N.eqb_eq in Ec. subst c. discriminate. }
      destruct (IH false) as [H1 _]. split.
      * simpl. now rewrite Hc, H1.
      * intros _. simpl. now rewrite Hc.
Qed.

Lemma ellipsis_single_spaces (a : list N) :
  includes a [32; 32]%N = false -> includes (a ++ ELLIPSIS) [32; 32]%N = false.
Proof.
  rewrite ellipsis_units.
  induction a as [|c a IH]; [reflexivity|].
  simpl. intros H. apply orb_false_iff in H as [H1 H2].
  simpl in IH. rewrite (IH H2), orb_false_r.
  destruct (c =? 32)%N; [|reflexivity]. simpl in H1 |- *.
  destruct a as [|d a']; [reflexivity|]. simpl in H1 |- *.
  now rewrite andb_true_r in *.
Qed.

End Preview.

(** X9. [generatePreview], for a content given by its code units and any
    number [maxLength].  The preview is empty exactly when the content is
    empty or white space only.  Otherwise it is the content on one line:
    its only white space is the space character, never two in a row and
    none at either end.  It is at most three code units long, or at most
    [maxLength + 3] code units long: for an integer [maxLength], the
    content on one line when that is at most [maxLength] long, and
    otherwise its first [maxLength] code units (none when [maxLength] is
    negative) followed by three dots. *)
Theorem generatePreview_shape (content' : list N) (maxLength : Number.t) :
  let preview := generatePreview content' maxLength in
  let clean := CodeUnits.trim (CodeUnits.collapseWhiteSpace content') in
  (preview = [] <-> isEmpty content' = true) /\
  (List.length preview <= 3 \/
   Number.leZ (Z.of_nat (List.length preview) - 3) maxLength = true) /\
  forallb (fun c => negb (isLineBreakOrTab c)) preview = true /\
  CodeUnits.includes preview [32; 32]%N = false /\
  CodeUnits.trim preview = preview /\
  (forall n : Z,
     isEmpty content' = false ->
     generatePreview content' (Number.ofZ n) =
     if (Z.of_nat (List.length clean) <=? n)%Z then clean
     else (firstn (Z.to_nat n) clean ++ ELLIPSIS)%list).
Proof.
  cbv zeta.
  unfold generatePreview. fold (isEmpty content').
  destruct (isEmpty content') eqn:Hblank.
  { repeat split; auto. discriminate. }
  cbv zeta. unfold CodeUnits.collapseWhiteSpace.
  set (clean := CodeUnits.trim (CodeUnits.collapse false content')).
  assert (Hne : clean <> []).
  { unfold clean. intros H. apply trim_empty in H.
    rewrite collapse_whitespaceOnly in H. apply isEmpty_spec in H. congruence. }
  destruct (trim_part (CodeUnits.collapse false content')) as (pre & post & Hpart).
  fold clean in Hpart.
  assert (Hsp : forallb (fun c => negb (isLineBreakOrTab c)) clean = true)
    by (apply (forallb_part _ _ _ _ _ Hpart), collapse_spaces_only).
  assert (Hone : CodeUnits.includes clean [32; 32]%N = false)
    by (apply (includes_part _ _ _ _ _ Hpart), collapse_single_spaces).
  destruct (Number.leZ (Z.of_nat (List.length clean)) maxLength) eqn:Hlen.
  - repeat split; auto; try discriminate; try contradiction;
      try (intros n _; now rewrite leZ_ofZ, substringTo_ofZ).
    + right. refine (leZ_below _ _ _ _ Hlen). lia.
    + apply trim_idempotent.
  - destruct (substringTo_part maxLength clean) as [rest Hcut].
    repeat split; auto; try discriminate;
      try (intros n _; now rewrite leZ_ofZ, substringTo_ofZ).
    + intros H. apply (f_equal (@List.length N)) in H.
      rewrite length_app, ellipsis_units in H. simpl in H. lia.
    + rewrite length_app, ellipsis_units. simpl List.length.
      destruct (substringTo_within maxLength clean) as [H | H].
      * left. lia.
      * right. rewrite <- H. f_equal. lia.
    + rewrite forallb_app. apply andb_true_iff. split; [|reflexivity].
      exact (forallb_part _ _ [] _ rest Hcut Hsp).
    + apply ellipsis_single_spaces.
      exact (includes_part _ [] _ rest _ Hcut Hone).
    + apply trim_truncated.
Qed.

(** Ten kana are ten code units (thirty bytes in UTF-8): the title is the
    line as it is.  An ideographic space alone is a blank content.  A
    title is cut at twenty code units; with a [maxLength] that is no
    number nothing is kept of the line but the three dots. *)
Example extractTitle_kana :
  extractTitle (CodeUnits.units "あいうえおかきくけこ") MEMO_TITLE_MAX_LENGTH =
  CodeUnits.units "あいうえおかきくけこ".
Proof. reflexivity. Qed.

Example extractTitle_cut :
  extractTitle (CodeUnits.units "  The quick brown fox jumps" ++ [10%N] ++
                CodeUnits.units "over the lazy dog")%list MEMO_TITLE_MAX_LENGTH =
  CodeUnits.units "The quick brown fox ...".
Proof. reflexivity. Qed.

Example extractTitle_not_a_number :
  extractTitle (CodeUnits.units "Hello") Number.NaN = CodeUnits.units "...".
Proof. reflexivity. Qed.

Example generatePreview_ideographic_space :
  generatePreview [12288%N] MEMO_PREVIEW_MAX_LENGTH = [] /\
  isEmpty [12288%N] = true.
Proof. split; reflexivity. Qed.

Example generatePreview_one_line :
  generatePreview [32; 32; 97; 10; 9; 32; 98; 32; 32]%N MEMO_PREVIEW_MAX_LENGTH =
  CodeUnits.units "a b".
Proof. reflexivity. Qed.

(* ================================================================== *)
(** ** utils/textUtils.ts: escaping *)

Section StringParts.

Lemma append_assoc (a b c : string) : (a ++ b) ++ c = a ++ b ++ c.
Proof. induction a; simpl; congruence. Qed.

Lemma all_append (p : ascii -> bool) (a b : string) :
  StrOps.all p (a ++ b) = StrOps.all p a && StrOps.all p b.
Proof.
  induction a as [|c a IH]; simpl; [reflexivity|].
  now rewrite IH, andb_assoc.
Qed.

End StringParts.

Section Escaping.

Lemma replaceChar_append (c : ascii) (by' a b : string) :
  StrOps.replaceChar c by' (a ++ b) =
  StrOps.replaceChar c by' a ++ StrOps.replaceChar c by' b.
Proof.
  induction a as [|x a IH]; simpl; [reflexivity|].
  now rewrite IH, append_assoc.
Qed.

(** The five replacements in sequence, on one character. *)
Lemma replacements_one (c : ascii) :
  StrOps.replaceChar "'" "&#x27;"
    (StrOps.replaceChar "034" "&quot;"
       (StrOps.replaceChar ">" "&gt;"
          (StrOps.replaceChar "<" "&lt;"
             (StrOps.replaceChar "&" "&amp;" (String c ""))))) = htmlEntity c.
Proof. destruct c as [[] [] [] [] [] [] [] []]; reflexivity. Qed.

Lemma replacements_all (s : string) :
  StrOps.replaceChar "'" "&#x27;"
    (StrOps.replaceChar "034" "&quot;"
       (StrOps.replaceChar ">" "&gt;"
          (StrOps.replaceChar "<" "&lt;"
             (StrOps.replaceChar "&" "&amp;" s)))) = escapeHtml s.
Proof.
  induction s as [|c r IH]; [reflexivity|].
  change (String c r) with (String c "" ++ r).
  rewrite !replaceChar_append, IH. simpl escapeHtml. f_equal.
  apply replacements_one.
Qed.

Lemma htmlEntity_markup_free (c : ascii) :
  StrOps.all (fun x => negb (isMarkup x)) (htmlEntity c) = true.
Proof. destruct c as [[] [] [] [] [] [] [] []]; reflexivity. Qed.

Lemma htmlEntity_plain (c : ascii) :
  isMarkup c || Ascii.eqb c "&" = false -> htmlEntity c = String c "".
Proof.
  destruct c as [[] [] [] [] [] [] [] []]; cbv; intros H;
    solve [reflexivity | discriminate H].
Qed.

(** The character references form a prefix code. *)
Lemma htmlEntity_prefix_free (a b : ascii) (x y : string) :
  htmlEntity a ++ x = htmlEntity b ++ y -> a = b /\ x = y.
Proof.
  unfold htmlEntity.
  destruct (Ascii.eqb_spec a "&"); [subst a|];
  [|destruct (Ascii.eqb_spec a "<"); [subst a|];
    [|destruct (Ascii.eqb_spec a ">"); [subst a|];
      [|destruct (Ascii.eqb_spec a "034"); [subst a|];
        [|destruct (Ascii.eqb_spec a "'"); [subst a|]]]]];
  (destruct (Ascii.eqb_spec b "&"); [subst b|];
   [|destruct (Ascii.eqb_spec b "<"); [subst b|];
     [|destruct (Ascii.eqb_spec b ">"); [subst b|];
       [|destruct (Ascii.eqb_spec b "034"); [subst b|];
         [|destruct (Ascii.eqb_spec b "'"); [subst b|]]]]]);
  simpl; intros H; try discriminate;
  try (injection H as <-; now split);
  try (injection H as H; congruence);
  try (injection H as -> ->; now split).
Qed.

Lemma htmlEntity_nonempty (c : ascii) (x : string) : htmlEntity c ++ x <> "".
Proof. destruct c as [[] [] [] [] [] [] [] []]; discriminate. Qed.

Lemma escapeHtml_injective (a b : string) : escapeHtml a = escapeHtml b -> a = b.
Proof.
  revert b. induction a as [|x a IH]; intros [|y b]; simpl; intros H.
  - reflexivity.
  - symmetry in H. now apply htmlEntity_nonempty in H.
  - now apply htmlEntity_nonempty in H.
  - apply htmlEntity_prefix_free in H as [-> H]. f_equal. now apply IH.
Qed.

End Escaping.

(** X10. [sanitizeString].  The five replacements in sequence act as one
    pass that replaces each character by its character reference
    ([&amp;], [&lt;], [&gt;], [&quot;], [&#x27;]): an ampersand that a
    later replacement introduces is not escaped again.  The result holds
    none of the characters that open or close a tag or an attribute
    value; a text without the five characters is returned as it is; and
    different texts have different results. *)
Theorem sanitizeString_escapes (str other : string) :
  sanitizeString str = escapeHtml str /\
  StrOps.all (fun c => negb (isMarkup c)) (sanitizeString str) = true /\
  (StrOps.all (fun c => negb (isMarkup c || Ascii.eqb c "&")) str = true ->
   sanitizeString str = str) /\
  (sanitizeString str = sanitizeString other <-> str = other).
Proof.
  assert (Heq : forall s, sanitizeString s = escapeHtml s).
  { intros s. unfold sanitizeString. destruct s as [|c r]; [reflexivity|].
    simpl Str.falsy. cbv iota. apply replacements_all. }
  rewrite !Heq. split; [reflexivity|]. split; [|split].
  - induction str as [|c r IH]; [reflexivity|].
    simpl. rewrite all_append, IH, htmlEntity_markup_free. reflexivity.
  - induction str as [|c r IH]; [reflexivity|].
    simpl. intros H. apply andb_true_iff in H as [Hc Hr].
    apply negb_true_iff in Hc. rewrite (htmlEntity_plain c Hc). simpl.
    now rewrite (IH Hr).
  - split; [apply escapeHtml_injective | now intros ->].
Qed.

(* ================================================================== *)
(** ** utils/idUtils.ts: the shape of an id *)

Section Ids.

Lemma test_length (regex : list CharClass) (s : string) :
  test regex s = true -> String.length s = List.length regex.
Proof.
  revert s. induction regex as [|cls regex IH]; intros [|c s]; simpl;
    try discriminate; [reflexivity|].
  intros H. apply andb_true_iff in H as [_ H]. now rewrite (IH s H).
Qed.

Lemma test_get (regex : list CharClass) (s : string) (i : nat) (cls : CharClass) :
  test regex s = true -> nth_error regex i = Some cls ->
  exists c, String.get i s = Some c /\ matchesClass cls c = true.
Proof.
  revert s i. induction regex as [|cls0 regex IH]; intros [|c s] i; simpl;
    try discriminate.
  - intros _ H. now destruct i.
  - intros H Hi. apply andb_true_iff in H as [Hc H].
    destruct i as [|i]; simpl in Hi |- *.
    + injection Hi as <-. now exists c.
    + now apply IH.
Qed.

Lemma test_prefix (r1 r2 : list CharClass) (s : string) :
  test (r1 ++ r2) s = true ->
  test r1 (String.substring 0 (List.length r1) s) = true.
Proof.
  revert s. induction r1 as [|cls r1 IH]; intros s; simpl.
  - now destruct s.
  - destruct s as [|c s]; [discriminate|].
    intros H. apply andb_true_iff in H as [Hc H]. simpl.
    now rewrite Hc, (IH s H).
Qed.

Lemma matchesClass_toLowerChar (cls : CharClass) (c : ascii) :
  In cls uuidRegex ->
  matchesClass cls (Str.toLowerChar c) = matchesClass cls c.
Proof.
  intros H.
  assert (Hcls : cls = Hex \/ cls = Lit "-" \/ cls = Lit "4" \/ cls = Variant).
  { unfold uuidRegex in H. simpl in H.
    repeat (destruct H as [H | H]; [subst cls; auto|]). contradiction. }
  destruct Hcls as [-> | [-> | [-> | ->]]];
    destruct c as [[] [] [] [] [] [] [] []]; reflexivity.
Qed.

Lemma test_toLowerCase (regex : list CharClass) (s : string) :
  (forall cls, In cls regex -> In cls uuidRegex) ->
  test regex (Str.toLowerCase s) = test regex s.
Proof.
  revert s. induction regex as [|cls regex IH]; intros [|c s] Hsub; simpl;
    try reflexivity.
  rewrite matchesClass_toLowerChar by (apply Hsub; now left).
  rewrite IH; [reflexivity|]. intros cls' Hin. apply Hsub. now right.
Qed.

End Ids.

(** X11. [isValidId].  The test does not depend on the case of the
    letters.  An id that passes is 36 code units long, with hyphens at
    the positions 8, 13, 18 and 23, the version digit 4 at position 14
    and one of 8, 9, a, b (in either case) at position 19. *)
Theorem isValidId_shape (id' : string) :
  isValidId (Str.toLowerCase id') = isValidId id' /\
  (isValidId id' = true ->
   String.length id' = 36 /\
   String.get 8 id' = Some "-"%char /\
   String.get 13 id' = Some "-"%char /\
   String.get 14 id' = Some "4"%char /\
   String.get 18 id' = Some "-"%char /\
   String.get 23 id' = Some "-"%char /\
   exists variant, String.get 19 id' = Some variant /\
                   isVariantDigit variant = true).
Proof.
  split; [apply test_toLowerCase; auto|].
  unfold isValidId. intros H.
  assert (Hlit : forall i c, nth_error uuidRegex i = Some (Lit c) ->
                             String.get i id' = Some c).
  { intros i c Hi. destruct (test_get _ _ _ _ H Hi) as (x & Hx & Hm).
    simpl in Hm. apply Ascii.eqb_eq in Hm. now subst x. }
  split; [exact (test_length _ _ H)|].
  repeat (split; [now apply Hlit|]).
  exact (test_get _ _ 19 Variant H eq_refl).
Qed.

Section ShortIds.

Lemma units_ascii (s : string) :
  StrOps.all isAsciiByte s = true ->
  CodeUnits.units s = map N_of_ascii (list_ascii_of_string s).
Proof.
  unfold CodeUnits.units.
  induction s as [|c r IH]; simpl; [reflexivity|].
  intros H. apply andb_true_iff in H as [Hc Hr].
  unfold isAsciiByte in Hc. rewrite Hc. now rewrite (IH Hr).
Qed.

Lemma matchesClass_ascii (cls : CharClass) (c : ascii) :
  In cls uuidRegex -> matchesClass cls c = true -> isAsciiByte c = true.
Proof.
  intros H.
  assert (Hcls : cls = Hex \/ cls = Lit "-" \/ cls = Lit "4" \/ cls = Variant).
  { unfold uuidRegex in H. simpl in H.
    repeat (destruct H as [H | H]; [subst cls; auto|]). contradiction. }
  destruct Hcls as [-> | [-> | [-> | ->]]];
    destruct c as [[] [] [] [] [] [] [] []]; intros Hm;
    solve [reflexivity | discriminate Hm].
Qed.

Lemma test_ascii (regex : list CharClass) (s : string) :
  (forall cls, In cls regex -> In cls uuidRegex) ->
  test regex s = true -> StrOps.all isAsciiByte s = true.
Proof.
  revert s. induction regex as [|cls regex IH]; intros [|c s] Hsub; simpl;
    try discriminate; [reflexivity|].
  intros H. apply andb_true_iff in H as [Hc H].
  rewrite (matchesClass_ascii cls c) by (auto; apply Hsub; now left).
  apply IH; [|exact H]. intros cls' Hin. apply Hsub. now right.
Qed.

Lemma list_ascii_of_substring (n : nat) (s : string) :
  list_ascii_of_string (String.substring 0 n s) =
  firstn n (list_ascii_of_string s).
Proof.
  revert s. induction n as [|n IH]; intros s; [now destruct s|].
  destruct s as [|c r]; simpl; [reflexivity|]. now rewrite IH.
Qed.

Lemma all_substring (p : ascii -> bool) (n : nat) (s : string) :
  StrOps.all p s = true -> StrOps.all p (String.substring 0 n s) = true.
Proof.
  revert s. induction n as [|n IH]; intros s; [now destruct s|].
  destruct s as [|c r]; simpl; [reflexivity|].
  intros H. apply andb_true_iff in H as [Hc Hr]. now rewrite Hc, IH.
Qed.

End ShortIds.

(** X12. [shortenId], for an id given by its code units and any number
    [length].  The short id is a prefix of the id: for an integer [length]
    its first [length] code units (none when [length] is negative, the
    whole id when it is shorter); nothing for NaN and for minus infinity;
    the whole id for plus infinity; and for a number that is no integer
    as for its integral part.  For a valid id, at the default length 8,
    it is the first group of eight hexadecimal digits. *)
Theorem shortenId_prefix (id' : list N) (length : Number.t) :
  (exists rest, id' = (shortenId id' length ++ rest)%list) /\
  List.length (shortenId id' length) =
  match length with
  | Number.NaN => 0
  | Number.Infinity => List.length id'
  | Number.NegInfinity => 0
  | Number.Finite q => Nat.min (Z.to_nat (Number.truncate q)) (List.length id')
  end /\
  (forall n : Z, shortenId id' (Number.ofZ n) = firstn (Z.to_nat n) id') /\
  (forall uuid,
     isValidId uuid = true ->
     shortenId (CodeUnits.units uuid) (Number.ofZ 8) =
     CodeUnits.units (String.substring 0 8 uuid) /\
     test (repeat Hex 8) (String.substring 0 8 uuid) = true).
Proof.
  unfold shortenId. split; [apply substringTo_part|].
  split.
  { unfold substringTo. rewrite substring_length.
    destruct length as [| | |q]; simpl; try reflexivity.
    rewrite Nat2Z.id. apply Nat.min_id. }
  split; [intros n; apply substringTo_ofZ|].
  intros uuid H. unfold isValidId in H.
  assert (Hascii : StrOps.all isAsciiByte uuid = true)
    by (apply (test_ascii uuidRegex); auto).
  split.
  - rewrite substringTo_ofZ, (units_ascii _ Hascii).
    rewrite (units_ascii _ (all_substring _ 8 _ Hascii)).
    rewrite list_ascii_of_substring.
    change (Z.to_nat 8) with 8%nat. apply firstn_map.
  - unfold uuidRegex in H. exact (test_prefix (repeat Hex 8) _ uuid H).
Qed.

Example shortenId_default :
  shortenId (CodeUnits.units Sample.idA) (Number.ofZ 8) =
  CodeUnits.units (String.substring 0 8 Sample.idA).
Proof. reflexivity. Qed.

Example shortenId_fraction :
  shortenId (CodeUnits.units "abcdef") (Number.Finite (Qmake 5 2)) =
  CodeUnits.units "ab" /\
  shortenId (CodeUnits.units "abcdef") (Number.Finite (Qmake (-5) 2)) = [] /\
  shortenId (CodeUnits.units "abcdef") Number.NaN = [].
Proof. repeat split; reflexivity. Qed.

(* ================================================================== *)
(** ** utils/dateUtils.ts: relative time *)

Section RelativeTime.
Import DateUtils.

Lemma quotient_bounds (e s : Z) :
  (0 < s)%Z -> (s * (e / s) <= e < s * (e / s + 1))%Z.
Proof.
  intros Hs. pose proof (Z.div_mod e s) as H1.
  pose proof (Z.mod_pos_bound e s Hs) as H2. lia.
Qed.

Lemma quotient_positive (e s : Z) : (0 < s)%Z -> (s <= e)%Z -> (1 <= e / s)%Z.
Proof.
  intros Hs He. apply Z.div_le_lower_bound; lia.
Qed.

Lemma isOne_eqb (n : Z) : isOne (Some n) = (n =? 1)%Z.
Proof. reflexivity. Qed.

End RelativeTime.

(** X13. [formatRelativeTime], for time values that are at most 2^53 ms
    apart (some 285,000 years), where the integers of the model are what
    the code computes.  With [elapsed] the whole seconds from the date to now: below
    one minute (the future included) the text is "Just now".  From one
    minute on it is "n unit ago", where the unit is the largest of minute,
    hour, day (24 h), month (30 days) and year (365 days) that fits into
    [elapsed], [n >= 1] is the number of whole units elapsed, and the unit
    takes its plural "s" unless [n] is 1.  For an Invalid Date the text is
    "NaN years ago". *)
Theorem formatRelativeTime_spec (now t : Z) :
  DateUtils.isTimeValue now ->
  DateUtils.isTimeValue t ->
  (Z.abs (now - t) <= 2 ^ 53)%Z ->
  let elapsed := ((now - t) / 1000)%Z in
  let text := DateUtils.formatRelativeTime now (ValidDate t) in
  (if (elapsed <? 60)%Z then text = "Just now"
   else
     exists unit' seconds n,
       In (unit', seconds) DateUtils.units /\
       (forall u s, In (u, s) DateUtils.units -> (s <= elapsed)%Z -> (s <= seconds)%Z) /\
       (seconds * n <= elapsed < seconds * (n + 1))%Z /\
       (1 <= n)%Z /\
       text = JSON.numberToString n ++ " " ++ unit' ++
              (if (n =? 1)%Z then "" else "s") ++ " ago") /\
  DateUtils.formatRelativeTime now InvalidDate = "NaN years ago".
Proof.
  intros _ _ _. cbv zeta. unfold DateUtils.formatRelativeTime.
  cbv [DateUtils.floorDiv option_map getTime DateUtils.lessThan].
  set (e := ((now - t) / 1000)%Z).
  split; [|reflexivity].
  destruct (e <? 60)%Z eqn:E1.
  - now destruct (e <? 0)%Z.
  - apply Z.ltb_ge in E1.
    unfold DateUtils.ago, DateUtils.numberText. rewrite !isOne_eqb.
    replace (e <? 0)%Z with false by (symmetry; apply Z.ltb_ge; lia).
    destruct (e <? 3600)%Z eqn:E2; [apply Z.ltb_lt in E2|apply Z.ltb_ge in E2].
    { exists "minute", 60%Z, (e / 60)%Z.
      split; [simpl; auto|]. split.
      - intros u s Hin Hs. simpl in Hin.
        repeat (destruct Hin as [Hin | Hin]; [injection Hin as <- <-; lia|]).
        contradiction.
      - split; [apply quotient_bounds; lia|].
        split; [apply quotient_positive; lia | reflexivity]. }
    destruct (e <? 86400)%Z eqn:E3; [apply Z.ltb_lt in E3|apply Z.ltb_ge in E3].
    { exists "hour", 3600%Z, (e / 3600)%Z.
      split; [simpl; auto|]. split.
      - intros u s Hin Hs. simpl in Hin.
        repeat (destruct Hin as [Hin | Hin]; [injection Hin as <- <-; lia|]).
        contradiction.
      - split; [apply quotient_bounds; lia|].
        split; [apply quotient_positive; lia | reflexivity]. }
    destruct (e <? 2592000)%Z eqn:E4; [apply Z.ltb_lt in E4|apply Z.ltb_ge in E4].
    { exists "day", 86400%Z, (e / 86400)%Z.
      split; [simpl; auto|]. split.
      - intros u s Hin Hs. simpl in Hin.
        repeat (destruct Hin as [Hin | Hin]; [injection Hin as <- <-; lia|]).
        contradiction.
      - split; [apply quotient_bounds; lia|].
        split; [apply quotient_positive; lia | reflexivity]. }
    destruct (e <? 31536000)%Z eqn:E5; [apply Z.ltb_lt in E5|apply Z.ltb_ge in E5].
    { exists "month", 2592000%Z, (e / 2592000)%Z.
      split; [simpl; auto 6|]. split.
      - intros u s Hin Hs. simpl in Hin.
        repeat (destruct Hin as [Hin | Hin]; [injection Hin as <- <-; lia|]).
        contradiction.
      - split; [apply quotient_bounds; lia|].
        split; [apply quotient_positive; lia | reflexivity]. }
    exists "year", 31536000%Z, (e / 31536000)%Z.
    split; [simpl; auto 7|]. split.
    + intros u s Hin Hs. simpl in Hin.
      repeat (destruct Hin as [Hin | Hin]; [injection Hin as <- <-; lia|]).
      contradiction.
    + split; [apply quotient_bounds; lia|].
      split; [apply quotient_positive; lia | reflexivity].
Qed.

(** An instance: two hours and five minutes ago. *)
Lemma formatRelativeTime_spec_witness :
  exists unit' seconds n,
    In (unit', seconds) DateUtils.units /\
    (forall u s, In (u, s) DateUtils.units -> (s <= 7500)%Z -> (s <= seconds)%Z) /\
    (seconds * n <= 7500 < seconds * (n + 1))%Z /\
    (1 <= n)%Z /\
    DateUtils.formatRelativeTime 7500000 (ValidDate 0) =
    JSON.numberToString n ++ " " ++ unit' ++
    (if (n =? 1)%Z then "" else "s") ++ " ago".
Proof.
  assert (Hnow : DateUtils.isTimeValue 7500000) by (vm_compute; discriminate).
  assert (Ht : DateUtils.isTimeValue 0) by (vm_compute; discriminate).
  assert (H : (Z.abs (7500000 - 0) <= 2 ^ 53)%Z) by (vm_compute; discriminate).
  exact (proj1 (formatRelativeTime_spec 7500000 0 Hnow Ht H)).
Defined.

(** What the instance above shows. *)
Example formatRelativeTime_two_hours :
  DateUtils.formatRelativeTime 7500000 (ValidDate 0) = "2 hours ago".
Proof. reflexivity. Qed.

(* ================================================================== *)
(** ** hooks/useAutoSave.ts: what holds throughout a session *)

Section Sessions.
Import AutoSave.
Variable delay : Z.
Variable maxRetries : nat.

#[local] Abbreviation step := (step delay maxRetries).
#[local] Abbreviation run := (run delay maxRetries).

(** A property that the steps of a kind of events keep is kept by a run
    of such events. *)
Lemma run_preserves (P : State -> Prop) (Q : Event -> Prop) :
  (forall s e, Q e -> P s -> P (step s e)) ->
  forall events s, Forall Q events -> P s -> P (run s events).
Proof.
  intros Hstep. induction events as [|e events IH]; intros s Hall Hs; [exact Hs|].
  apply Forall_cons_iff in Hall as [He Hall].
  change (run s (e :: events)) with (run (step s e) events).
  apply IH; [exact Hall | now apply Hstep].
Qed.

Lemma run_invariant (P : State -> Prop) :
  (forall s e, P s -> P (step s e)) ->
  forall events s, P s -> P (run s events).
Proof.
  intros Hstep events s Hs.
  apply (run_preserves P (fun _ => True)); auto.
  now apply Forall_forall.
Qed.

Lemma reachable_run (data : string) (en : bool) (events : list Event) :
  Reachable delay maxRetries (run (mount data en) events).
Proof.
  apply run_invariant; [|constructor].
  intros s e Hs. now constructor.
Qed.

Lemma retryDelay_bounds (n : nat) :
  (1000 <= retryDelay (S n) <= 10000)%Z.
Proof.
  unfold retryDelay.
  assert (H : (0 < 2 ^ (Z.of_nat (S n) - 1))%Z) by (apply Z.pow_pos_nonneg; lia).
  lia.
Qed.

Lemma Forall_removeAt {A : Type} (Q : A -> Prop) (i : nat) (l : list A) :
  Forall Q l -> Forall Q (removeAt i l).
Proof.
  intros H. revert i. induction H as [|x rest Hx Hrest IH]; intros i.
  - destruct i; constructor.
  - destruct i; simpl; [exact Hrest | constructor; auto].
Qed.

Lemma budget_step (s : State) (e : Event) :
  retryCount s <= maxRetries /\
  Forall (fun t => (1000 <= ms t <= 10000)%Z) (retryTimers s) ->
  retryCount (step s e) <= maxRetries /\
  Forall (fun t => (1000 <= ms t <= 10000)%Z) (retryTimers (step s e)).
Proof.
  intros [Hc Ht].
  destruct e as [data en | | i | i ok now | | | | ]; simpl.
  - unfold render. destruct (negb en || String.eqb data (lastData s)); now split.
  - destruct (debounceTimer s) as [t|]; [|now split].
    unfold callPerformSave. simpl.
    destruct (isSaving s || negb (enabled (callback t))); now split.
  - destruct (nth_error (retryTimers s) i) as [t|]; [|now split].
    apply (Forall_removeAt _ i) in Ht.
    unfold callPerformSave. simpl.
    destruct (isSaving s || negb (enabled (callback t))); now split.
  - destruct (nth_error (inFlight s) i) as [c|]; [|now split].
    unfold resume. simpl. destruct ok; [simpl; split; [lia | exact Ht]|].
    destruct (Nat.ltb (retryCount s) maxRetries) eqn:E; simpl.
    + apply Nat.ltb_lt in E. split; [lia|].
      apply Forall_app. split; [exact Ht|].
      constructor; [apply retryDelay_bounds | constructor].
    + split; [lia | exact Ht].
  - unfold save, callPerformSave. simpl.
    destruct (isSaving s || negb (enabled (performSave s))); now split.
  - split; [simpl; lia | exact Ht].
  - unfold leaving, callPerformSave.
    destruct (SaveStatus_eqb (saveStatus s) typing && enabled (performSave s));
      [|now split].
    destruct (isSaving s || negb (enabled (performSave s))); now split.
  - unfold leaving, callPerformSave.
    destruct (SaveStatus_eqb (saveStatus s) typing && enabled (performSave s));
      [|now split].
    destruct (isSaving s || negb (enabled (performSave s))); now split.
Qed.

(** The pending debounce timer was set by an enabled render, waits
    [delay], and the effect that set it returned its clean-up. *)
Lemma debounce_timer_enabled (s : State) :
  Reachable delay maxRetries s ->
  forall t, debounceTimer s = Some t -> enabled (callback t) = true /\ ms t = delay.
Proof.
  induction 1 as [data en | s e _ IH]; [discriminate|].
  destruct e as [data en | | i | i ok now | | | | ]; simpl.
  - unfold render.
    destruct (negb en || String.eqb data (lastData s)) eqn:E; simpl.
    + intros t Ht. destruct (cleanup s); [discriminate | now apply IH].
    + intros t Ht. injection Ht as <-. simpl.
      apply orb_false_iff in E as [E _]. now destruct en.
  - destruct (debounceTimer s) as [t0|] eqn:Ht0; [|rewrite Ht0; discriminate].
    unfold callPerformSave. simpl.
    destruct (isSaving s || negb (enabled (callback t0))); simpl; discriminate.
  - destruct (nth_error (retryTimers s) i) as [t0|]; [|exact IH].
    unfold callPerformSave. simpl.
    destruct (isSaving s || negb (enabled (callback t0))); simpl; exact IH.
  - destruct (nth_error (inFlight s) i) as [c0|]; [|exact IH].
    unfold resume. simpl.
    destruct ok; [exact IH|].
    destruct (Nat.ltb (retryCount s) maxRetries); exact IH.
  - unfold save, callPerformSave. simpl.
    destruct (isSaving s || negb (enabled (performSave s))); simpl; discriminate.
  - discriminate.
  - unfold leaving, callPerformSave.
    destruct (SaveStatus_eqb (saveStatus s) typing && enabled (performSave s));
      [|exact IH].
    destruct (isSaving s || negb (enabled (performSave s))); exact IH.
  - unfold leaving, callPerformSave.
    destruct (SaveStatus_eqb (saveStatus s) typing && enabled (performSave s));
      [|exact IH].
    destruct (isSaving s || negb (enabled (performSave s))); exact IH.
Qed.

(** X14. The timers of [useAutoSave].  At every moment of a session the
    retry counter is at most [maxRetries], every pending retry waits
    between one and ten seconds, and a pending debounce timer waits
    [delay]. *)
Theorem timers_bounded (data : string) (en : bool) (events : list Event) :
  let s := run (mount data en) events in
  retryCount s <= maxRetries /\
  Forall (fun t => (1000 <= ms t <= 10000)%Z) (retryTimers s) /\
  match debounceTimer s with
  | Some t => ms t = delay
  | None => True
  end.
Proof.
  cbv zeta.
  assert (H : retryCount (run (mount data en) events) <= maxRetries /\
              Forall (fun t => (1000 <= ms t <= 10000)%Z)
                (retryTimers (run (mount data en) events))).
  { apply (run_invariant
             (fun s => retryCount s <= maxRetries /\
                       Forall (fun t => (1000 <= ms t <= 10000)%Z) (retryTimers s))).
    - intros s e. apply budget_step.
    - simpl. split; [lia | constructor]. }
  destruct H as [H1 H2]. repeat split; auto.
  pose proof (debounce_timer_enabled _ (reachable_run data en events)) as Ht.
  destruct (debounceTimer (run (mount data en) events)) as [t|]; [|exact I].
  now destruct (Ht t eq_refl).
Qed.

(** X15. A disabled hook does nothing.  While the hook is mounted and
    rendered with [enabled = false], whatever timers fire and whether or
    not [save()] is called or the page is left, [onSave] is never
    invoked, no timer is pending and the status stays [idle]. *)
Theorem disabled_never_saves (data : string) (events : list Event) :
  Forall rendersDisabled events ->
  let s := run (mount data false) events in
  committed s = [] /\ inFlight s = [] /\ debounceTimer s = None /\
  retryTimers s = [] /\ saveStatus s = idle /\ lastSaved s = None.
Proof.
  intros Hall. cbv zeta.
  pose (P := fun s => enabled (performSave s) = false /\
                      committed s = [] /\ inFlight s = [] /\
                      debounceTimer s = None /\ retryTimers s = [] /\
                      saveStatus s = idle /\ lastSaved s = None).
  assert (H : P (run (mount data false) events)).
  { apply (run_preserves P rendersDisabled);
      [|exact Hall|unfold P; simpl; repeat split].
    unfold P. intros s e He (Hen & Hc & Hf & Hd & Ht & Hst & Hl).
    destruct e as [d en | | i | i ok now | | | | ]; simpl in He |- *.
    - subst en. unfold render. simpl. rewrite Hd. repeat split; auto.
      now destruct (cleanup s).
    - rewrite Hd. repeat split; auto.
    - rewrite Ht. destruct i; simpl; repeat split; auto.
    - rewrite Hf. destruct i; simpl; repeat split; auto.
    - unfold save, callPerformSave. simpl. rewrite Hen, orb_true_r. simpl.
      repeat split; auto.
    - unfold reset. simpl. repeat split; auto.
    - unfold leaving. rewrite Hen, andb_false_r. repeat split; auto.
    - unfold leaving. rewrite Hen, andb_false_r. repeat split; auto. }
  unfold P in H. tauto.
Qed.

(** X16. One save at a time.  As long as [reset()] is not called, at most
    one call of [onSave] is awaiting its result, and none is while the
    [isSaving] flag is down: an attempt that would start during another
    is dropped. *)
Theorem single_flight (data : string) (en : bool) (events : list Event) :
  Forall notReset events ->
  let s := run (mount data en) events in
  List.length (inFlight s) <= 1 /\
  (isSaving s = false -> inFlight s = []) /\
  (isSaving s = true -> exists c, inFlight s = [c]).
Proof.
  intros Hall. cbv zeta.
  pose (P := fun s => if isSaving s then exists c, inFlight s = [c]
                      else inFlight s = []).
  assert (H : P (run (mount data en) events)).
  { apply (run_preserves P notReset); [|exact Hall|reflexivity].
    unfold P. intros s e He Hs.
    assert (Hcall : forall c s0,
               (if isSaving s0 then exists c, inFlight s0 = [c] else inFlight s0 = []) ->
               if isSaving (callPerformSave c s0)
               then exists c', inFlight (callPerformSave c s0) = [c']
               else inFlight (callPerformSave c s0) = []).
    { intros c s0 H0. unfold callPerformSave.
      destruct (isSaving s0) eqn:E; simpl; [now rewrite E|].
      destruct (enabled c); simpl; [|now rewrite E].
      rewrite H0. now exists c. }
    destruct e as [d en' | | i | i ok now | | | | ]; simpl in He |- *.
    - unfold render. destruct (negb en' || String.eqb d (lastData s)); exact Hs.
    - destruct (debounceTimer s) as [t|]; [|exact Hs]. now apply Hcall.
    - destruct (nth_error (retryTimers s) i) as [t|]; [|exact Hs]. now apply Hcall.
    - destruct (nth_error (inFlight s) i) as [c|] eqn:Ef; [|exact Hs].
      assert (Hrest : removeAt i (inFlight s) = []).
      { destruct (isSaving s).
        - destruct Hs as [c' Hc']. rewrite Hc' in Ef |- *.
          destruct i as [|[|i]]; [reflexivity | discriminate | discriminate].
        - rewrite Hs in Ef. destruct i; discriminate. }
      unfold resume. simpl. destruct ok; [exact Hrest|].
      destruct (Nat.ltb (retryCount s) maxRetries); exact Hrest.
    - unfold save. now apply Hcall.
    - contradiction.
    - unfold leaving.
      destruct (SaveStatus_eqb (saveStatus s) typing && enabled (performSave s));
        [now apply Hcall | exact Hs].
    - unfold leaving.
      destruct (SaveStatus_eqb (saveStatus s) typing && enabled (performSave s));
        [now apply Hcall | exact Hs]. }
  unfold P in H.
  destruct (isSaving (run (mount data en) events)).
  - destruct H as [c ->]. repeat split; simpl; eauto. discriminate.
  - rewrite H. repeat split; simpl; auto. discriminate.
Qed.


(** X18. A render without new data cancels the debounce timer.  Whenever
    the component renders again with the [data] last observed (as it
    does after the status changes to [typing], app/page.tsx passing a new
    [onSave] at every render), the clean-up of the debounce effect clears
    a pending timer and the effect sets none: when the timer would have
    fired nothing happens, and nothing was committed. *)
Theorem rerender_cancels_debounce (data : string) (en en' : bool)
        (events : list Event) :
  let s := run (mount data en) events in
  let s' := step s (Render (lastData s) en') in
  debounceTimer s' = None /\
  step s' DebounceFires = s' /\
  committed s' = committed s /\
  saveStatus s' = saveStatus s /\
  lastData s' = lastData s.
Proof.
  cbv zeta. set (s := run (mount data en) events).
  pose proof (reachable_run data en events) as Hr. fold s in Hr.
  destruct (latest_closure_fresh delay maxRetries s Hr) as [_ Hd].
  assert (Hnone : debounceTimer (step s (Render (lastData s) en')) = None).
  { simpl. unfold render. rewrite String.eqb_refl, orb_true_r. simpl.
    destruct (debounceTimer s) as [t|] eqn:Et.
    - destruct (Hd t eq_refl) as [_ ->]. reflexivity.
    - now destruct (cleanup s). }
  split; [exact Hnone|]. split.
  - change (step (step s (Render (lastData s) en')) DebounceFires)
      with (match debounceTimer (step s (Render (lastData s) en')) with
            | Some t => callPerformSave (callback t)
                          (setDebounceTimer None (step s (Render (lastData s) en')))
            | None => step s (Render (lastData s) en')
            end).
    now rewrite Hnone.
  - simpl. unfold render. rewrite String.eqb_refl, orb_true_r. simpl. auto.
Qed.

End Sessions.

(** An instance: a disabled hook that is rendered, told to save, and left. *)
Lemma disabled_never_saves_witness :
  AutoSave.committed
    (AutoSave.run DEBOUNCE_DELAY 3 (AutoSave.mount "x" false)
       [AutoSave.Render "a" false; AutoSave.DebounceFires; AutoSave.Save;
        AutoSave.BeforeUnload]) = [].
Proof.
  apply (disabled_never_saves DEBOUNCE_DELAY 3 "x"
           [AutoSave.Render "a" false; AutoSave.DebounceFires; AutoSave.Save;
            AutoSave.BeforeUnload]).
  repeat constructor.
Defined.

(** An instance: a save is in flight when [save()] is called again. *)
Lemma single_flight_witness :
  List.length
    (AutoSave.inFlight
       (AutoSave.run DEBOUNCE_DELAY 3 (AutoSave.mount "x" true)
          (AutoSave.typedAndFired ++ [AutoSave.Save; AutoSave.RetryFires 0])%list))
  <= 1.
Proof.
  apply (single_flight DEBOUNCE_DELAY 3 "x" true
           (AutoSave.typedAndFired ++ [AutoSave.Save; AutoSave.RetryFires 0])%list).
  repeat constructor.
Defined.

(** The condition on [reset()] is needed: it lowers the flag while the
    call of [onSave] is still awaited, and a [save()] then starts a second
    one. *)
Example reset_allows_second_flight :
  AutoSave.inFlight
    (AutoSave.run DEBOUNCE_DELAY 3 (AutoSave.mount "x" true)
       (AutoSave.typedAndFired ++ [AutoSave.Reset; AutoSave.Save])%list) =
  [AutoSave.mkClosure "ab" true; AutoSave.mkClosure "ab" true].
Proof. reflexivity. Qed.

(** The first edit after mounting: the status change to [typing] makes
    the component render again, which cancels the timer the edit set;
    nothing is saved when the delay has passed. *)
Example first_edit_is_not_saved :
  let s := AutoSave.run DEBOUNCE_DELAY 3 (AutoSave.mount "x" true)
             [AutoSave.Render "a" true; AutoSave.Render "a" true;
              AutoSave.DebounceFires] in
  AutoSave.committed s = [] /\ AutoSave.saveStatus s = AutoSave.typing /\
  AutoSave.debounceTimer s = None.
Proof. repeat split; reflexivity. Qed.

(* ================================================================== *)
(** ** hooks/useMemos.ts: the cache and the store *)

Section Cache.
Variable h : Host.
Hypothesis Date_roundtrip :
  forall ms, Date_parse h (Date_toISOString h ms) = ValidDate ms.
Import MemosHook.

#[local] Ltac same_store := unfold Ok, Throw; congruence.

Lemma saveMemo_throws (memo : Memo) (st st' : Storage) (e : exn) :
  MemoStorage.saveMemo h memo st = (inl e, st') -> st' = st.
Proof.
  rewrite saveMemo_eq.
  destruct (fst (MemoStorage.getMemos h st)) as [e0|l]; [same_store|].
  cbv zeta.
  destruct (saveMemos_cases h
              (if (0 <=? findIndex (hasId (id memo)) l)%Z
               then assign (Z.to_nat (findIndex (hasId (id memo)) l)) memo l
               else (l ++ [memo])%list) st) as [-> | (e1 & -> & _)]; same_store.
Qed.

Lemma createMemo_throws (content' newId : string) (now : Z) (st st' : Storage)
      (e : exn) :
  MemoStorage.createMemo h content' now newId st = (inl e, st') -> st' = st.
Proof.
  rewrite createMemo_eq.
  destruct (MemoStorage.saveMemo h _ st) as [[e0|u] st0] eqn:E; [|discriminate].
  intros H. injection H as _ <-. now apply saveMemo_throws in E.
Qed.

Lemma deleteMemo_throws (id' : string) (st st' : Storage) (e : exn) :
  MemoStorage.deleteMemo h id' st = (inl e, st') -> st' = st.
Proof.
  rewrite deleteMemo_eq.
  destruct (negb (isValidId id')); [same_store|].
  destruct (fst (MemoStorage.getMemos h st)) as [e0|l]; [same_store|].
  cbv zeta. destruct (Nat.eqb _ _); [same_store|].
  destruct (saveMemos_cases h (filter (fun memo => negb (hasId id' memo)) l) st)
    as [-> | (e1 & -> & _)]; same_store.
Qed.

Lemma updateMemo_throws (id' : string) (updates : option string) (now : Z)
      (st st' : Storage) (e : exn) :
  MemoStorage.updateMemo h id' updates now st = (inl e, st') -> st' = st.
Proof.
  rewrite updateMemo_eq.
  destruct (fst (MemoStorage.getMemos h st)) as [e0|l]; [same_store|].
  destruct (isValidId id'); [|same_store].
  destruct (find (hasId id') l) as [existing|]; [|same_store].
  destruct (saveMemos_cases h
              (assign (Z.to_nat (findIndex (hasId id') l))
                 (patched existing updates now) l) st)
    as [-> | (e1 & -> & _)]; same_store.
Qed.

Lemma find_filter_negb {A : Type} (p : A -> bool) (l : list A) :
  find p (filter (fun x => negb (p x)) l) = None.
Proof.
  induction l as [|x rest IH]; simpl; [reflexivity|].
  destruct (p x) eqn:E; simpl; [exact IH|]. now rewrite E.
Qed.

(** The cache after [updateMemo], without the clock readings. *)
Lemma editAll_withoutUpdatedAt (id' content' : string) (clock : nat -> Z) (i : nat)
      (l : list Memo) :
  map withoutUpdatedAt (editAll id' content' clock i l) =
  map (fun m => if hasId id' m then (id m, content', createdAt m)
                else withoutUpdatedAt m) l.
Proof.
  revert i. induction l as [|m rest IH]; intros i; simpl; [reflexivity|].
  rewrite IH. unfold hasId. now destruct (String.eqb (id m) id').
Qed.

Lemma editAll_ids (id' content' : string) (clock : nat -> Z) (i : nat)
      (l : list Memo) :
  map id (editAll id' content' clock i l) = map id l.
Proof.
  revert i. induction l as [|m rest IH]; intros i; simpl; [reflexivity|].
  rewrite IH. now destruct (String.eqb (id m) id').
Qed.

(** X19. Loading.  The effect that loads the memos never throws and never
    writes; when it is done [isLoading] is false, and the cache is what
    the store lists, or, when the store cannot be read, still empty with
    the status [error]. *)
Theorem loadMemos_coherent (st : Storage) :
  let s' := fst (loadMemos h initial st) in
  snd (loadMemos h initial st) = st /\
  isLoading s' = false /\
  currentMemo s' = None /\
  match fst (MemoStorage.getMemos h st) with
  | inr _ => coherent h st s' /\ saveStatus s' = AutoSave.idle
  | inl _ => memos s' = [] /\ saveStatus s' = AutoSave.error
  end.
Proof.
  cbv zeta. unfold loadMemos, coherent.
  pose proof (getMemos_state h st) as Hst.
  destruct (MemoStorage.getMemos h st) as [[e|l] st0]; simpl in *; subst st0;
    repeat split; reflexivity.
Qed.

(** X20. The cache after [createMemo].  The cache is what the store
    lists, the timestamps are valid, the new id is well-formed and not in
    use, and the clock is ahead of every stored [updatedAt].  Then after
    [createMemo] succeeds the cache is again what the store lists, with
    the new memo first and selected; when it fails, the error is passed
    on, the store and the cache are as before and the status is
    [error]. *)
Theorem cache_after_createMemo (content' newId : string) (now : Z)
        (s : State) (st : Storage) :
  coherent h st s ->
  Forall hasValidDates (memos s) ->
  isValidId newId = true ->
  find (hasId newId) (memos s) = None ->
  allOlderThan now (memos s) ->
  match createMemo h content' now newId s st with
  | (inr memo, s', st') =>
      memo = mkMemo newId content' (ValidDate now) (ValidDate now) /\
      memos s' = memo :: memos s /\
      currentMemo s' = Some memo /\
      saveStatus s' = AutoSave.saved /\
      coherent h st' s'
  | (inl e, s', st') =>
      fst (MemoStorage.createMemo h content' now newId st) = inl e /\
      s' = setSaveStatus AutoSave.error s /\ st' = st
  end.
Proof.
  intros Hco Hvalid Hid Hfresh Hold. unfold createMemo.
  destruct (MemoStorage.createMemo h content' now newId st) as [[e|memo] st'] eqn:E.
  - apply createMemo_throws in E. now subst st'.
  - destruct (createMemo_listing h Date_roundtrip _ _ _ _ _ _ _ Hco Hvalid Hid Hfresh E)
      as [-> Hafter].
    repeat split. unfold coherent. simpl memos. rewrite Hafter. f_equal.
    apply (sort_push_newest _ _ now); [reflexivity | | exact Hold].
    now apply (getMemos_sorted_valid h st).
Qed.

(** X21. The cache after [deleteMemo].  The cache is what the store lists
    and the timestamps are valid.  Then after [deleteMemo] succeeds the
    cache is again what the store lists and holds no memo of that id, and
    the selection is cleared if it was the deleted memo and kept
    otherwise; when it fails, the error is passed on, the store and the
    cache are as before and the status is [error]. *)
Theorem cache_after_deleteMemo (id' : string) (s : State) (st : Storage) :
  coherent h st s ->
  Forall hasValidDates (memos s) ->
  match deleteMemo h id' s st with
  | (inr _, s', st') =>
      coherent h st' s' /\
      getMemoById id' s' = None /\
      currentMemo s' = (if currentHasId id' s then None else currentMemo s) /\
      saveStatus s' = AutoSave.saved
  | (inl e, s', st') =>
      fst (MemoStorage.deleteMemo h id' st) = inl e /\
      s' = setSaveStatus AutoSave.error s /\ st' = st
  end.
Proof.
  intros Hco Hvalid. unfold deleteMemo.
  destruct (MemoStorage.deleteMemo h id' st) as [[e|[]] st'] eqn:E.
  - apply deleteMemo_throws in E. now subst st'.
  - destruct (deleteMemo_listing h Date_roundtrip _ _ _ _ Hco Hvalid E)
      as (_ & _ & Hafter).
    repeat split.
    + exact Hafter.
    + unfold getMemoById. simpl memos.
      apply (find_filter_negb (fun memo => String.eqb (id memo) id')).
Qed.

(** X22. The cache after [updateMemo].  The cache is what the store
    lists, the timestamps are valid and one memo has the id.  Then after
    [updateMemo] succeeds the cache keeps its order, and it agrees with
    what the store lists in everything but the order and the [updatedAt]
    of the memos (the store moves the memo to its place by time, the
    cache reads the clock anew); when it fails, the error is passed on,
    the store and the cache are as before and the status is [error]. *)
Theorem cache_after_updateMemo (id' content' : string) (now : Z) (clock : nat -> Z)
        (now' : Z) (s : State) (st : Storage) :
  coherent h st s ->
  Forall hasValidDates (memos s) ->
  List.length (filter (hasId id') (memos s)) = 1 ->
  match updateMemo h id' content' now clock now' s st with
  | (inr _, s', st') =>
      map id (memos s') = map id (memos s) /\
      saveStatus s' = AutoSave.saved /\
      exists listed,
        fst (MemoStorage.getMemos h st') = inr listed /\
        Permutation (map withoutUpdatedAt listed) (map withoutUpdatedAt (memos s'))
  | (inl e, s', st') =>
      fst (MemoStorage.updateMemo h id' (Some content') now st) = inl e /\
      s' = setSaveStatus AutoSave.error s /\ st' = st
  end.
Proof.
  intros Hco Hvalid Honce. unfold updateMemo.
  destruct (MemoStorage.updateMemo h id' (Some content') now st) as [[e|[]] st'] eqn:E.
  - apply updateMemo_throws in E. now subst st'.
  - destruct (updateMemo_listing h Date_roundtrip _ _ _ _ _ _ Hco Hvalid E)
      as (existing & Hid & Hfind & Hafter).
    simpl memos. simpl saveStatus.
    split; [apply editAll_ids|]. split; [reflexivity|].
    eexists. split; [exact Hafter|].
    rewrite (Permutation_map withoutUpdatedAt (sort_perm MemoStorage.byUpdatedAtDesc _)).
    rewrite (assign_once _ _ _ _ Hfind Honce), editAll_withoutUpdatedAt, map_map.
    apply find_some in Hfind as [Hin Hhas].
    assert (Heq : forall m, In m (memos s) ->
              withoutUpdatedAt
                (if hasId id' m then patched existing (Some content') now else m) =
              (if hasId id' m then (id m, content', createdAt m)
               else withoutUpdatedAt m)).
    { intros m Hm. destruct (hasId id' m) eqn:Hm'; [|reflexivity].
      now rewrite (once_unique _ _ _ _ Honce Hm Hm' Hin Hhas). }
    rewrite (map_ext_in _ _ _ Heq). reflexivity.
Qed.

End Cache.

(* ------------------------------------------------------------------ *)
(** Instances: the hook over the sample store of two memos. *)

Lemma cache_after_createMemo_witness :
  match MemosHook.createMemo Sample.host "c" 30 Sample.idC
          (fst (MemosHook.loadMemos Sample.host MemosHook.initial SampleStores.two))
          SampleStores.two with
  | (inr memo, s', st') =>
      memo = mkMemo Sample.idC "c" (ValidDate 30) (ValidDate 30) /\
      MemosHook.memos s' =
      memo :: MemosHook.memos
                (fst (MemosHook.loadMemos Sample.host MemosHook.initial
                        SampleStores.two)) /\
      MemosHook.currentMemo s' = Some memo /\
      MemosHook.saveStatus s' = AutoSave.saved /\
      coherent Sample.host st' s'
  | (inl e, s', st') =>
      fst (MemoStorage.createMemo Sample.host "c" 30 Sample.idC SampleStores.two) =
      inl e /\
      s' = MemosHook.setSaveStatus AutoSave.error
             (fst (MemosHook.loadMemos Sample.host MemosHook.initial
                     SampleStores.two)) /\
      st' = SampleStores.two
  end.
Proof.
  apply (cache_after_createMemo Sample.host sample_roundtrip "c" Sample.idC 30
           (fst (MemosHook.loadMemos Sample.host MemosHook.initial SampleStores.two))
           SampleStores.two).
  - reflexivity.
  - apply forallb_dates. reflexivity.
  - reflexivity.
  - reflexivity.
  - constructor; [exists 10%Z; split; [reflexivity | lia]|].
    constructor; [exists 5%Z; split; [reflexivity | lia] | constructor].
Defined.

Lemma cache_after_deleteMemo_witness :
  match MemosHook.deleteMemo Sample.host Sample.idA
          (fst (MemosHook.loadMemos Sample.host MemosHook.initial SampleStores.two))
          SampleStores.two with
  | (inr _, s', st') =>
      coherent Sample.host st' s' /\
      MemosHook.getMemoById Sample.idA s' = None /\
      MemosHook.currentMemo s' =
      (if MemosHook.currentHasId Sample.idA
            (fst (MemosHook.loadMemos Sample.host MemosHook.initial
                    SampleStores.two))
       then None
       else MemosHook.currentMemo
              (fst (MemosHook.loadMemos Sample.host MemosHook.initial
                      SampleStores.two))) /\
      MemosHook.saveStatus s' = AutoSave.saved
  | (inl e, s', st') =>
      fst (MemoStorage.deleteMemo Sample.host Sample.idA SampleStores.two) = inl e /\
      s' = MemosHook.setSaveStatus AutoSave.error
             (fst (MemosHook.loadMemos Sample.host MemosHook.initial
                     SampleStores.two)) /\
      st' = SampleStores.two
  end.
Proof.
  apply (cache_after_deleteMemo Sample.host sample_roundtrip Sample.idA
           (fst (MemosHook.loadMemos Sample.host MemosHook.initial SampleStores.two))
           SampleStores.two).
  - reflexivity.
  - apply forallb_dates. reflexivity.
Defined.

Lemma cache_after_updateMemo_witness :
  match MemosHook.updateMemo Sample.host Sample.idB "x" 20 (fun _ => 21%Z) 22
          (fst (MemosHook.loadMemos Sample.host MemosHook.initial SampleStores.two))
          SampleStores.two with
  | (inr _, s', st') =>
      map id (MemosHook.memos s') =
      map id (MemosHook.memos
                (fst (MemosHook.loadMemos Sample.host MemosHook.initial
                        SampleStores.two))) /\
      MemosHook.saveStatus s' = AutoSave.saved /\
      exists listed,
        fst (MemoStorage.getMemos Sample.host st') = inr listed /\
        Permutation (map withoutUpdatedAt listed)
          (map withoutUpdatedAt (MemosHook.memos s'))
  | (inl e, s', st') =>
      fst (MemoStorage.updateMemo Sample.host Sample.idB (Some "x") 20
             SampleStores.two) = inl e /\
      s' = MemosHook.setSaveStatus AutoSave.error
             (fst (MemosHook.loadMemos Sample.host MemosHook.initial
                     SampleStores.two)) /\
      st' = SampleStores.two
  end.
Proof.
  apply (cache_after_updateMemo Sample.host sample_roundtrip Sample.idB "x" 20
           (fun _ => 21%Z) 22
           (fst (MemosHook.loadMemos Sample.host MemosHook.initial SampleStores.two))
           SampleStores.two).
  - reflexivity.
  - apply forallb_dates. reflexivity.
  - reflexivity.
Defined.

(** After the update the store lists the updated memo first; the cache
    keeps it in its place, with the time of its own clock reading. *)
Example cache_order_after_updateMemo :
  let '(_, s', st') :=
    MemosHook.updateMemo Sample.host Sample.idB "x" 20 (fun _ => 21%Z) 22
      (fst (MemosHook.loadMemos Sample.host MemosHook.initial SampleStores.two))
      SampleStores.two in
  fst (MemoStorage.getMemos Sample.host st') =
  inr [mkMemo Sample.idB "x" (ValidDate 2) (ValidDate 20);
       mkMemo Sample.idA "a" (ValidDate 1) (ValidDate 10)] /\
  MemosHook.memos s' =
  [mkMemo Sample.idA "a" (ValidDate 1) (ValidDate 10);
   mkMemo Sample.idB "x" (ValidDate 2) (ValidDate 21)].
Proof. split; reflexivity. Qed.

(* ================================================================== *)
(** ** hooks/useMemos.ts: the debounced search query *)

Section Search.
Import SearchDebounce.

Lemma run_queries (s : State) (queries : list string) (q : string) :
  run s (map SetSearchQuery (queries ++ [q])%list) =
  {| searchQuery := searchQuery s; searchDebounceTimer := Some q |}.
Proof.
  revert s. induction queries as [|q0 rest IH]; intros s; [reflexivity|].
  change (run s (map SetSearchQuery ((q0 :: rest) ++ [q])%list))
    with (run (step s (SetSearchQuery q0)) (map SetSearchQuery (rest ++ [q])%list)).
  now rewrite IH.
Qed.

End Search.

(** X23. The search query is debounced.  Of the queries passed to
    [setSearchQuery] between two firings of the timer only the last one
    is applied, once, when the timer fires; until then [searchQuery] (and
    with it the filtered list) is unchanged.  [clearSearch] empties the
    query at once and cancels the pending one. *)
Theorem search_last_query_wins (s : SearchDebounce.State) (queries : list string)
        (q : string) :
  let typed := SearchDebounce.run s
                 (map SearchDebounce.SetSearchQuery (queries ++ [q])%list) in
  let fired := SearchDebounce.step typed SearchDebounce.TimerFires in
  let cleared := SearchDebounce.step typed SearchDebounce.ClearSearch in
  SearchDebounce.searchQuery typed = SearchDebounce.searchQuery s /\
  SearchDebounce.searchQuery fired = q /\
  SearchDebounce.step fired SearchDebounce.TimerFires = fired /\
  SearchDebounce.searchQuery cleared = "" /\
  SearchDebounce.step cleared SearchDebounce.TimerFires = cleared.
Proof.
  cbv zeta. rewrite run_queries. repeat split.
Qed.

(* ================================================================== *)
(** ** app/page.tsx: the status shown *)

(** X24. The status that the page shows.  Every [SaveStatus] is a
    non-empty string, so [autoSaveStatus || saveStatus] is always the
    status of [useAutoSave]; the status of [useMemos] is never shown.  In
    particular, when the store cannot be read at start-up [useMemos] sets
    its status to [error], but no memo is selected, the auto-save is
    disabled, and the page shows [idle]. *)
Theorem page_shows_autosave_status (h : Host) (st : Storage)
        (autoSaveStatus saveStatus : AutoSave.SaveStatus) :
  Page.currentSaveStatus autoSaveStatus saveStatus = autoSaveStatus /\
  let loaded := fst (MemosHook.loadMemos h MemosHook.initial st) in
  let hook := AutoSave.mount (Page.autoSaveData (MemosHook.currentMemo loaded))
                (Page.autoSaveEnabled (MemosHook.currentMemo loaded)) in
  match fst (MemoStorage.getMemos h st) with
  | inl _ =>
      MemosHook.saveStatus loaded = AutoSave.error /\
      Page.currentSaveStatus (AutoSave.saveStatus hook) (MemosHook.saveStatus loaded) =
      AutoSave.idle
  | inr _ => MemosHook.saveStatus loaded = AutoSave.idle
  end.
Proof.
  split; [now destruct autoSaveStatus|].
  cbv zeta. unfold MemosHook.loadMemos.
  destruct (MemoStorage.getMemos h st) as [[e|l] st0]; simpl; auto.
Qed.
